(* ===== verification/_CoqProject ===== *)
-Q . S2P
Prelude.v
Json.v
Files.v
Timers.v
IceWait.v
TokenStore.v
SignalStore.v
Relay.v
Startup.v
Transfer.v
Handshake.v
Async.v
Clicks.v
Display.v
Progress.v
