(* ===== verification/Prelude.v ===== *)
(** * Sendu: a verification development of the signaling and transfer core

    The repository (satish-kewat/sendu) lets two browser peers exchange a
    file over a WebRTC data channel.  Its sources are three JavaScript
    files, each a concatenation of several versions of a Node server or of
    the browser client:

    - [src/unnamed/part_001] lines 1-197: the final Node server
      ([server.js]): an in-memory one-time token store ([tokens], routes
      [POST /store], [GET /t/:id] with its reveal page, [GET /consume/:id],
      10 minute TTL) and a WebSocket signaling relay ([clients],
      [wss.on('connection')]).
    - [src/index.js] lines 173-365: a hardened copy of the same server
      (the relay answers malformed messages with an [error] message and
      only greets open sockets); lines 1-114: an Express server with a
      second one-time store ([SIGNAL_STORE], [POST /signal],
      [GET /signal/:token], 2 minute TTL) and the upload/download routes;
      lines 115-172: an older upload-only server.
    - [src/unnamed/part_000] lines 1-321: the browser client
      ([client.js]): the handshake driver (offer and answer through the
      relay and the token store) and the chunked file sender and receiver;
      lines 322-432: a further copy of the Express server of index.js.

    The parts interact as follows.  A page sends its offer to the relay,
    which echoes it; the page stores the offer in the token store and
    shows a short URL [/t/id] as a QR code; the other device opens it,
    reveals (consumes) the token and opens its own page with [?token=];
    that page answers through the relay and the store in the same way;
    the first page takes the answer and the data channel opens; the
    sender then streams the file to the receiver in 16 KiB chunks.

    ** Layout of the development

    - [Prelude] (this file): the scope [sendu_scope], the JavaScript
      exceptions ([exn]) and the [throws] type with its [let!] notation,
      the hint databases [sendu] and [sendu_rw], the tactics and the
      generic lemmas on lists, maps and strings.
    - [Json]: the JavaScript values that cross the wire ([jvalue]),
      truthiness ([truthy], the [!x] tests), property access ([get], which
      throws [TypeError] on [null]), object literals ([obj]), and the
      builtins [JSON.parse] / [JSON.stringify] as the class [JsonCodec]
      with the laws the code relies on (parse after stringify, an HTML
      page or a URL is not JSON, objects are printed between braces), together
      with a concrete codec [codec] that satisfies them (a proved round
      trip) and serves the witnesses.
    - [Files] (Module [Files]): the upload, download and page routes of
      the three Express servers (index.js lines 20-114 and 150-165,
      part_000 lines 359-424): multer's disk-storage name
      ([disk_filename]) with Node's [path.extname], [GET /download] with
      Node's [path.join] (translated from its POSIX definition:
      [normalize], [path_join]), the three upload handlers, the debug
      route, one dispatch function per server ([app_index], [app_old],
      [app_part]) and [serve_all], the process serving a sequence of
      requests until an uncaught throw ends it.
    - [Timers]: Node's [setTimeout] / [clearTimeout] as an explicit queue
      of pending callbacks, fired when the clock passes their deadline;
      the queue invariant [queue_ok] (sorted deadlines, bounded by
      [now + delay], handles below the counter) is preserved by every
      operation ([set_timeout_ok], [clear_timeout_ok], [fire_due_ok]).
    - [IceWait] (Module [IceWait]): [waitForIceGatheringComplete] of
      part_000 lines 45-53, the promise that settles when ICE gathering
      completes or when its 3-second timer fires, as a state machine over
      time-stamped events with the timer queue of [Timers].
    - [TokenStore] (Module [Store]): [tokens] of part_001 lines 15-185:
      a [gmap] from id to token, the timer queue and the clock; one
      definition per route ([store], [reveal], [consume]), [tick] for
      time, [exec] and [reachable] for the server as a sequence of
      events, the invariant [inv] proved by rule induction.
    - [SignalStore] (Module [Signal]): [SIGNAL_STORE] of index.js lines
      56-83, each entry holding its sdp and its timer handle, with
      [clearTimeout] on read.
    - [Relay] (Module [Relay]): the relay of part_001 lines 19-79 ([exec])
      and the hardened server's handlers of index.js lines 197-248
      ([exec_hardened]): the client set as a duplicate-free list in
      insertion order ([Set.forEach] order), the [readyState] of every
      socket, one definition per event, the messages each event sends as
      an explicit list of (socket, message) pairs; the protocol's five
      messages as the inductive [smsg]; [GET /health] and the graceful
      shutdown of index.js lines 259-261 and 343-356.
    - [Startup] (Module [Startup]): the [server.listen] callback of
      index.js lines 315-340, which builds and prints the public HTTP
      and WebSocket URLs from [RENDER_EXTERNAL_URL] or [HOSTNAME]; the
      WHATWG [URL] constructor is the class [UrlParser]; and the
      client's socket URL (part_000 lines 11-12).
    - [Transfer]: the sender ([sendFiles], [readSlice], the FileReader
      [onload] continuation, the share button) and the receiver
      ([receiveFile]) of part_000 lines 256-298 as state machines over
      the data channel's messages; the reference chunking [chunks].
    - [Handshake] (Module [Client]): the page of part_000 lines 1-254 and
      the reveal page's script (part_001 lines 137-167).  The page's
      globals are the record [page]; every [async] handler is a program of
      the interaction monad [io] (return, send on the socket, fetch),
      and [run_io] runs it against the routes of [TokenStore] ([serve]),
      so the client and the server are composed.  [URL],
      [decodeURIComponent], the [textarea] parser and exception messages
      are the class [Browser], the session descriptions of the WebRTC
      stack the class [Rtc]; concrete instances serve the witnesses.
    - [Async] (Module [Async]): the shortening branches of [ws.onmessage]
      (part_000 lines 96-128) as tasks suspended at their [await] of
      [POST /store]: [sched] holds the page, the token server and the
      tasks in flight; messages, arrivals of requests at the server and
      completions interleave in any order ([astep], [arun]).
    - [Clicks] (Module [Clicks]): the Create button's handler (part_000
      lines 80-93) suspended at each of its four [await]s ([cc]), which
      re-reads the global [peerConnection] when it resumes; clicks and
      resumptions interleave in any order ([cstep], [crun]).
    - [Display] (Module [Display]): the page's display in part_000:
      [showStatus] with its 5-second hide timer (line 320, on the timer
      queue of [Timers]), [formatFileSize] (line 321, [Math.log] as the
      class [FloatLog]), the file input's [change] handler (lines 68-77)
      and the text [generateQRCode] encodes (lines 309-316).
    - [Progress] (Module [Progress]): [updateProgress] (part_000 line
      319) as the sender's [onload] calls it (line 274) and as
      [receiveFile] calls it (line 290, [receiver_bar]); [Math.round] of
      the double quotient is the class [FloatPct] with its IEEE laws
      (exact at 0 and 100, monotone); [drive_bars] is the bar along
      [Sender.drive], [receive_bars] the bar along the receiver's
      messages.

    ** What the theorems show

    - Token store: a token is handed out at most once
      ([consume_one_time]); a stored token comes back unchanged
      ([store_consume]); the reveal page is served exactly when the token
      is live and does not burn it ([reveal_then_consume]); every stored
      token is truthy ([reachable_truthy]) and none outlives its TTL
      ([tokens_expire]).
    - Signal store: one-time read, round trip with the timer cancelled,
      expiry; and the stale timer of a token collision, which deletes the
      next entry early ([post_collision_keeps_stale_timer],
      [collision_early_expiry]).
    - Relay: messages only go to open sockets ([exec_sends_to_open]); ICE
      candidates reach exactly the other K-1 peers
      ([ice_candidate_to_all_others]); offers and answers are echoed to
      their sender ([offer_answer_echo]); malformed messages are
      harmless; closed sockets leave the set.  Every message either
      server sends is one of the protocol's, with its tag
      ([relay_messages_typed]); the hardened server refines the final
      one, differing only in its [error] answers ([hardened_refines]);
      [GET /health] counts each client once ([health_clients_bounded]);
      shutdown leaves no socket open ([shutdown_closes_all]), while the
      final server's [SIGINT] handler waits for every client to leave
      before it exits ([sigint_waits_for_clients]).
    - Startup: the public URLs of a host name or of a full URL
      ([public_urls_host]); a host name that starts with [http] is
      printed without a scheme and with [ws://]
      ([public_urls_http_host]); an unparsable [https://] URL gives
      [wss://https://...] ([public_urls_unparsable]); a page loaded from
      the printed HTTP URL opens its socket on the printed WebSocket URL
      ([client_socket_matches]).
    - ICE gathering wait: it settles at the first completion or at the
      first tick past the deadline, whichever comes first
      ([wait_whichever_first], a refinement of that specification); with
      the 3000 ms default it has settled by any tick past [t0 + 3000]
      ([wait_bounded]); its handler is registered exactly while it is
      pending ([listener_until_settled]).
    - Transfer: the sender's event loop sends the metadata and the
      reference chunking ([send_transcript]); in every reachable state of
      the page no binary frame exceeds [chunkSize] ([frames_bounded]),
      the chain of [onload] completions is well founded
      ([sender_loads_terminate], by the measure [pending_work]) and
      within [pending_work] completions no read is in flight
      ([sender_quiesces]); sender and receiver
      together deliver the file exactly once ([transfer_end_to_end]); the
      receiver is not reset after a download, takes a chunk before any
      metadata, and a second click during a transfer corrupts any file
      of more than two chunks: the receiver downloads its second chunk,
      then its first, then the rest ([double_click_corrupts]).
    - Handshake: the QR flow connects the two pages
      ([qr_handshake_connects], a refinement of the whole protocol: each
      peer connection ends with the other's description as remote); the
      offer's short URL stores the offer and hands it back
      ([offer_created_short_url]); a pasted, scanned or auto-loaded short
      URL always fails because [/t/id] serves HTML
      ([short_url_rejected]); an answer given to a freshly opened page is
      lost ([answer_without_pc]).  Trickled ICE ([trickle], a
      composition of the page's [onicecandidate], the relay and the other
      page's [ws.onmessage]) reaches every other open page, which adds
      the candidate exactly when it belongs to the session of its remote
      description (media and username fragment, as [addIceCandidate]
      checks them); any other candidate is refused and the refusal
      caught ([ice_trickle]).
    - Interleaving: a message whose task runs alone gives what the
      sequential [on_ws_message] gives ([ws_message_sequential], from
      [steps_run]: a task stepped alone is its [run_io]); two
      shortenings whose responses return out of order leave the page
      showing the older offer's short URL ([stale_short_url]).  A
      click on Create resumed alone is [create_connection]
      ([create_click_sequential]); two overlapping clicks both go on
      with the second connection, so its offer is sent twice or the
      first click's offer is rejected, and the first connection's offer
      is never sent ([double_create_offers]).
    - Routes: [GET /download] escapes the server directory: from
      [/d1/.../dn] the query [../]x n [t1/.../tk] sends [/t1/.../tk]
      ([download_traversal], from the general [join_up]); the name an
      upload is answered with downloads the stored file
      ([upload_download_roundtrip]); a multipart upload without a file
      kills each of the three servers, while the same request without
      multipart encoding is answered 500 ([upload_without_file_kills]).
    - Display: a stale hide timer hides a later [info] message
      ([stale_timer_hides_info]), while [success] and [error] messages do
      disappear after 5 s ([auto_hide_after_delay]); sizes of 1 TB and
      more get the unit [undefined] ([format_terabytes_undefined]); the
      QR code of the full-token fallback encodes a URL, which the
      scanning page rejects ([qr_fallback_unscannable]).  The sender's
      progress bar never goes back, stays within 100 and ends at 100
      ([sender_progress]); for an empty file it shows [NaN%]
      ([empty_file_nan]); the receiver, run over what the sender sent,
      shows the same bars in the same order ([progress_agrees]).

    ** Bounds, fuel and evaluation

    Sizes and offsets are [nat] (files stay far below 2^53).  [chunks]
    takes fuel bounding the number of chunks; [f_size f <= fuel *
    chunkSize] with [1 <= fuel] is enough ([chunks_enough_fuel]), which
    is the hypothesis of the transfer theorems.  [drive] runs [fuel]
    completed reads, the same bound.  The concrete codec's decoder takes
    the input length plus one as fuel, which is enough because every
    call consumes a character ([dec_enc_fuel]).  [chunkSize] (16384) is
    opaque in proofs so that no tactic unfolds it into a unary numeral;
    the scenarios are evaluated by [vm_compute] with boolean or small
    results.  The sender's termination measure is [pending_work]: twice
    the bytes left to read plus, per read in flight, 1 (2 for an empty
    slice); every completion lowers it, so it bounds the number of
    completions.

    ** Modelling conventions

    JSON numbers are integers [Z]; strings are [String.string] (bytes).
    Maps of the code ([new Map()]) are stdpp [gmap string _].  Code that
    can throw returns its exception as a value; where the code mutates
    state before throwing, the mutated state is returned with it.  Random
    identifiers ([uuidv4()], [crypto.randomBytes]) are inputs of the
    handlers.  In [Handshake] the client's handlers run to completion
    one after the other; [Async] lets the shortening handlers of
    [ws.onmessage] interleave at their [await]s and [Clicks] the Create
    button's handler.

    ** Not modelled

    [express.static] (library middleware that answers from [public/]
    before the routes: [Files] models the requests it lets through), the
    EJS templates (not in the sources: a render is its view name and
    locals), multer's parsing of the multipart body (its outcome is an
    input of the handlers), the file system (an [existsSync] predicate),
    the crash-reporting hooks of index.js lines 358-365 (they only log),
    QR images, the receiver's bar for a [size] field that is neither
    absent nor a non-negative number (it needs JavaScript's
    [ToNumber]), [downloadFile]'s object URL, and the WebRTC
    stack itself (ICE, DTLS, the channel's opening), which the code only
    calls; of the stack, the session descriptions, the signaling-state
    checks of [setRemoteDescription] and the checks [addIceCandidate]
    makes of a candidate (its dictionary, media, username fragment and
    line, from the class [Rtc]) are modelled.  The hardened copy of
    the token routes (index.js lines 263-312) behaves as part_001's,
    which [TokenStore] models.  The click handlers' [await]s on the
    WebRTC stack ([createOffer], [setLocalDescription], the ICE wait)
    are interleaving points only in [Clicks], for the Create button;
    the scan, connect and auto-token handlers run to completion.
    [JSON.stringify] is an interface with laws, not a faithful
    printer. *)

From stdpp Require Export base list gmap strings.
From Stdlib Require Export Lia.
From Stdlib Require Import Init.Byte ZArith Zify.

Declare Scope sendu_scope.
Delimit Scope sendu_scope with sendu.

Create HintDb sendu discriminated.
Create Rewrite HintDb sendu_rw.

(** ** JavaScript exceptions

    The exceptions the modelled code can raise: [TypeError] (property
    access on [null] or [undefined]), [SyntaxError] ([JSON.parse] on text
    that is not JSON), [InvalidStateError] (a [FileReader] asked to read
    while it is busy, a [WebSocket] sending while it connects, a peer
    connection in the wrong signaling state), [OperationError] (an ICE
    candidate refused by [addIceCandidate]) and [PlainError] (a plain
    [throw new Error(...)] of the client). *)
Inductive exn : Type :=
| TypeError
| SyntaxError
| InvalidStateError
| OperationError
| PlainError.

#[export] Instance exn_eq_dec : EqDecision exn.
Proof. solve_decision. Defined.

(** A computation of the source that may throw: [inl e] is a thrown
    exception, [inr x] a normal completion. *)
Abbreviation throws A := (exn + A)%type.

Notation "'let!' x := c 'in' k" :=
  (match c with inl e => inl e | inr x => k end)
  (at level 10, x name, c at level 100, k at level 200) : sendu_scope.

Open Scope sendu_scope.

(** Bytes of files and of binary data-channel messages. *)
#[export] Instance byte_eq_dec : EqDecision byte := Byte.byte_eq_dec.

(** ** Tactics *)

Ltac invc H := inversion H; subst; clear H.

(** Split the [if] and [match] of a handler body on their conditions. *)
Ltac case_handler :=
  repeat (simpl in *; first [case_decide | case_match]); simplify_eq.

(** Arithmetic with division and remainder by constants ([lia] alone
    does not reason about [/] and [mod]). *)
Ltac div_lia := zify; Z.to_euclidean_division_equations; nia.

(** ** Generic list lemmas *)

Section ListFacts.
Context {A : Type} `{EqDecision A}.

Lemma filter_all (P : A -> Prop) `{!∀ x, Decision (P x)} (l : list A) :
  Forall P l -> filter P l = l.
Proof.
  induction 1 as [|y l Hy _ IH]; [done|].
  rewrite filter_cons, decide_True by done. by rewrite IH.
Qed.

Lemma Forall_filter_sub (P Q : A -> Prop) `{!∀ x, Decision (P x)} (l : list A) :
  Forall Q l -> Forall Q (filter P l).
Proof.
  rewrite !Forall_forall. intros HQ x Hx. apply HQ.
  by apply list_elem_of_filter in Hx as [_ ?].
Qed.

Lemma list_filter_ext_elem (P Q : A -> Prop) `{!∀ x, Decision (P x)}
    `{!∀ x, Decision (Q x)} (l : list A) :
  (∀ x, x ∈ l -> P x <-> Q x) -> filter P l = filter Q l.
Proof.
  induction l as [|y l IH]; intros Hext; [done|]. rewrite !filter_cons.
  rewrite IH by set_solver. destruct (decide (P y)), (decide (Q y)); set_solver.
Qed.

(** Removing one element that occurs once in a duplicate-free list drops
    the length by exactly one. *)
Lemma length_filter_neq (l : list A) (x : A) :
  NoDup l -> x ∈ l -> length (filter (λ y, y ≠ x) l) = length l - 1.
Proof.
  induction l as [|y l IH]; intros Hnd Hin; [set_solver|].
  apply NoDup_cons in Hnd as [Hy Hnd].
  rewrite filter_cons. apply elem_of_cons in Hin as [->|Hin].
  - rewrite decide_False by auto. rewrite filter_all; simpl; [lia|].
    apply Forall_forall. intros z Hz ->. done.
  - rewrite decide_True by (intros ->; done). simpl.
    rewrite IH by done. destruct l; [set_solver|]. simpl. lia.
Qed.

Lemma filter_neq_not_elem (l : list A) (x : A) :
  x ∉ filter (λ y, y ≠ x) l.
Proof. rewrite list_elem_of_filter. intros [Hx _]. done. Qed.

(** The summed lengths of a list of chunks is the length of their
    concatenation. *)
(** A duplicate-free list, filtered and mapped, splits around the image
    of one element that passes the filter. *)
Lemma fmap_filter_split {B} (f : A -> B) (P : A -> Prop) `{!∀ x, Decision (P x)} l d :
  NoDup l -> d ∈ l -> P d ->
  ∃ l1 l2, f <$> filter P l = (f <$> l1) ++ f d :: (f <$> l2) ∧ d ∉ l1 ∧ d ∉ l2.
Proof.
  intros Hnd Hd HP.
  assert (d ∈ filter P l) as Hf by (by apply list_elem_of_filter).
  apply list_elem_of_split in Hf as (l1 & l2 & Hl).
  pose proof (NoDup_filter P _ Hnd) as Hnd'. rewrite Hl in Hnd'.
  apply NoDup_app in Hnd' as (_ & Hdis & Hnd2). apply NoDup_cons in Hnd2 as [Hl2 _].
  exists l1, l2. rewrite Hl, fmap_app. split_and!; [done| |done].
  intros Hl1. apply (Hdis d Hl1). set_solver.
Qed.

Lemma sum_list_with_delete (f : A -> nat) (l : list A) i x :
  l !! i = Some x -> sum_list_with f (delete i l) + f x = sum_list_with f l.
Proof.
  revert i. induction l as [|y l IH]; intros [|i] Hi; simplify_eq/=; [lia|].
  rewrite <-(IH i Hi). lia.
Qed.

Lemma sum_list_length_concat (ls : list (list A)) :
  sum_list_with length ls = length (concat ls).
Proof. induction ls; simpl; rewrite ?length_app; auto. Qed.
End ListFacts.

#[export] Hint Resolve filter_neq_not_elem : sendu.
#[export] Hint Rewrite @sum_list_length_concat : sendu_rw.

(** Two members of a list with distinct images under [f] are equal when
    their images are. *)
Lemma NoDup_fmap_in_inj {A B} (f : A -> B) (l : list A) x y :
  NoDup (f <$> l) -> x ∈ l -> y ∈ l -> f x = f y -> x = y.
Proof.
  induction l as [|z l IH]; intros Hnd Hx Hy Hf; [set_solver|].
  simpl in Hnd. apply NoDup_cons in Hnd as [Hz Hnd].
  apply elem_of_cons in Hx as [->|Hx]; apply elem_of_cons in Hy as [->|Hy]; auto.
  - exfalso. apply Hz, list_elem_of_fmap. eauto.
  - exfalso. apply Hz, list_elem_of_fmap. eauto.
Qed.

(** ** Maps *)

(** Deleting a list of keys one after the other. *)
Lemma foldl_delete_lookup {V} (ks : list string) (m : gmap string V) k :
  foldl (λ m k, delete k m) m ks !! k = if decide (k ∈ ks) then None else m !! k.
Proof.
  revert m. induction ks as [|k' ks IH]; intros m; simpl; [done|].
  rewrite IH. destruct (decide (k = k')) as [->|Hne].
  - rewrite lookup_delete_eq. by repeat case_decide; set_solver.
  - rewrite lookup_delete_ne by done. repeat case_decide; set_solver.
Qed.

(** ** Strings *)

Lemma str_app_cons c (s1 s2 : string) :
  String.append (String c s1) s2 = String c (String.append s1 s2).
Proof. reflexivity. Qed.

Lemma str_app_nil (s : string) : String.append EmptyString s = s.
Proof. reflexivity. Qed.

Lemma str_app_nil_r (s : string) : String.append s EmptyString = s.
Proof. induction s as [|c s IH]; rewrite ?str_app_cons; [done|by rewrite IH]. Qed.

Lemma str_app_assoc (s1 s2 s3 : string) :
  String.append s1 (String.append s2 s3) = String.append (String.append s1 s2) s3.
Proof. induction s1 as [|c s1 IH]; rewrite ?str_app_cons; [done|by rewrite IH]. Qed.

Lemma str_length_app (s1 s2 : string) :
  String.length (String.append s1 s2) = String.length s1 + String.length s2.
Proof. induction s1 as [|c s1 IH]; rewrite ?str_app_cons; simpl; auto. Qed.

Lemma str_list_app (s1 s2 : string) :
  String.list_ascii_of_string (String.append s1 s2) =
    String.list_ascii_of_string s1 ++ String.list_ascii_of_string s2.
Proof. induction s1 as [|c s1 IH]; rewrite ?str_app_cons; simpl; [done|by rewrite IH]. Qed.

#[export] Hint Rewrite str_app_cons str_app_nil str_length_app : sendu_rw.
