(* ===== verification/Json.v ===== *)
(** * JavaScript values on the wire

    The values that the modelled code reads from request bodies, from
    WebSocket and data-channel messages and from [JSON.parse]: [jvalue].
    Truthiness ([truthy]) is the JavaScript [!x] test the handlers use as
    their guards; [get] is property access [v.k], which throws [TypeError]
    on [null] and yields [undefined] ([None]) for a missing key.

    [JSON.parse] and [JSON.stringify] are builtins, not code of the
    repository: the class [JsonCodec] states the laws the code relies on
    (a printed well-formed value parses back to itself; an HTML page is
    not JSON; an object is printed between braces), and [codec] is a
    concrete instance that satisfies them, so
    that every theorem stated over [JsonCodec] can be applied to concrete
    messages. *)

From S2P Require Import Prelude.
From Stdlib Require Import Ascii.

(** ** Values *)

Local Set Warnings "-register-all".

(** JSON values.  Numbers are the integer ones: the code only sends file
    sizes and never inspects other numbers.  An object keeps its fields in
    source order. *)
Inductive jvalue : Type :=
| JNull
| JBool (b : bool)
| JNum (n : Z)
| JStr (s : string)
| JArr (xs : list jvalue)
| JObj (fields : list (string * jvalue)).

(** JavaScript truthiness ([!!v]); [undefined] is [None]. *)
Definition truthy (v : jvalue) : bool :=
  match v with
  | JNull => false
  | JBool b => b
  | JNum n => negb (Z.eqb n 0)
  | JStr s => negb (String.eqb s "")
  | JArr _ | JObj _ => true
  end.

Definition truthy_opt (o : option jvalue) : bool :=
  match o with None => false | Some v => truthy v end.

(** The value of [x] when it passes the guard [if (!x) return ...]. *)
Definition truthy_value (o : option jvalue) : option jvalue :=
  match o with Some v => if truthy v then Some v else None | None => None end.

Lemma truthy_value_Some o v :
  truthy_value o = Some v <-> o = Some v ∧ truthy v = true.
Proof.
  destruct o as [w|]; simpl; [destruct (truthy w) eqn:E|];
    split; intros H; destruct_and?; simplify_eq; auto; congruence.
Qed.

Lemma truthy_value_None o :
  truthy_value o = None <-> ∀ v, o = Some v -> truthy v = false.
Proof.
  destruct o as [w|]; simpl; [destruct (truthy w) eqn:E|];
    split; intros H; intros; simplify_eq; auto; try congruence.
  by rewrite (H w) in E.
Qed.

(** Field lookup in a parsed object: with duplicate keys the last one
    wins, as in [JSON.parse]. *)
Definition obj_lookup (k : string) (fs : list (string * jvalue)) : option jvalue :=
  foldl (λ acc kv, if String.eqb k kv.1 then Some kv.2 else acc) None fs.

(** Property access [v.k]. *)
Definition get (v : jvalue) (k : string) : throws (option jvalue) :=
  match v with
  | JNull => inl TypeError
  | JObj fs => inr (obj_lookup k fs)
  | _ => inr None
  end.

(** Property access on a possibly [undefined] value. *)
Definition get_opt (o : option jvalue) (k : string) : throws (option jvalue) :=
  match o with None => inl TypeError | Some v => get v k end.

(** Strict equality with a string literal: [x === "lit"]. *)
Definition is_str (o : option jvalue) (lit : string) : bool :=
  match o with Some (JStr s) => String.eqb s lit | _ => false end.

(** An object literal of the code, [{k1: v1, ...}]: a field whose value is
    [undefined] is left out, as [JSON.stringify] does. *)
Definition obj (fs : list (string * option jvalue)) : jvalue :=
  JObj (omap (λ kv, (λ v, (kv.1, v)) <$> kv.2) fs).

(** Objects without duplicate keys, the values [JSON.stringify] and
    [JSON.parse] agree on. *)
Fixpoint wf (v : jvalue) : bool :=
  match v with
  | JArr xs => forallb wf xs
  | JObj fs =>
      bool_decide (NoDup fs.*1) && forallb (λ kv, wf kv.2) fs
  | _ => true
  end.

Lemma obj2_some k1 k2 v1 v2 :
  obj [(k1, Some v1); (k2, Some v2)] = JObj [(k1, v1); (k2, v2)].
Proof. reflexivity. Qed.

Lemma wf_obj2 k1 k2 v1 v2 :
  k1 ≠ k2 -> wf (JObj [(k1, v1); (k2, v2)]) = wf v1 && wf v2.
Proof.
  intros Hne. simpl. rewrite bool_decide_true.
  - simpl. by rewrite andb_true_r.
  - repeat constructor; set_solver.
Qed.

(** JSON whitespace: space, tab, line feed, carriage return. *)
Definition json_ws (c : ascii) : bool :=
  match nat_of_ascii c with 32 | 9 | 10 | 13 => true | _ => false end.

Definition ws_only (s : string) : bool :=
  forallb json_ws (String.list_ascii_of_string s).

(** ** The JSON builtins *)

Class JsonCodec := {
  stringify : jvalue -> string;
  parse : string -> option jvalue;
  (** [JSON.parse(JSON.stringify(v))] gives [v] back. *)
  parse_stringify : ∀ v, wf v = true -> parse (stringify v) = Some v;
  (** Text whose first non-blank character is [<] (an HTML page) is not
      JSON: [JSON.parse] throws. *)
  parse_markup : ∀ ws s, ws_only ws = true -> parse (ws +:+ String "<" s) = None;
  (** An object is printed between braces. *)
  stringify_obj : ∀ fs, ∃ s, stringify (JObj fs) = String "{" (s +:+ "}");
  (** A URL ([http...]) is not JSON: [JSON.parse] throws. *)
  parse_url : ∀ s, parse ("http" +:+ s) = None
}.

(** ** A concrete codec

    A prefix encoding: one tag character per constructor, integers in
    binary, strings character by character, items of arrays and objects
    each introduced by a comma.  The decoder runs on fuel: every call
    consumes at least one character, so the length of the input is
    enough. *)

Section Codec.
Local Open Scope char_scope.

Fixpoint enc_pos (p : positive) : string :=
  match p with
  | xH => String "." EmptyString
  | xO p => String "0" (enc_pos p)
  | xI p => String "1" (enc_pos p)
  end.

Definition enc_Z (z : Z) : string :=
  match z with
  | Z0 => String "z" EmptyString
  | Zpos p => String "+" (enc_pos p)
  | Zneg p => String "-" (enc_pos p)
  end.

Fixpoint enc_str (s : string) : string :=
  match s with
  | EmptyString => String "." EmptyString
  | String c s => String ":" (String c (enc_str s))
  end.

Fixpoint enc (v : jvalue) : string :=
  match v with
  | JNull => String "n" EmptyString
  | JBool true => String "t" EmptyString
  | JBool false => String "f" EmptyString
  | JNum z => String "i" (enc_Z z)
  | JStr s => String "s" (enc_str s)
  | JArr xs =>
      String "[" ((fix go (xs : list jvalue) : string :=
        match xs with
        | [] => String "]" EmptyString
        | x :: xs => String "," (enc x +:+ go xs)
        end) xs)
  | JObj fs =>
      String "{" ((fix go (fs : list (string * jvalue)) : string :=
        match fs with
        | [] => String "}" EmptyString
        | (k, x) :: fs => String "," (enc_str k +:+ enc x +:+ go fs)
        end) fs)
  end.

Fixpoint enc_items (xs : list jvalue) : string :=
  match xs with
  | [] => String "]" EmptyString
  | x :: xs => String "," (enc x +:+ enc_items xs)
  end.

Fixpoint enc_fields (fs : list (string * jvalue)) : string :=
  match fs with
  | [] => String "}" EmptyString
  | (k, x) :: fs => String "," (enc_str k +:+ enc x +:+ enc_fields fs)
  end.

Lemma enc_arr xs : enc (JArr xs) = String "[" (enc_items xs).
Proof. reflexivity. Qed.

Lemma enc_obj fs : enc (JObj fs) = String "{" (enc_fields fs).
Proof. reflexivity. Qed.

Fixpoint dec_pos (s : string) : option (positive * string) :=
  match s with
  | String "." r => Some (xH, r)
  | String "0" r => '(p, r') ← dec_pos r; Some (xO p, r')
  | String "1" r => '(p, r') ← dec_pos r; Some (xI p, r')
  | _ => None
  end.

Definition dec_Z (s : string) : option (Z * string) :=
  match s with
  | String "z" r => Some (Z0, r)
  | String "+" r => '(p, r') ← dec_pos r; Some (Zpos p, r')
  | String "-" r => '(p, r') ← dec_pos r; Some (Zneg p, r')
  | _ => None
  end.

Fixpoint dec_str (s : string) : option (string * string) :=
  match s with
  | String "." r => Some (EmptyString, r)
  | String ":" (String c r) => '(t, r') ← dec_str r; Some (String c t, r')
  | _ => None
  end.

Fixpoint dec (n : nat) (s : string) : option (jvalue * string) :=
  match n with
  | 0 => None
  | S n =>
      match s with
      | String "n" r => Some (JNull, r)
      | String "t" r => Some (JBool true, r)
      | String "f" r => Some (JBool false, r)
      | String "i" r => '(z, r') ← dec_Z r; Some (JNum z, r')
      | String "s" r => '(t, r') ← dec_str r; Some (JStr t, r')
      | String "[" r => '(xs, r') ← dec_items n r; Some (JArr xs, r')
      | String "{" r => '(fs, r') ← dec_fields n r; Some (JObj fs, r')
      | _ => None
      end
  end
with dec_items (n : nat) (s : string) : option (list jvalue * string) :=
  match n with
  | 0 => None
  | S n =>
      match s with
      | String "]" r => Some ([], r)
      | String "," r =>
          '(x, r1) ← dec n r; '(xs, r2) ← dec_items n r1; Some (x :: xs, r2)
      | _ => None
      end
  end
with dec_fields (n : nat) (s : string) : option (list (string * jvalue) * string) :=
  match n with
  | 0 => None
  | S n =>
      match s with
      | String "}" r => Some ([], r)
      | String "," r =>
          '(k, r1) ← dec_str r; '(x, r2) ← dec n r1;
          '(fs, r3) ← dec_fields n r2; Some ((k, x) :: fs, r3)
      | _ => None
      end
  end.

Definition codec_parse (s : string) : option jvalue :=
  match dec (S (String.length s)) s with
  | Some (v, EmptyString) => Some v
  | _ => None
  end.
End Codec.

(** ** The concrete codec satisfies the laws *)

Section CodecLaws.
Local Open Scope char_scope.

Lemma dec_pos_enc p r : dec_pos (enc_pos p +:+ r) = Some (p, r).
Proof. induction p; simpl; rewrite ?str_app_cons; simpl; rewrite ?IHp; done. Qed.

Lemma dec_Z_enc z r : dec_Z (enc_Z z +:+ r) = Some (z, r).
Proof. destruct z; simpl; rewrite ?str_app_cons; simpl; rewrite ?dec_pos_enc; done. Qed.

Lemma dec_str_enc t r : dec_str (enc_str t +:+ r) = Some (t, r).
Proof. induction t; simpl; rewrite ?str_app_cons; simpl; rewrite ?IHt; done. Qed.

Lemma enc_items_length xs : 1 <= String.length (enc_items xs).
Proof. destruct xs; simpl; lia. Qed.

Lemma enc_fields_length fs : 1 <= String.length (enc_fields fs).
Proof. destruct fs as [|[]]; simpl; lia. Qed.

(** The decoder inverts the encoder as soon as the fuel exceeds the
    length of the encoding; proved for values, items and fields at once
    by induction on the fuel. *)
Lemma dec_enc_fuel n :
  (∀ v r, String.length (enc v) < n -> dec n (enc v +:+ r) = Some (v, r)) ∧
  (∀ xs r, String.length (enc_items xs) < n ->
     dec_items n (enc_items xs +:+ r) = Some (xs, r)) ∧
  (∀ fs r, String.length (enc_fields fs) < n ->
     dec_fields n (enc_fields fs +:+ r) = Some (fs, r)).
Proof.
  induction n as [|n (IHv & IHi & IHf)]; [split_and!; intros; lia|].
  split_and!.
  - intros [| [] | z | t | xs | fs] r Hlen;
      rewrite ?enc_arr, ?enc_obj in *; simpl in *; rewrite ?str_app_cons; simpl;
      rewrite ?dec_Z_enc, ?dec_str_enc; try done.
    + pose proof (IHi xs r ltac:(lia)) as E. rewrite E. done.
    + pose proof (IHf fs r ltac:(lia)) as E. rewrite E. done.
  - intros [|x xs] r Hlen; simpl in *; rewrite ?str_app_cons; simpl; [done|].
    pose proof (enc_items_length xs). autorewrite with sendu_rw in Hlen.
    rewrite <-str_app_assoc, (IHv x (enc_items xs +:+ r)) by lia.
    pose proof (IHi xs r ltac:(lia)) as E. simpl. rewrite E. done.
  - intros [|[k x] fs] r Hlen; simpl in *; rewrite ?str_app_cons; simpl; [done|].
    pose proof (enc_fields_length fs). autorewrite with sendu_rw in Hlen.
    rewrite <-!str_app_assoc, dec_str_enc. simpl.
    rewrite (IHv x (enc_fields fs +:+ r)) by lia.
    pose proof (IHf fs r ltac:(lia)) as E. simpl. rewrite E. done.
Qed.

Lemma codec_parse_enc v : codec_parse (enc v) = Some v.
Proof.
  unfold codec_parse.
  rewrite <-(str_app_nil_r (enc v)) at 2.
  rewrite (proj1 (dec_enc_fuel _)); [done|lia].
Qed.
Lemma codec_parse_markup ws s :
  ws_only ws = true -> codec_parse (ws +:+ String "<" s) = None.
Proof.
  destruct ws as [|c ws]; intros Hws; unfold codec_parse;
    rewrite ?str_app_cons, ?str_app_nil; [done|].
  apply andb_prop in Hws as [Hc _].
  destruct c as [[] [] [] [] [] [] [] []]; first [discriminate | reflexivity].
Qed.

Lemma enc_fields_close fs : ∃ s, enc_fields fs = s +:+ "}".
Proof.
  induction fs as [|[k x] fs [s IH]]; [by exists EmptyString|].
  exists (String "," (enc_str k +:+ enc x +:+ s)). simpl. rewrite IH, str_app_cons.
  f_equal. by rewrite !str_app_assoc.
Qed.

Lemma enc_obj_braces fs : ∃ s, enc (JObj fs) = String "{" (s +:+ "}").
Proof. rewrite enc_obj. destruct (enc_fields_close fs) as [s ->]. by exists s. Qed.
End CodecLaws.

Definition codec : JsonCodec := {|
  stringify := enc;
  parse := codec_parse;
  parse_stringify := λ v _, codec_parse_enc v;
  parse_markup := codec_parse_markup;
  stringify_obj := enc_obj_braces;
  parse_url := λ s, eq_refl
|}.
