(* ===== verification/Files.v ===== *)
(** * The upload, download and page routes

    The three Express servers that sit beside the signaling code: the
    first of [src/index.js] (lines 1-114: home page, upload, file page,
    download and a debug route, besides [/signal]), the older one of
    index.js lines 115-172 (home page and upload) and the copy of
    [src/unnamed/part_000] lines 322-432 (home, upload, file page,
    download).  A [POST /uploadfile] stores the form's [file] field under
    [public/uploads] with the name [fieldname-<Date.now()><extname>] and
    answers its name; a [GET /download?path=p] sends the file
    [path.join(__dirname, p)].

    Node's [path.join] and [path.extname] are translated from their
    definitions in Node's [path] module (POSIX): the segments are
    split at [/], [.] and empty segments are dropped, [..] removes the
    previous segment (and stays above the root of a relative path only).
    multer's outcome is an input of the handlers (not multipart, an
    error, or the stored file, [None] when the form has no [file]
    field), and so are the clock and [existsSync], whether a file can
    be sent from a path.  A handler answers with a status and a JSON
    body, sends a file, sends nothing, or throws; a throw from busboy's
    event is caught by nothing: the process exits and [serve_all]
    refuses every later request.  Views are rendered by name with their
    locals; the templates are not part of the sources. *)

From S2P Require Import Prelude Json.
From stdpp Require Import pretty.
From Stdlib Require Import Ascii.

Module Files.

(** ** Paths *)

Definition slash : ascii := "/"%char.
Definition dot : list ascii := ["."%char].
Definition dotdot : list ascii := ["."%char; "."%char].

(** [path.split('/')] on characters. *)
Fixpoint segs (l : list ascii) : list (list ascii) :=
  match l with
  | [] => [[]]
  | c :: l' =>
      if decide (c = slash) then [] :: segs l'
      else match segs l' with s :: ss => (c :: s) :: ss | [] => [[c]] end
  end.

(** One segment of [normalizeString(path, allowAboveRoot)]; the result
    so far is kept last segment first. *)
Definition norm_seg (above : bool) (acc : list (list ascii)) (s : list ascii) : list (list ascii) :=
  if decide (s = []) then acc
  else if decide (s = dot) then acc
  else if decide (s = dotdot) then
    match acc with
    | x :: acc' => if decide (x = dotdot) then (if above then dotdot :: acc else acc) else acc'
    | [] => if above then [dotdot] else []
    end
  else s :: acc.

Fixpoint join_segs (ss : list (list ascii)) : list ascii :=
  match ss with
  | [] => []
  | [s] => s
  | s :: ss' => s ++ slash :: join_segs ss'
  end.

(** [path.normalize(p)]. *)
Definition normalize (p : string) : string :=
  let l := String.list_ascii_of_string p in
  match l with
  | [] => "."
  | c0 :: _ =>
      let abs := bool_decide (c0 = slash) in
      let trailing := bool_decide (last l = Some slash) in
      match join_segs (rev (foldl (norm_seg (negb abs)) [] (segs l))) with
      | [] => if abs then "/" else if trailing then "./" else "."
      | r => String.string_of_list_ascii
               ((if abs then [slash] else []) ++ r ++ (if trailing then [slash] else []))
      end
  end.

(** [path.join(a, b)]: the non-empty arguments joined by [/], then
    normalized. *)
Definition path_join (a b : string) : string :=
  match a, b with
  | EmptyString, EmptyString => "."
  | EmptyString, _ => normalize b
  | _, EmptyString => normalize a
  | _, _ => normalize (a +:+ "/" +:+ b)
  end.

(** The last [.] of a name and what follows it. *)
Fixpoint split_last_dot (l : list ascii) : option (list ascii * list ascii) :=
  match l with
  | [] => None
  | c :: l' =>
      match split_last_dot l' with
      | Some (p, e) => Some (c :: p, e)
      | None => if decide (c = "."%char) then Some ([], l') else None
      end
  end.

(** [path.extname(name)] of a file name without [/]: from the last [.]
    on, unless that dot starts the name or the name is [..]. *)
Definition extname (name : string) : string :=
  match split_last_dot (String.list_ascii_of_string name) with
  | None => ""
  | Some (p, e) =>
      if decide (p = []) then ""
      else if decide (p = dot ∧ e = []) then ""
      else String "." (String.string_of_list_ascii e)
  end.

(** ** Uploads *)

(** The fields of multer's [file] the code reads. *)
Record ufile := mkUFile { fieldname : string; originalname : string }.

(** multer's [diskStorage] [destination] (index.js lines 21-23). *)
Definition destination : string := "public/uploads".

(** The [filename] callback (index.js lines 24-29) at time [now]. *)
Definition disk_filename (f : ufile) (now : N) : string :=
  fieldname f +:+ "-" +:+ pretty now +:+ extname (originalname f).

(** [req.file.path]: the destination joined with the name. *)
Definition file_path (f : ufile) (now : N) : string := path_join destination (disk_filename f now).

(** What [upload(req, res, cb)] passes to the callback.  A request that
    is not [multipart/form-data] is handed on at once, inside the route
    handler, with no error and no [req.file]; a multipart request is
    answered from busboy's events, after the route handler has returned:
    with an error, or with the stored file ([None] when the form has no
    [file] field). *)
Inductive multer_out := MNotMultipart | MError | MDone (file : option ufile).

(** What the route sends: a status and a JSON body, nothing at all (the
    request hangs), Express's error page for an exception thrown inside
    the route handler, or an exception thrown from busboy's event, which
    nothing catches. *)
Inductive uresp :=
| UJson (status : N) (body : jvalue)
| UNothing
| UCaught (e : exn)
| UCrash (e : exn).

(** The callback's [else] branch, reading [req.file.path] and then
    [req.file.filename] (or [.path]): without a file the first read
    throws [TypeError], inside the handler when multer called back at
    once, from busboy's event otherwise. *)
Definition on_stored (sync : bool) (answer : ufile -> string) (file : option ufile) : uresp :=
  match file with
  | None => if sync then UCaught TypeError else UCrash TypeError
  | Some f => UJson 200 (JObj [("path", JStr (answer f))])
  end.

(** [POST /uploadfile] of index.js lines 42-54: an error is answered
    with 500. *)
Definition post_uploadfile (m : multer_out) (now : N) : uresp :=
  match m with
  | MNotMultipart => on_stored true (λ f, disk_filename f now) None
  | MError => UJson 500 (JObj [("error", JStr "upload failed")])
  | MDone file => on_stored false (λ f, disk_filename f now) file
  end.

(** The copy of part_000 lines 363-374: an error is only logged. *)
Definition post_uploadfile_quiet (m : multer_out) (now : N) : uresp :=
  match m with
  | MNotMultipart => on_stored true (λ f, disk_filename f now) None
  | MError => UNothing
  | MDone file => on_stored false (λ f, disk_filename f now) file
  end.

(** The older server of index.js lines 154-165: it answers the stored
    path, [public/uploads/<name>]. *)
Definition post_uploadfile_old (m : multer_out) (now : N) : uresp :=
  match m with
  | MNotMultipart => on_stored true (λ f, file_path f now) None
  | MError => UNothing
  | MDone file => on_stored false (λ f, file_path f now) file
  end.

(** ** Downloads *)

Inductive dresp :=
| DFile (path : string)
| DSendError (path : string)
| DStatus500
| DSendFile (path : string)
| DNotFound (body : string).

(** [GET /download] (index.js lines 91-100): [path.join] throws on a
    missing [path] parameter, which Express answers with 500;
    [res.download] sends the file, or its callback sends the [ENOENT]
    error, whose [path] field is the full path. *)
Definition download (dirname : string) (existsSync : string -> bool) (pathoutput : option string) : dresp :=
  match pathoutput with
  | None => DStatus500
  | Some q =>
      let fullPath := path_join dirname q in
      if existsSync fullPath then DFile fullPath else DSendError fullPath
  end.

(** [GET /debug-screenshot] (index.js lines 103-108): a fixed local
    file, sent if it exists. *)
Definition debug_localPath : string := "/mnt/data/Screenshot 2025-11-20 231528.png".

Definition debug_screenshot (existsSync : string -> bool) : dresp :=
  if negb (existsSync debug_localPath) then DNotFound "debug file not found"
  else DSendFile debug_localPath.

(** ** The three servers *)

(** The requests of these routes; [/signal] is the store of
    [SignalStore.v], and requests the static middleware answers from
    [public] never reach the routes. *)
Inductive request :=
| RHome
| RFiles (id : string)
| RUpload (m : multer_out) (now : N)
| RDownload (q : option string)
| RDebug.

(** A rendered view with its locals, an upload or download answer,
    Express's 404 for a route the app does not have, and a request
    refused because the process has exited. *)
Inductive answer :=
| ARender (view : string) (locals : list (string * jvalue))
| AUpload (r : uresp)
| ADownload (r : dresp)
| ANoRoute
| ARefused.

(** [GET /files/:id] (index.js lines 86-89). *)
Definition get_files (id : string) : answer := ARender "displayfile" [("path", JStr id)].

(** The routes of index.js lines 38-108. *)
Definition app_index (dirname : string) (existsSync : string -> bool) (r : request) : answer :=
  match r with
  | RHome => ARender "index" []
  | RUpload m now => AUpload (post_uploadfile m now)
  | RFiles id => get_files id
  | RDownload q => ADownload (download dirname existsSync q)
  | RDebug => ADownload (debug_screenshot existsSync)
  end.

(** The older server of index.js lines 150-165: home and upload only. *)
Definition app_old (r : request) : answer :=
  match r with
  | RHome => ARender "index" []
  | RUpload m now => AUpload (post_uploadfile_old m now)
  | _ => ANoRoute
  end.

(** The server of part_000 lines 359-424. *)
Definition app_part (dirname : string) (existsSync : string -> bool) (r : request) : answer :=
  match r with
  | RHome => ARender "index" []
  | RUpload m now => AUpload (post_uploadfile_quiet m now)
  | RFiles id => get_files id
  | RDownload q => ADownload (download dirname existsSync q)
  | RDebug => ANoRoute
  end.

(** An exception thrown outside Express's reach ends the process (none
    of these servers has an [uncaughtException] hook). *)
Definition kills (a : answer) : bool :=
  match a with AUpload (UCrash _) => true | _ => false end.

Section Server.
Variable app : request -> answer.

(** The process serves its requests in order until one kills it; every
    later request is refused. *)
Fixpoint serve_all (alive : bool) (rs : list request) : list answer :=
  match rs with
  | [] => []
  | r :: rs' =>
      if alive then let a := app r in a :: serve_all (negb (kills a)) rs'
      else ARefused :: serve_all false rs'
  end.
End Server.

(** ** Lemmas on paths *)

(** A segment that [normalize] keeps as it is. *)
Definition plain_seg (s : list ascii) : Prop := s ≠ [] ∧ s ≠ dot ∧ s ≠ dotdot ∧ slash ∉ s.

Definition plain_segb (d : string) : bool := bool_decide (plain_seg (String.list_ascii_of_string d)).

(** The absolute path [/d1/.../dn] and the relative path [d1/.../dn]. *)
Definition abs_path (ds : list string) : string :=
  String.string_of_list_ascii (slash :: join_segs (String.list_ascii_of_string <$> ds)).
Definition rel_path (ds : list string) : string :=
  String.string_of_list_ascii (join_segs (String.list_ascii_of_string <$> ds)).

(** [../] repeated [n] times. *)
Definition up (n : nat) : string := String.string_of_list_ascii (concat (repeat (dotdot ++ [slash]) n)).

Lemma segs_cons l : ∃ s ss, segs l = s :: ss.
Proof.
  induction l as [|c l (s & ss & IH)]; simpl; [eauto|].
  case_decide; [eauto|]. rewrite IH. eauto.
Qed.

Lemma segs_app_slash a b : segs (a ++ slash :: b) = segs a ++ segs b.
Proof.
  induction a as [|c a IH]; simpl; [done|].
  case_decide; [by rewrite IH|]. rewrite IH.
  destruct (segs_cons a) as (s & ss & ->). done.
Qed.

Lemma segs_noslash s : slash ∉ s -> segs s = [s].
Proof.
  induction s as [|c s IH]; intros Hs; [done|]. simpl.
  rewrite decide_False by set_solver. rewrite IH by set_solver. done.
Qed.

Lemma segs_join_app L m :
  Forall (λ s, slash ∉ s) L -> L ≠ [] -> segs (join_segs L ++ slash :: m) = L ++ segs m.
Proof.
  induction 1 as [|s L Hs HL IH]; [done|]. intros _.
  destruct L as [|t L]; [by rewrite segs_app_slash, segs_noslash|].
  change (join_segs (s :: t :: L)) with (s ++ slash :: join_segs (t :: L)).
  rewrite <-app_assoc, <-app_comm_cons, segs_app_slash, segs_noslash, IH by done. done.
Qed.

Lemma segs_join L : Forall (λ s, slash ∉ s) L -> L ≠ [] -> segs (join_segs L) = L.
Proof.
  induction 1 as [|s L Hs HL IH]; [done|]. intros _.
  destruct L as [|t L]; [by apply segs_noslash|].
  change (join_segs (s :: t :: L)) with (s ++ slash :: join_segs (t :: L)).
  rewrite segs_app_slash, segs_noslash, IH by done. done.
Qed.

Lemma segs_up n m : segs (concat (repeat (dotdot ++ [slash]) n) ++ m) = repeat dotdot n ++ segs m.
Proof.
  induction n as [|n IH]; [done|]. cbn [repeat concat]. rewrite <-!app_assoc. cbn [app].
  rewrite segs_app_slash, IH. reflexivity.
Qed.

Lemma norm_push b acc L :
  Forall plain_seg L -> foldl (norm_seg b) acc L = rev L ++ acc.
Proof.
  revert acc. induction L as [|s L IH]; intros acc HL; [done|].
  apply Forall_cons in HL as [(H1 & H2 & H3 & _) HL]. simpl.
  unfold norm_seg at 2. rewrite !decide_False by done. rewrite IH by done.
  by rewrite <-app_assoc.
Qed.

Lemma norm_pop acc L :
  Forall plain_seg L -> foldl (norm_seg false) (rev L ++ acc) (repeat dotdot (length L)) = acc.
Proof.
  revert acc. induction L as [|s L IH] using rev_ind; intros acc HL; [done|].
  apply Forall_app in HL as [HL Hs]. apply Forall_singleton in Hs as (_ & _ & Hs & _).
  rewrite rev_app_distr, length_app, Nat.add_1_r. simpl.
  unfold norm_seg at 2. rewrite decide_False, decide_False, decide_True by done.
  rewrite decide_False by done. by apply IH.
Qed.

Lemma join_last T :
  Forall plain_seg T -> T ≠ [] -> ∃ c, last (join_segs T) = Some c ∧ c ≠ slash.
Proof.
  induction 1 as [|s T Hs HT IH]; [done|]. intros _.
  destruct T as [|t T].
  - simpl. destruct Hs as (Hne & _ & _ & Hsl). destruct (last s) as [c|] eqn:Hl.
    + exists c. split; [done|]. intros ->. by apply Hsl, last_Some_elem_of.
    + by apply last_None in Hl.
  - change (join_segs (s :: t :: T)) with (s ++ slash :: join_segs (t :: T)).
    rewrite last_app_cons, last_cons. destruct IH as (c & -> & Hc); [done|]. eauto.
Qed.

Lemma join_nonempty T : Forall plain_seg T -> T ≠ [] -> join_segs T ≠ [].
Proof. intros HT Hne Hj. destruct (join_last T HT Hne) as (c & Hc & _). by rewrite Hj in Hc. Qed.

Lemma segs_slash x : segs (slash :: x) = [] :: segs x.
Proof. reflexivity. Qed.

Lemma path_join_both a b : a ≠ "" -> b ≠ "" -> path_join a b = normalize (a +:+ "/" +:+ b).
Proof. destruct a, b; done. Qed.

(** An absolute path whose segments normalize to [T]. *)
Lemma normalize_abs x T :
  foldl (norm_seg false) [] (segs (slash :: x)) = rev T -> join_segs T ≠ [] ->
  last (slash :: x) ≠ Some slash ->
  normalize (String.string_of_list_ascii (slash :: x)) =
    String.string_of_list_ascii (slash :: join_segs T).
Proof.
  intros Hf Hj Hl. unfold normalize. rewrite String.list_ascii_of_string_of_list_ascii.
  rewrite bool_decide_eq_true_2 by done. rewrite bool_decide_eq_false_2 by done.
  cbn [negb]. rewrite Hf, rev_involutive.
  destruct (join_segs T) as [|c r]; [done|]. by rewrite app_nil_r.
Qed.

Lemma list_up_rel n ts :
  String.list_ascii_of_string (up n +:+ rel_path ts) =
    concat (repeat (dotdot ++ [slash]) n) ++ join_segs (String.list_ascii_of_string <$> ts).
Proof. unfold up, rel_path. by rewrite str_list_app, !String.list_ascii_of_string_of_list_ascii. Qed.

Lemma plain_fmap ds :
  forallb plain_segb ds = true -> Forall plain_seg (String.list_ascii_of_string <$> ds).
Proof.
  intros H. apply Forall_fmap, Forall_forall. intros d Hd.
  apply list_elem_of_In, (proj1 (forallb_forall _ _) H), bool_decide_eq_true in Hd. done.
Qed.

Lemma plain_noslash L : Forall plain_seg L -> Forall (λ s, slash ∉ s) L.
Proof. intros HL. eapply Forall_impl; [exact HL|]. by intros s (_ & _ & _ & ?). Qed.

(** [path.join] of [/d1/.../dm/e1/.../en] and [../] repeated [n] times
    followed by [t1/.../tk]: the [..] climb back over the [ei]. *)
Lemma join_up ds es ts :
  ds ++ es ≠ [] -> forallb plain_segb (ds ++ es) = true -> ts ≠ [] -> forallb plain_segb ts = true ->
  path_join (abs_path (ds ++ es)) (up (length es) +:+ rel_path ts) = abs_path (ds ++ ts).
Proof.
  intros Hdn Hd Htn Ht. apply plain_fmap in Hd, Ht. rewrite fmap_app in Hd.
  apply Forall_app in Hd as [Hd He].
  set (L := String.list_ascii_of_string <$> ds) in *.
  set (E := String.list_ascii_of_string <$> es) in *.
  set (T := String.list_ascii_of_string <$> ts) in *.
  assert (T ≠ []) as HT by (subst T; by destruct ts).
  assert (length es = length E) as Hlen by (subst E; by rewrite length_fmap).
  set (R := concat (repeat (dotdot ++ [slash]) (length es))).
  rewrite path_join_both; [|done|].
  2:{ intros Hb. apply (f_equal String.list_ascii_of_string) in Hb. rewrite list_up_rel in Hb.
      apply app_eq_nil in Hb as [_ Hb]. by apply (join_nonempty T). }
  assert (abs_path (ds ++ es) +:+ "/" +:+ (up (length es) +:+ rel_path ts) =
          String.string_of_list_ascii (slash :: (join_segs (L ++ E) ++ slash :: (R ++ join_segs T)))) as ->.
  { rewrite <-(String.string_of_list_ascii_of_string (abs_path _ +:+ _)). f_equal.
    rewrite 2!str_list_app, list_up_rel. unfold abs_path. rewrite fmap_app.
    rewrite String.list_ascii_of_string_of_list_ascii. simpl. by repeat rewrite <-app_assoc. }
  unfold abs_path. rewrite fmap_app. fold L T.
  destruct (join_last T) as (c & Hc & Hcs); [done..|].
  apply normalize_abs; [| |].
  - unfold R. rewrite segs_slash, segs_join_app, segs_up, segs_join;
      [|by apply plain_noslash|done|by apply plain_noslash, Forall_app|subst L E; by destruct ds, es].
    cbn [foldl]. replace (norm_seg false [] []) with (@nil (list ascii)) by reflexivity.
    rewrite foldl_app, (norm_push false [] (L ++ E)), app_nil_r, foldl_app, Hlen, rev_app_distr
      by (apply Forall_app; done).
    rewrite norm_pop, norm_push by done. by rewrite rev_app_distr.
  - destruct (join_segs (L ++ T)) eqn:Hj; [|done].
    apply join_nonempty in Hj; [done|by apply Forall_app|by destruct L].
  - replace (slash :: (join_segs (L ++ E) ++ slash :: (R ++ join_segs T)))
      with ((slash :: join_segs (L ++ E) ++ slash :: R) ++ join_segs T) by (simpl; by repeat rewrite <-app_assoc).
    rewrite last_app, Hc. congruence.
Qed.

(** Decimal digits have no [/]. *)
Lemma pretty_noslash (n : N) : slash ∉ String.list_ascii_of_string (pretty n).
Proof.
  assert (∀ x s, slash ∉ String.list_ascii_of_string s ->
            slash ∉ String.list_ascii_of_string (pretty_N_go x s)) as Hgo.
  { intros x. induction (N.lt_wf_0 x) as [x _ IH]. intros s Hs.
    destruct (decide (x = 0%N)) as [->|Hx]; [by rewrite pretty_N_go_0|].
    rewrite pretty_N_go_step by lia. apply IH; [apply N.div_lt; lia|].
    cbn [String.list_ascii_of_string]. apply not_elem_of_cons. split; [|done].
    unfold slash, pretty_N_char. repeat case_match; discriminate. }
  unfold pretty, pretty_N. case_decide; [|apply Hgo]; cbn; rewrite ?not_elem_of_cons; unfold slash;
    [split; [discriminate|]|]; apply not_elem_of_nil.
Qed.

Lemma split_last_dot_app l p e : split_last_dot l = Some (p, e) -> l = p ++ "."%char :: e.
Proof.
  revert p. induction l as [|c l IH]; intros p; simpl; [done|].
  destruct (split_last_dot l) as [[p' e']|].
  - intros [= <- ->]. by rewrite (IH p').
  - case_decide; [intros [= <- ->]; by subst|done].
Qed.

Lemma extname_noslash name :
  slash ∉ String.list_ascii_of_string name -> slash ∉ String.list_ascii_of_string (extname name).
Proof.
  intros Hn. unfold extname. destruct (split_last_dot _) as [[p e]|] eqn:Hs; [|cbn; set_solver].
  apply split_last_dot_app in Hs. rewrite Hs in Hn.
  repeat case_decide; cbn; [set_solver..|]. rewrite String.list_ascii_of_string_of_list_ascii.
  set_solver.
Qed.

(** The name multer gives a file of field [file] is one plain segment. *)
Lemma disk_filename_plain f now :
  fieldname f = "file" -> slash ∉ String.list_ascii_of_string (originalname f) ->
  plain_segb (disk_filename f now) = true.
Proof.
  intros Hf Ho. apply bool_decide_eq_true_2. unfold disk_filename. rewrite Hf, !str_list_app.
  pose proof (pretty_noslash now). pose proof (extname_noslash _ Ho).
  cbn [String.list_ascii_of_string app]. split_and!; [done..|].
  rewrite !elem_of_cons, !elem_of_app. unfold slash. intros [?|[?|[?|[?|[?|[?|?]]]]]]; done.
Qed.

(** A dead process refuses everything. *)
Lemma serve_dead app rs : serve_all app false rs = repeat ARefused (length rs).
Proof. induction rs as [|r rs IH]; simpl; by rewrite ?IH. Qed.

Lemma rel_path_uploads name :
  rel_path ["public"; "uploads"; name] = up 0 +:+ "public/uploads/" +:+ name.
Proof.
  unfold rel_path. cbn [fmap list_fmap join_segs up repeat concat].
  rewrite <-(String.string_of_list_ascii_of_string ("public/uploads/" +:+ name)), str_list_app.
  reflexivity.
Qed.

(** ** Properties *)

(** C5: path traversal in [GET /download].  The query is joined to
    [__dirname] unchecked: from a server directory [/d1/.../dn], the
    query [../] repeated [n] times followed by any relative path
    [t1/.../tk] names the absolute path [/t1/.../tk].  Any file of the
    machine the process can read is sent; for a missing one the error
    sent back carries that absolute path. *)
Theorem download_traversal ds ts existsSync :
  ds ≠ [] -> forallb plain_segb ds = true -> ts ≠ [] -> forallb plain_segb ts = true ->
  download (abs_path ds) existsSync (Some (up (length ds) +:+ rel_path ts)) =
    if existsSync (abs_path ts) then DFile (abs_path ts) else DSendError (abs_path ts).
Proof.
  intros. unfold download. pose proof (join_up [] ds ts) as J. rewrite !app_nil_l in J.
  by rewrite J.
Qed.

(** The file an upload stores is the file the download serves.  The
    first server answers a stored upload with its name
    [file-<now><ext>]; from the server directory [/d1/.../dn], a
    [GET /download?path=public/uploads/<name>] names the absolute path
    [/d1/.../dn/public/uploads/<name>], where multer put it when the
    server runs from its directory. *)
Theorem upload_download_roundtrip ds f now existsSync :
  ds ≠ [] -> forallb plain_segb ds = true -> fieldname f = "file" ->
  slash ∉ String.list_ascii_of_string (originalname f) ->
  app_index (abs_path ds) existsSync (RUpload (MDone (Some f)) now) =
    AUpload (UJson 200 (JObj [("path", JStr (disk_filename f now))])) ∧
  app_index (abs_path ds) existsSync (RDownload (Some ("public/uploads/" +:+ disk_filename f now))) =
    (let P := abs_path (ds ++ ["public"; "uploads"; disk_filename f now]) in
     ADownload (if existsSync P then DFile P else DSendError P)).
Proof.
  intros Hd Hp Hf Ho. split; [done|]. cbn [app_index download].
  replace ("public/uploads/" +:+ disk_filename f now)
    with (up (length (@nil string)) +:+ rel_path ["public"; "uploads"; disk_filename f now])
    by by rewrite rel_path_uploads.
  pose proof (join_up ds [] ["public"; "uploads"; disk_filename f now]) as J.
  rewrite !app_nil_r in J. rewrite J; [done..|]. cbn [forallb]. by rewrite disk_filename_plain.
Qed.

(** C26: an upload without a file kills the server.  On all three
    servers, a multipart [POST /uploadfile] whose form has no [file]
    field throws [TypeError] at [req.file.path] from busboy's event,
    which nothing catches: the process exits and every later request is
    refused.  The same request sent without multipart encoding throws
    inside the route handler, where Express answers it with its error
    page and goes on serving. *)
Theorem upload_without_file_kills dirname existsSync now rs :
  Forall (λ app,
    serve_all app true (RUpload (MDone None) now :: rs) =
      AUpload (UCrash TypeError) :: repeat ARefused (length rs) ∧
    serve_all app true (RUpload MNotMultipart now :: rs) =
      AUpload (UCaught TypeError) :: serve_all app true rs)
    [app_index dirname existsSync; app_old; app_part dirname existsSync].
Proof. repeat constructor; cbn [serve_all]; by rewrite ?serve_dead. Qed.

(** ** Witnesses *)

(** From [/app], [GET /download?path=../etc/passwd] sends [/etc/passwd]. *)
Lemma download_traversal_witness :
  download "/app" (λ p, bool_decide (p = "/etc/passwd")) (Some "../etc/passwd") = DFile "/etc/passwd".
Proof.
  change "/app" with (abs_path ["app"]). change "../etc/passwd" with (up 1 +:+ rel_path ["etc"; "passwd"]).
  change 1 with (length ["app"]).
  rewrite download_traversal by first [discriminate|reflexivity]. reflexivity.
Defined.

(** A [photo.png] uploaded at [1700000000000] to the server in
    [/srv/sendu] is answered [file-1700000000000.png] and downloaded from
    [/srv/sendu/public/uploads/file-1700000000000.png]. *)
Lemma upload_download_witness :
  app_index "/srv/sendu" (λ _, true) (RUpload (MDone (Some (mkUFile "file" "photo.png"))) 1700000000000) =
    AUpload (UJson 200 (JObj [("path", JStr "file-1700000000000.png")])) ∧
  app_index "/srv/sendu" (λ _, true) (RDownload (Some "public/uploads/file-1700000000000.png")) =
    ADownload (DFile "/srv/sendu/public/uploads/file-1700000000000.png").
Proof.
  change "/srv/sendu" with (abs_path ["srv"; "sendu"]).
  change "file-1700000000000.png" with (disk_filename (mkUFile "file" "photo.png") 1700000000000).
  change "public/uploads/file-1700000000000.png"
    with ("public/uploads/" +:+ disk_filename (mkUFile "file" "photo.png") 1700000000000).
  refine (upload_download_roundtrip _ _ _ _ _ _ _ _); [discriminate|reflexivity..|vm_compute; set_solver].
Defined.

End Files.
