(* ===== verification/Timers.v ===== *)
(** * Node timers

    [setTimeout(cb, delay)] registers [cb] to run once the clock reaches
    [now + delay] and returns a handle; [clearTimeout(h)] unregisters it.
    The queue keeps the pending timers in registration order.  Node fires
    due timers earliest deadline first, registration order among equal
    deadlines; [fire_due] fires the due prefix of the queue, which is the
    same order whenever the queue is sorted by deadline.  Every server of
    the repository arms its timers with one constant delay, and the clock
    never goes back, so its queue stays sorted ([set_timeout_ok]):
    the prefix order is Node's order. *)

From S2P Require Import Prelude.
From Stdlib Require Import Sorting.Sorted.

Section Queue.
Context {A : Type}.

Record timer := mkTimer { t_handle : nat; t_due : N; t_cb : A }.

Record queue := mkQueue { pending : list timer; next_handle : nat }.

Definition empty_queue : queue := mkQueue [] 1.

(** [setTimeout(cb, delay)] at time [now]: the new timer and its handle. *)
Definition set_timeout (now delay : N) (cb : A) (q : queue) : queue * nat :=
  let h := next_handle q in
  (mkQueue (pending q ++ [mkTimer h (now + delay)%N cb]) (S h), h).

(** [clearTimeout(h)]; an unknown handle is ignored. *)
Definition clear_timeout (h : nat) (q : queue) : queue :=
  mkQueue (filter (λ t, t_handle t ≠ h) (pending q)) (next_handle q).

(** The due prefix of a list of timers and the rest. *)
Fixpoint split_due (now : N) (l : list timer) : list timer * list timer :=
  match l with
  | [] => ([], [])
  | t :: l' =>
      if decide (t_due t ≤ now)%N then
        let '(a, b) := split_due now l' in (t :: a, b)
      else ([], l)
  end.

(** Fire every timer due at [now]: the callbacks of the fired timers in
    firing order, and the queue of the remaining ones. *)
Definition fire_due (now : N) (q : queue) : list A * queue :=
  let '(a, b) := split_due now (pending q) in
  (t_cb <$> a, mkQueue b (next_handle q)).

(** Deadlines in non-decreasing order. *)
Definition sorted_due (l : list timer) : Prop :=
  StronglySorted (λ t1 t2, t_due t1 ≤ t_due t2)%N l.

(** The queue invariant: sorted by deadline, no deadline beyond
    [now + delay], every handle below [next_handle]. *)
Definition queue_ok (delay now : N) (q : queue) : Prop :=
  sorted_due (pending q) ∧
  Forall (λ t, t_due t ≤ now + delay)%N (pending q) ∧
  Forall (λ t, t_handle t < next_handle q) (pending q).

(** ** Lemmas *)

Lemma split_due_app now l : (split_due now l).1 ++ (split_due now l).2 = l.
Proof.
  induction l as [|t l IH]; simpl; [done|].
  case_decide; [|done]. destruct (split_due now l). simpl in *. by rewrite IH.
Qed.

Lemma split_due_fst_due now l : Forall (λ t, t_due t ≤ now)%N (split_due now l).1.
Proof.
  induction l as [|t l IH]; simpl; [done|].
  case_decide; [|done]. destruct (split_due now l). simpl in *. by constructor.
Qed.

Lemma split_due_all now l :
  Forall (λ t, t_due t ≤ now)%N l -> split_due now l = (l, []).
Proof.
  induction 1 as [|t l Ht _ IH]; simpl; [done|].
  rewrite decide_True by done. by rewrite IH.
Qed.

(** On a sorted list, nothing due stays behind. *)
Lemma split_due_snd_later now l :
  sorted_due l -> Forall (λ t, now < t_due t)%N (split_due now l).2.
Proof.
  induction 1 as [|t l Hs IH Hall]; simpl; [done|].
  case_decide as Hd.
  - destruct (split_due now l). exact IH.
  - constructor; [lia|]. eapply Forall_impl; [exact Hall|]. simpl. lia.
Qed.

Lemma sorted_due_app_single l t :
  sorted_due l -> Forall (λ t', t_due t' ≤ t_due t)%N l -> sorted_due (l ++ [t]).
Proof.
  induction 1 as [|t' l Hs IH Hall]; intros Hle; simpl.
  - repeat constructor.
  - apply Forall_cons in Hle as [Ht' Hle]. constructor; [by apply IH|].
    apply Forall_app. split; [done|]. by constructor.
Qed.

Lemma sorted_due_filter (P : timer -> Prop) `{!∀ t, Decision (P t)} l :
  sorted_due l -> sorted_due (filter P l).
Proof.
  induction 1 as [|t l Hs IH Hall]; simpl; [constructor|].
  rewrite filter_cons. case_decide; [|done]. constructor; [done|].
  apply Forall_forall. intros x Hx. apply list_elem_of_filter in Hx.
  rewrite Forall_forall in Hall. apply Hall, Hx.
Qed.

Lemma sorted_due_suffix now l : sorted_due l -> sorted_due (split_due now l).2.
Proof.
  induction 1 as [|t l Hs IH Hall]; simpl; [constructor|].
  case_decide; [destruct (split_due now l); exact IH|by constructor].
Qed.

Lemma Forall_split_due_snd (P : timer -> Prop) now l :
  Forall P l -> Forall P (split_due now l).2.
Proof.
  intros H. rewrite <-(split_due_app now l) in H. by apply Forall_app in H as [_ ?].
Qed.

(** ** The queue invariant is preserved *)

Lemma queue_ok_empty delay now : queue_ok delay now empty_queue.
Proof. repeat constructor. Qed.

Lemma queue_ok_mono delay now now' q :
  (now ≤ now')%N -> queue_ok delay now q -> queue_ok delay now' q.
Proof.
  intros Hle (Hs & Hd & Hh). split_and!; [done| |done].
  eapply Forall_impl; [exact Hd|]. simpl. lia.
Qed.

Lemma set_timeout_ok delay now cb q :
  queue_ok delay now q -> queue_ok delay now (set_timeout now delay cb q).1.
Proof.
  intros (Hs & Hd & Hh). unfold set_timeout. simpl. split_and!.
  - by apply sorted_due_app_single.
  - apply Forall_app. split; [done|]. constructor; [simpl; lia|done].
  - apply Forall_app. split.
    + eapply Forall_impl; [exact Hh|]. simpl. lia.
    + constructor; [simpl; lia|done].
Qed.

Lemma clear_timeout_ok delay now h q :
  queue_ok delay now q -> queue_ok delay now (clear_timeout h q).
Proof.
  intros (Hs & Hd & Hh). unfold clear_timeout. simpl. split_and!.
  - by apply sorted_due_filter.
  - by apply Forall_filter_sub.
  - by apply Forall_filter_sub.
Qed.

Lemma fire_due_ok delay now now' q :
  (now ≤ now')%N -> queue_ok delay now q -> queue_ok delay now' (fire_due now' q).2.
Proof.
  intros Hle Hok. apply (queue_ok_mono _ _ now') in Hok as (Hs & Hd & Hh); [|done].
  unfold fire_due. pose proof (sorted_due_suffix now' _ Hs).
  pose proof (Forall_split_due_snd _ now' _ Hd).
  pose proof (Forall_split_due_snd _ now' _ Hh).
  destruct (split_due now' (pending q)). simpl in *. by split_and!.
Qed.

(** After firing at [now], every pending timer is due strictly later. *)
Lemma fire_due_later delay now q :
  queue_ok delay now q -> Forall (λ t, now < t_due t)%N (pending (fire_due now q).2).
Proof.
  intros (Hs & _ & _). unfold fire_due.
  pose proof (split_due_snd_later now _ Hs).
  by destruct (split_due now (pending q)).
Qed.

(** The fired callbacks and the remaining timers partition the queue. *)
Lemma fire_due_partition now q :
  pending q = (split_due now (pending q)).1 ++ (fire_due now q).2.(pending).
Proof.
  unfold fire_due. rewrite <-(split_due_app now (pending q)) at 1.
  by destruct (split_due now (pending q)).
Qed.
(** ** Handles are distinct *)

Definition handles (q : queue) : list nat := t_handle <$> pending q.

Lemma set_timeout_nodup delay now cb q :
  queue_ok delay now q -> NoDup (handles q) ->
  NoDup (handles (set_timeout now delay cb q).1).
Proof.
  intros (_ & _ & Hh) Hnd. unfold handles, set_timeout. simpl.
  rewrite fmap_app. apply NoDup_app. split_and!; [done| |by apply NoDup_singleton].
  intros h Hin Hs. apply list_elem_of_singleton in Hs. simpl in Hs. subst h.
  apply list_elem_of_fmap in Hin as (t & Heq & Ht). rewrite Forall_forall in Hh.
  specialize (Hh t Ht). lia.
Qed.

Lemma clear_timeout_nodup h q : NoDup (handles q) -> NoDup (handles (clear_timeout h q)).
Proof.
  intros Hnd. eapply sublist_NoDup; [exact Hnd|]. unfold handles, clear_timeout. simpl.
  apply fmap_sublist, sublist_filter.
Qed.

Lemma fire_due_nodup now q : NoDup (handles q) -> NoDup (handles (fire_due now q).2).
Proof.
  intros Hnd. eapply sublist_NoDup; [exact Hnd|]. unfold handles.
  pose proof (fire_due_partition now q) as Hp.
  apply fmap_sublist. rewrite Hp at 1. by apply sublist_inserts_l.
Qed.

Lemma elem_of_clear_timeout t h q :
  t ∈ pending (clear_timeout h q) <-> t ∈ pending q ∧ t_handle t ≠ h.
Proof. unfold clear_timeout. simpl. rewrite list_elem_of_filter. tauto. Qed.
End Queue.

Arguments timer : clear implicits.
Arguments queue : clear implicits.
