(* ===== verification/IceWait.v ===== *)
(** * Waiting for ICE gathering

    [src/unnamed/part_000] lines 45-53: [waitForIceGatheringComplete(pc,
    timeout = 3000)], awaited after [setLocalDescription] by the offering
    page (line 89) and the answering page (line 183).  The promise
    resolves at once without a peer connection or when gathering is
    already complete; otherwise it registers an [icegatheringstatechange]
    handler, which resolves when the state becomes [complete] and removes
    itself, and a timer, which removes the handler and resolves.  The
    timer is never cleared: after an early completion it still fires,
    and its [resolve()] is a no-op.

    The state is the peer connection's [iceGatheringState], whether the
    handler is registered, the time of the first [resolve()] (later ones
    do not change a settled promise), the timer queue of [Timers.v] and
    the clock.  Events are time-stamped: a change of gathering state and
    the passing of time, which fires the due timers.  [first_done] is
    the specification, "whichever first": the promise settles at the
    first completion or at the first tick past the deadline. *)

From S2P Require Import Prelude Timers.
From Stdlib Require Import Sorting.Sorted.

Module IceWait.

(** [pc.iceGatheringState]. *)
Inductive gstate := GNew | GGathering | GComplete.

#[export] Instance gstate_eq_dec : EqDecision gstate.
Proof. solve_decision. Defined.

(** The one callback this code arms: the timeout. *)
Inductive cb := TimeoutCb.

Record state := mkState {
  gathering : gstate;
  listening : bool;
  resolved : option N;
  timers : @queue cb;
  now : N
}.

(** The default [timeout] of line 45. *)
Definition ice_timeout : N := 3000.

(** [resolve()]: only the first call settles the promise. *)
Definition resolve (st : state) : state :=
  match resolved st with
  | Some _ => st
  | None => mkState (gathering st) (listening st) (Some (now st)) (timers st) (now st)
  end.

(** [pc.removeEventListener('icegatheringstatechange', handler)]. *)
Definition unlisten (st : state) : state :=
  mkState (gathering st) false (resolved st) (timers st) (now st).

(** The call at time [t0] (lines 46-52); [None] is a missing [pc]. *)
Definition start (pc : option gstate) (timeout t0 : N) : state :=
  match pc with
  | None => mkState GNew false (Some t0) empty_queue t0
  | Some GComplete => mkState GComplete false (Some t0) empty_queue t0
  | Some g => mkState g true None (set_timeout t0 timeout TimeoutCb empty_queue).1 t0
  end.

(** The [handler] of line 49. *)
Definition handler (st : state) : state :=
  if decide (gathering st = GComplete) then resolve (unlisten st) else st.

(** The gathering state becomes [g] at time [t]; the handler runs if it
    is still registered. *)
Definition on_gather (t : N) (g : gstate) (st : state) : state :=
  let st1 := mkState g (listening st) (resolved st) (timers st) t in
  if listening st1 then handler st1 else st1.

(** The timer's callback (line 51). *)
Definition on_timeout (st : state) (_ : cb) : state := resolve (unlisten st).

(** The clock reaches [t]: the due timers fire in order. *)
Definition on_tick (t : N) (st : state) : state :=
  let '(cbs, q) := fire_due t (timers st) in
  foldl on_timeout (mkState (gathering st) (listening st) (resolved st) q t) cbs.

Inductive event := EGather (t : N) (g : gstate) | ETick (t : N).

Definition step (st : state) (e : event) : state :=
  match e with EGather t g => on_gather t g st | ETick t => on_tick t st end.

Definition run (st : state) (es : list event) : state := foldl step st es.

(** The specification: the first completion, or the first tick at or
    after the deadline. *)
Fixpoint first_done (deadline : N) (es : list event) : option N :=
  match es with
  | [] => None
  | EGather t GComplete :: _ => Some t
  | ETick t :: es' => if decide (deadline ≤ t)%N then Some t else first_done deadline es'
  | EGather _ _ :: es' => first_done deadline es'
  end.

(** ** Lemmas *)

(** Before it settles, the wait listens and its only timer is pending. *)
Definition waiting (deadline : N) (st : state) : Prop :=
  resolved st = None ∧ listening st = true ∧ pending (timers st) = [mkTimer 1 deadline TimeoutCb].

Lemma foldl_on_timeout_settled st cbs r :
  resolved st = Some r -> resolved (foldl on_timeout st cbs) = Some r.
Proof.
  revert st. induction cbs as [|c cbs IH]; intros st Hr; [done|].
  apply IH. unfold on_timeout, resolve, unlisten. simpl. by rewrite Hr.
Qed.

Lemma step_settled st e r : resolved st = Some r -> resolved (step st e) = Some r.
Proof.
  intros Hr. destruct e as [t g|t]; simpl.
  - unfold on_gather, handler, resolve, unlisten. simpl.
    destruct (listening st); simpl; [case_decide|]; simpl; by rewrite ?Hr.
  - unfold on_tick. destruct (fire_due t (timers st)). by apply foldl_on_timeout_settled.
Qed.

Lemma run_settled st es r : resolved st = Some r -> resolved (run st es) = Some r.
Proof.
  revert st. induction es as [|e es IH]; intros st Hr; [done|]. apply IH. by apply step_settled.
Qed.

(** One step of a waiting promise: it settles exactly at a completion or
    at a tick past the deadline, and keeps waiting otherwise. *)
Lemma step_waiting deadline st e :
  waiting deadline st ->
  match e with
  | EGather t GComplete => resolved (step st e) = Some t
  | ETick t => if decide (deadline ≤ t)%N then resolved (step st e) = Some t
               else waiting deadline (step st e)
  | EGather _ _ => waiting deadline (step st e)
  end.
Proof.
  intros (Hr & Hl & Hp). destruct e as [t g|t]; simpl.
  - unfold on_gather, handler, resolve, unlisten. simpl. rewrite Hl.
    destruct g; simpl; [by split_and!..|by rewrite Hr].
  - unfold on_tick, fire_due. rewrite Hp. simpl.
    case_decide; simpl; [unfold on_timeout, resolve, unlisten; simpl; by rewrite Hr|done].
Qed.

Lemma run_waiting deadline st es :
  waiting deadline st -> resolved (run st es) = first_done deadline es.
Proof.
  revert st. induction es as [|e es IH]; intros st Hw; [by destruct Hw|].
  pose proof (step_waiting deadline st e Hw) as Hs. cbn [run foldl].
  destruct e as [t [| |]|t]; simpl in Hs |- *; [by apply IH..|by apply run_settled|].
  case_decide; [by apply run_settled|by apply IH].
Qed.

Lemma start_waiting g timeout t0 :
  g ≠ GComplete -> waiting (t0 + timeout) (start (Some g) timeout t0).
Proof. intros Hg. unfold start. by destruct g. Qed.

(** The time of an event. *)
Definition ev_time (e : event) : N := match e with EGather t _ | ETick t => t end.

Lemma first_done_le deadline es t :
  StronglySorted (λ e1 e2, ev_time e1 ≤ ev_time e2)%N es -> ETick t ∈ es -> (deadline ≤ t)%N ->
  ∃ r, first_done deadline es = Some r ∧ (r ≤ t)%N.
Proof.
  induction 1 as [|e es _ IH Hle]; [set_solver|]. intros Hin Hd.
  rewrite Forall_forall in Hle.
  assert (ETick t = e ∨ ETick t ∈ es) as [<-|Hes] by set_solver.
  { simpl. rewrite decide_True by done. by exists t. }
  specialize (Hle _ Hes). simpl in Hle.
  destruct e as [t' [| |]|t']; simpl in Hle |- *; try (by apply IH).
  - by exists t'.
  - case_decide; [by exists t'|by apply IH].
Qed.

(** The handler is registered exactly while the promise is pending. *)
Definition listens_while_pending (st : state) : Prop := listening st = true <-> resolved st = None.

Lemma foldl_on_timeout_pending st cbs :
  listens_while_pending st -> listens_while_pending (foldl on_timeout st cbs).
Proof.
  revert st. induction cbs as [|c cbs IH]; intros st H; [done|]. apply IH.
  unfold listens_while_pending, on_timeout, resolve, unlisten. simpl.
  destruct (resolved st); simpl; split; done.
Qed.

Lemma step_pending st e : listens_while_pending st -> listens_while_pending (step st e).
Proof.
  intros H. destruct e as [t g|t]; simpl.
  - unfold listens_while_pending in *. unfold on_gather, handler. simpl.
    destruct (listening st) eqn:Hl; simpl; [|done].
    case_decide; [|done]. unfold resolve, unlisten. simpl.
    destruct H as [H _]. by rewrite H.
  - unfold on_tick. destruct (fire_due t (timers st)). by apply foldl_on_timeout_pending.
Qed.

(** ** Properties *)

(** C13: whichever first.  The promise of [waitForIceGatheringComplete]
    settles at once, at the call's time, without a peer connection or
    when gathering is already complete; otherwise, on any sequence of
    events, it settles exactly at the first completion of gathering or
    at the first tick at or past the deadline [t0 + timeout], whichever
    comes first, and never again. *)
Theorem wait_whichever_first pc timeout t0 es :
  resolved (run (start pc timeout t0) es) =
    match pc with
    | Some g => if decide (g = GComplete) then Some t0 else first_done (t0 + timeout) es
    | None => Some t0
    end.
Proof.
  destruct pc as [g|]; [|by apply run_settled].
  case_decide as Hg; [subst; by apply run_settled|].
  by apply run_waiting, start_waiting.
Qed.

(** No handler outlives the wait.  Whatever happens after the call,
    the [icegatheringstatechange] handler is registered exactly while
    the promise is pending: it is removed when the promise settles,
    by completion or by the timer, and never left behind. *)
Theorem listener_until_settled pc timeout t0 es :
  listening (run (start pc timeout t0) es) = true <-> resolved (run (start pc timeout t0) es) = None.
Proof.
  assert (listens_while_pending (start pc timeout t0)) as H0
    by (unfold listens_while_pending, start; destruct pc as [[| |]|]; done).
  revert H0. generalize (start pc timeout t0). clear.
  induction es as [|e es IH]; intros st H; [done|]. apply IH, step_pending, H.
Qed.

(** C22: the wait is bounded.  With the code's default timeout of 3000 ms
    and a clock that does not go back, once time has passed
    [t0 + 3000] the promise has settled, at a time no later than that
    tick. *)
Theorem wait_bounded pc t0 es t :
  StronglySorted (λ e1 e2, ev_time e1 ≤ ev_time e2)%N es -> ETick t ∈ es ->
  (t0 + ice_timeout ≤ t)%N ->
  ∃ r, resolved (run (start pc ice_timeout t0) es) = Some r ∧ (r ≤ t)%N.
Proof.
  intros Hs Hin Hd. assert (t0 ≤ t)%N by (unfold ice_timeout in Hd; lia).
  destruct pc as [g|]; [|exists t0; split; [by apply run_settled|done]].
  destruct (decide (g = GComplete)) as [->|Hg]; [exists t0; split; [by apply run_settled|done]|].
  rewrite (run_waiting (t0 + ice_timeout)) by (by apply start_waiting). by apply first_done_le.
Qed.

(** ** Witnesses *)

(** Gathering that stalls: the timer settles the promise at the tick of
    3500 ms; the late completion changes nothing. *)
Definition stalled : list event := [EGather 100 GGathering; ETick 2000; ETick 3500; EGather 4000 GComplete].

Lemma wait_bounded_witness :
  ∃ r, resolved (run (start (Some GGathering) ice_timeout 0) stalled) = Some r ∧ (r ≤ 3500)%N.
Proof.
  apply (wait_bounded _ 0 stalled 3500);
    [repeat constructor; cbn; lia|unfold stalled; set_solver|vm_compute; congruence].
Defined.

End IceWait.
