(* ===== verification/TokenStore.v ===== *)
(** * The one-time token store of the final server

    [src/unnamed/part_001]: the map [tokens] (line 16) from a uuid to the
    token a client posted, filled by [POST /store] (lines 91-99), shown by
    [GET /t/:id] (lines 103-172) and emptied by [GET /consume/:id] (lines
    175-185); a ten minute timer armed by [POST /store] deletes the entry
    (line 97).  The hardened server of [src/index.js] (lines 263-312, TTL
    [TOKEN_TTL] line 194) has the same three handlers.

    The state of [Store] is the map, the timer queue and the clock (ms).
    One definition per route handler; [tick] lets time pass and runs the
    due timers.  The theorems show the contract of the spec (section 4.1):
    a token is consumed at most once, the reveal page does not consume it
    and announces exactly the tokens a consume returns, a stored token
    comes back unchanged, every stored token is truthy, and no token
    outlives its TTL. *)

From S2P Require Import Prelude Json Timers.

Module Store.

(** ** State and responses *)

(** [10 * 60 * 1000] (part_001 line 97; [TOKEN_TTL], index.js line 194). *)
Definition TOKEN_TTL : N := 10 * 60 * 1000.

Record state := mkState {
  tokens : gmap string jvalue;
  timers : queue string;
  now : N
}.

Definition init : state := mkState ∅ empty_queue 0.

(** The two HTML pages of [GET /t/:id]: the "expired or already used"
    page, and the page whose Reveal button fetches [/consume/:id]. *)
Inductive page := ExpiredPage | RevealPage (id : string) | ErrorPage.

Inductive body := BJson (v : jvalue) | BHtml (p : page).

Record response := mkResp { status : nat; rbody : body }.

Definition json_resp (code : nat) (fs : list (string * jvalue)) : response :=
  mkResp code (BJson (JObj fs)).

(** What Express answers when a handler throws. *)
Definition internal_error : response := mkResp 500 (BHtml ErrorPage).

Definition resp_missing : response := json_resp 400 [("error", JStr "Missing token")].
Definition resp_expired : response := json_resp 200 [("error", JStr "expired")].
Definition resp_token (v : jvalue) : response := json_resp 200 [("token", v)].
Definition resp_id (id : string) : response := json_resp 200 [("id", JStr id)].

(** ** Handlers *)

(** [POST /store]: [const { token } = req.body]; reject a falsy token
    with 400; otherwise record it under the fresh uuid [id], arm the
    timer [() => tokens.delete(id)] and answer [{ id }]. *)
Definition store (id : string) (reqbody : jvalue) (st : state) : state * response :=
  match get reqbody "token" with
  | inl _ => (st, internal_error)
  | inr token =>
      match truthy_value token with
      | None => (st, resp_missing)
      | Some v =>
          let '(q, _) := set_timeout (now st) TOKEN_TTL id (timers st) in
          (mkState (<[id := v]> (tokens st)) q (now st), resp_id id)
      end
  end.

(** [GET /t/:id]: the reveal page when the token is live, the expired
    page with 404 otherwise; the map is only read. *)
Definition reveal (id : string) (st : state) : response :=
  match truthy_value (tokens st !! id) with
  | None => mkResp 404 (BHtml ExpiredPage)
  | Some _ => mkResp 200 (BHtml (RevealPage id))
  end.

(** [GET /consume/:id]: [{ error: 'expired' }] when the token is gone,
    otherwise delete it and answer [{ token }]. *)
Definition consume (id : string) (st : state) : state * response :=
  match truthy_value (tokens st !! id) with
  | None => (st, resp_expired)
  | Some v => (mkState (delete id (tokens st)) (timers st) (now st), resp_token v)
  end.

(** The timers' callbacks, [tokens.delete(id)], in firing order. *)
Definition run_callbacks (ids : list string) (m : gmap string jvalue) : gmap string jvalue :=
  foldl (λ m id, delete id m) m ids.

(** Time passes to [t] (the clock never goes back) and the due timers
    fire. *)
Definition tick (t : N) (st : state) : state :=
  let t' := N.max (now st) t in
  let '(ids, q) := fire_due t' (timers st) in
  mkState (run_callbacks ids (tokens st)) q t'.

(** ** The server as a sequence of events *)

Inductive event :=
| EStore (id : string) (reqbody : jvalue)
| EReveal (id : string)
| EConsume (id : string)
| ETick (t : N).

Definition exec (st : state) (e : event) : state * option response :=
  match e with
  | EStore id b => let '(st', r) := store id b st in (st', Some r)
  | EReveal id => (st, Some (reveal id st))
  | EConsume id => let '(st', r) := consume id st in (st', Some r)
  | ETick t => (tick t st, None)
  end.

Inductive reachable : state -> Prop :=
| reach_init : reachable init
| reach_step st e : reachable st -> reachable (exec st e).1.

(** ** Invariant *)

(** Every entry is truthy, the timer queue is well formed and strictly
    in the future, and every entry has a pending timer that deletes
    it. *)
Definition inv (st : state) : Prop :=
  map_Forall (λ _ v, truthy v = true) (tokens st) ∧
  queue_ok TOKEN_TTL (now st) (timers st) ∧
  Forall (λ t, now st < t_due t)%N (pending (timers st)) ∧
  (∀ id, is_Some (tokens st !! id) -> ∃ t, t ∈ pending (timers st) ∧ t_cb t = id).

(** ** Lemmas on the handlers *)

Lemma consume_live id st v :
  truthy_value (tokens st !! id) = Some v ->
  consume id st = (mkState (delete id (tokens st)) (timers st) (now st), resp_token v).
Proof. unfold consume. by intros ->. Qed.

Lemma consume_gone id st :
  truthy_value (tokens st !! id) = None -> consume id st = (st, resp_expired).
Proof. unfold consume. by intros ->. Qed.

Lemma token_run_callbacks_lookup ids m id :
  run_callbacks ids m !! id = if decide (id ∈ ids) then None else m !! id.
Proof. apply foldl_delete_lookup. Qed.

Lemma tick_now t st : now (tick t st) = N.max (now st) t.
Proof. unfold tick. by destruct (fire_due _ _). Qed.

Lemma exec_now st e : (now st ≤ now (exec st e).1)%N.
Proof.
  destruct e; simpl; unfold store, consume;
    repeat case_match; simplify_eq/=; rewrite ?tick_now; lia.
Qed.

(** ** The invariant holds in every reachable state *)

Lemma token_inv_init : inv init.
Proof.
  split_and!; [apply map_Forall_empty|apply queue_ok_empty|constructor|].
  intros id [? Hl]. simpl in Hl. by rewrite lookup_empty in Hl.
Qed.

Lemma store_inv id b st : inv st -> inv (store id b st).1.
Proof.
  intros (Htr & Hq & Hfut & Hcov). unfold store.
  destruct (get b "token") as [|token]; [done|].
  destruct (truthy_value token) as [v|] eqn:Hv; [|done].
  apply truthy_value_Some in Hv as [_ Hv].
  pose proof (set_timeout_ok TOKEN_TTL (now st) id (timers st) Hq) as Hq'.
  unfold set_timeout in *; simpl in *. split_and!; simpl.
  - by apply map_Forall_insert_2.
  - done.
  - apply Forall_app. split; [done|]. constructor; [simpl; unfold TOKEN_TTL; lia|done].
  - intros id'. rewrite lookup_insert. case_decide as Heq.
    + intros _. eexists. split; [apply elem_of_app; right; by left|done].
    + intros Hl. destruct (Hcov id' Hl) as (t & Ht & <-).
      exists t. split; [set_solver|done].
Qed.

Lemma consume_inv id st : inv st -> inv (consume id st).1.
Proof.
  intros (Htr & Hq & Hfut & Hcov). unfold consume.
  destruct (truthy_value _); [|done]. simpl. split_and!; [|done|done|].
  - by apply map_Forall_delete.
  - intros id' Hl. apply Hcov. simpl in Hl. rewrite lookup_delete in Hl. by case_decide.
Qed.

Lemma token_tick_inv t st : inv st -> inv (tick t st).
Proof.
  intros (Htr & Hq & Hfut & Hcov). unfold tick.
  set (t' := N.max (now st) t).
  assert (Hle : (now st ≤ t')%N) by lia.
  pose proof (fire_due_ok _ _ _ (timers st) Hle Hq) as Hq'.
  pose proof (fire_due_later _ _ _ (queue_ok_mono _ _ _ _ Hle Hq)) as Hlater.
  pose proof (fire_due_partition t' (timers st)) as Hpart.
  unfold fire_due in *. destruct (split_due t' (pending (timers st))) as [a b].
  simpl in *. split_and!; simpl; [| done | done |].
  - intros id v Hl. rewrite token_run_callbacks_lookup in Hl. case_decide; [done|].
    by apply (Htr id).
  - intros id Hl. rewrite token_run_callbacks_lookup in Hl. case_decide as Hin; [by destruct Hl|].
    destruct (Hcov id Hl) as (tm & Htm & <-). rewrite Hpart in Htm.
    apply elem_of_app in Htm as [Htm|Htm]; [|by eauto].
    exfalso. apply Hin. apply list_elem_of_fmap. eauto.
Qed.

Lemma token_exec_inv st e : inv st -> inv (exec st e).1.
Proof.
  intros H. destruct e as [id b|id|id|t]; simpl.
  - pose proof (store_inv id b st H). by destruct (store id b st).
  - done.
  - pose proof (consume_inv id st H). by destruct (consume id st).
  - by apply token_tick_inv.
Qed.

Lemma token_reachable_inv st : reachable st -> inv st.
Proof. induction 1; [apply token_inv_init|by apply token_exec_inv]. Qed.

(** Once the TTL has elapsed every timer armed so far has fired. *)
Lemma token_tick_after_ttl t st :
  inv st -> (now st + TOKEN_TTL ≤ t)%N -> tokens (tick t st) = ∅.
Proof.
  intros (_ & (_ & Hdue & _) & _ & Hcov) Ht. unfold tick, fire_due.
  rewrite split_due_all.
  2:{ eapply Forall_impl; [exact Hdue|]. simpl. lia. }
  simpl. apply map_eq. intros id. rewrite token_run_callbacks_lookup, lookup_empty.
  case_decide as Hin; [done|].
  destruct (tokens st !! id) eqn:Hl; [|done].
  destruct (Hcov id) as (tm & Htm & <-); [by eexists|].
  exfalso. apply Hin, list_elem_of_fmap. eauto.
Qed.

(** ** Properties *)

(** C1: one-time use.  Whatever the state, a second [GET /consume/:id]
    right after a first one answers [{ error: 'expired' }]: of two
    consumers of the same token at most one receives it. *)
Theorem consume_one_time id st :
  (consume id (consume id st).1).2 = resp_expired.
Proof.
  destruct (truthy_value (tokens st !! id)) as [v|] eqn:Hv.
  - rewrite (consume_live _ _ _ Hv). simpl.
    rewrite consume_gone; [done|]. simpl. by rewrite lookup_delete_eq.
  - rewrite (consume_gone _ _ Hv). simpl. by rewrite (consume_gone _ _ Hv).
Qed.

(** C2: round trip.  A truthy token posted as [{ token: v }] is handed
    back unchanged by the consume of the id the store answered with. *)
Theorem store_consume id v st :
  truthy v = true ->
  (store id (JObj [("token", v)]) st).2 = resp_id id ∧
  (consume id (store id (JObj [("token", v)]) st).1).2 = resp_token v.
Proof.
  intros Hv. unfold store. simpl. destruct (truthy v) eqn:E; [|done]. simpl.
  split; [done|]. rewrite (consume_live _ _ v); [done|]. simpl.
  rewrite lookup_insert_eq. simpl. by rewrite E.
Qed.


(** C3: no token outlives its TTL.  In every reachable state, once the
    clock has moved [TOKEN_TTL] past the current time, the timers have
    emptied the map: every token stored so far is gone, consumed or
    not. *)
Theorem tokens_expire st t :
  reachable st -> (now st + TOKEN_TTL ≤ t)%N -> tokens (tick t st) = ∅.
Proof. intros Hr. apply token_tick_after_ttl, token_reachable_inv, Hr. Qed.

(** Every token in the map is truthy in every reachable state, so
    the [if (!token)] guards of [/t/:id] and [/consume/:id] fail exactly
    for the ids that are not in the map. *)
Theorem reachable_truthy st id v :
  reachable st -> tokens st !! id = Some v -> truthy v = true.
Proof. intros Hr Hl. destruct (token_reachable_inv st Hr) as [Htr _]. by apply (Htr id). Qed.

(** The scenario of the spec (section 8): the offer is stored under
    [abc], the reveal page is served, the first consume returns the
    offer and the second one answers [expired]. *)
Example scenario_store_reveal_consume :
  let '(st1, r1) := store "abc" (JObj [("token", JStr "OFFER_SDP_X")]) init in
  r1 = resp_id "abc" ∧
  reveal "abc" st1 = mkResp 200 (BHtml (RevealPage "abc")) ∧
  let '(st2, r2) := consume "abc" st1 in
  r2 = resp_token (JStr "OFFER_SDP_X") ∧ (consume "abc" st2).2 = resp_expired.
Proof. vm_compute. auto. Qed.

(** ** Witnesses *)

Definition stored_state : state :=
  (exec init (EStore "abc" (JObj [("token", JStr "OFFER_SDP_X")]))).1.

Lemma stored_state_reachable : reachable stored_state.
Proof. apply reach_step, reach_init. Qed.

Lemma store_consume_witness :
  (store "abc" (JObj [("token", JStr "OFFER_SDP_X")]) init).2 = resp_id "abc" ∧
  (consume "abc" (store "abc" (JObj [("token", JStr "OFFER_SDP_X")]) init).1).2 =
    resp_token (JStr "OFFER_SDP_X").
Proof. apply store_consume. reflexivity. Defined.

Lemma tokens_expire_witness : tokens (tick TOKEN_TTL stored_state) = ∅.
Proof. apply tokens_expire; [apply stored_state_reachable|vm_compute; discriminate]. Defined.

Lemma reachable_truthy_witness : truthy (JStr "OFFER_SDP_X") = true.
Proof.
  apply (reachable_truthy stored_state "abc");
    [apply stored_state_reachable|reflexivity].
Defined.
End Store.
