(* ===== verification/SignalStore.v ===== *)
(** * The signal store of the Express server

    [src/index.js] lines 56-83 (a copy at [src/unnamed/part_000] lines
    376-403): [SIGNAL_STORE] maps a short random token to
    [{ sdp, timeout }], where [timeout] is the handle of the two minute
    timer that deletes the entry.  [POST /signal] stores an sdp under a
    fresh random token; [GET /signal/:token] clears the timer, deletes
    the entry and returns the sdp.

    The model [Signal] keeps the map, the timer queue and the clock.  Its
    theorems: a token is read at most once; a posted sdp is read back and
    its timer cancelled; no entry outlives the TTL.  When [POST /signal]
    draws a token that is already in the map, it deletes the old entry
    but not the old entry's timer, which later deletes the new entry
    before its two minutes are over ([collision_early_expiry]). *)

From S2P Require Import Prelude Json Timers.

Module Signal.

(** ** State and responses *)

(** [2 * 60 * 1000] (index.js line 68). *)
Definition SIGNAL_TTL : N := 2 * 60 * 1000.

(** [{ sdp, timeout }] (index.js line 69). *)
Record entry := mkEntry { e_sdp : jvalue; e_timeout : nat }.

Record state := mkState {
  signals : gmap string entry;
  timers : queue string;
  now : N
}.

Definition init : state := mkState ∅ empty_queue 0.

Record response := mkResp { status : nat; rbody : jvalue }.

Definition resp_missing : response := mkResp 400 (JObj [("error", JStr "missing sdp")]).
Definition resp_not_found : response :=
  mkResp 404 (JObj [("error", JStr "not found or expired")]).
Definition resp_token (token : string) : response := mkResp 200 (JObj [("token", JStr token)]).
Definition resp_sdp (sdp : jvalue) : response := mkResp 200 (JObj [("sdp", sdp)]).
Definition internal_error : response := mkResp 500 (JObj []).

(** ** Handlers *)

(** [POST /signal]: [const { sdp } = req.body || {}]; reject a falsy sdp;
    [token] is the random token drawn by [crypto.randomBytes]; an entry
    already under [token] is deleted (its timer is left armed); a new
    timer is armed and the entry [{ sdp, timeout }] stored. *)
Definition post (token : string) (reqbody : jvalue) (st : state) : state * response :=
  let b := if truthy reqbody then reqbody else JObj [] in
  match get b "sdp" with
  | inl _ => (st, internal_error)
  | inr sdp =>
      match truthy_value sdp with
      | None => (st, resp_missing)
      | Some v =>
          let m := if decide (is_Some (signals st !! token))
                   then delete token (signals st) else signals st in
          let '(q, h) := set_timeout (now st) SIGNAL_TTL token (timers st) in
          (mkState (<[token := mkEntry v h]> m) q (now st), resp_token token)
      end
  end.

(** [GET /signal/:token]: 404 for an unknown token; otherwise
    [clearTimeout(entry.timeout)], delete the entry and answer
    [{ sdp }]. *)
Definition read (token : string) (st : state) : state * response :=
  match signals st !! token with
  | None => (st, resp_not_found)
  | Some e =>
      (mkState (delete token (signals st)) (clear_timeout (e_timeout e) (timers st)) (now st),
       resp_sdp (e_sdp e))
  end.

(** The timers' callbacks [SIGNAL_STORE.delete(token)], in firing order. *)
Definition run_callbacks (ts : list string) (m : gmap string entry) : gmap string entry :=
  foldl (λ m k, delete k m) m ts.

Definition tick (t : N) (st : state) : state :=
  let t' := N.max (now st) t in
  let '(ts, q) := fire_due t' (timers st) in
  mkState (run_callbacks ts (signals st)) q t'.

Inductive event :=
| EPost (token : string) (reqbody : jvalue)
| ERead (token : string)
| ETick (t : N).

Definition exec (st : state) (e : event) : state * option response :=
  match e with
  | EPost k b => let '(st', r) := post k b st in (st', Some r)
  | ERead k => let '(st', r) := read k st in (st', Some r)
  | ETick t => (tick t st, None)
  end.

(** Runs a list of events from a state, collecting the responses. *)
Fixpoint run (st : state) (es : list event) : state * list response :=
  match es with
  | [] => (st, [])
  | e :: es =>
      let '(st1, r) := exec st e in
      let '(st2, rs) := run st1 es in
      (st2, option_list r ++ rs)
  end.

Inductive reachable : state -> Prop :=
| reach_init : reachable init
| reach_step st e : reachable st -> reachable (exec st e).1.

(** ** Invariant *)

(** The queue is well formed, every entry's [timeout] is the handle of a
    pending timer that deletes that very entry, and handles are
    distinct. *)
Definition inv (st : state) : Prop :=
  queue_ok SIGNAL_TTL (now st) (timers st) ∧
  NoDup (t_handle <$> pending (timers st)) ∧
  (∀ k e, signals st !! k = Some e ->
     ∃ t, t ∈ pending (timers st) ∧ t_handle t = e_timeout e ∧ t_cb t = k).

(** ** Lemmas *)

Lemma signal_run_callbacks_lookup ts m k :
  run_callbacks ts m !! k = if decide (k ∈ ts) then None else m !! k.
Proof. apply foldl_delete_lookup. Qed.

Lemma signal_inv_init : inv init.
Proof.
  split_and!; [apply queue_ok_empty|constructor|].
  intros k e Hl. simpl in Hl. by rewrite lookup_empty in Hl.
Qed.

Lemma post_inv k b st : inv st -> inv (post k b st).1.
Proof.
  intros (Hq & Hnd & Hcov). unfold post.
  destruct (get _ "sdp") as [|sdp]; [done|].
  destruct (truthy_value sdp) as [v|]; [|done].
  pose proof (set_timeout_ok SIGNAL_TTL (now st) k (timers st) Hq) as Hq'.
  pose proof (set_timeout_nodup SIGNAL_TTL (now st) k (timers st) Hq Hnd) as Hnd'.
  unfold set_timeout, handles in *; simpl in *. split_and!; [done|done|].
  intros k' e. simpl. rewrite lookup_insert. case_decide as Heq.
  - intros [= <-]. subst k'. eexists. split; [apply elem_of_app; right; by left|done].
  - intros Hl. assert (signals st !! k' = Some e) as Hl'.
    { revert Hl. case_decide; [by rewrite lookup_delete_ne|done]. }
    destruct (Hcov _ _ Hl') as (t & Ht & ? & ?). exists t. split_and!; [set_solver|done|done].
Qed.

Lemma read_inv k st : inv st -> inv (read k st).1.
Proof.
  intros (Hq & Hnd & Hcov). unfold read.
  destruct (signals st !! k) as [e|] eqn:Hk; [|done]. simpl.
  split_and!; [by apply clear_timeout_ok|by apply (clear_timeout_nodup _ (timers st))|].
  intros k' e' Hl. simpl in Hl. rewrite lookup_delete in Hl. case_decide as Hne; [done|].
  destruct (Hcov _ _ Hl) as (t' & Ht' & Hh' & Hc').
  destruct (Hcov _ _ Hk) as (t & Ht & Hh & Hc).
  exists t'. cbn [timers]. rewrite elem_of_clear_timeout. split_and!; [done| |done|done].
  intros Heq. assert (t = t') as <-.
  { eapply NoDup_fmap_in_inj; [exact Hnd|done|done|congruence]. }
  congruence.
Qed.

Lemma signal_tick_inv t st : inv st -> inv (tick t st).
Proof.
  intros (Hq & Hnd & Hcov). unfold tick.
  set (t' := N.max (now st) t).
  assert (Hle : (now st ≤ t')%N) by lia.
  pose proof (fire_due_ok _ _ _ (timers st) Hle Hq) as Hq'.
  pose proof (fire_due_nodup t' (timers st) Hnd) as Hnd'.
  pose proof (fire_due_partition t' (timers st)) as Hpart.
  unfold handles, fire_due in *. destruct (split_due t' (pending (timers st))) as [a b].
  simpl in *. split_and!; [done|done|].
  intros k e Hl. cbn [signals] in Hl. rewrite signal_run_callbacks_lookup in Hl. case_decide as Hin; [done|].
  destruct (Hcov k e Hl) as (tm & Htm & Hh & <-). rewrite Hpart in Htm.
  apply elem_of_app in Htm as [Htm|Htm]; [|by eauto].
  exfalso. apply Hin, list_elem_of_fmap. eauto.
Qed.

Lemma signal_exec_inv st e : inv st -> inv (exec st e).1.
Proof.
  intros H. destruct e as [k b|k|t]; simpl.
  - pose proof (post_inv k b st H). by destruct (post k b st).
  - pose proof (read_inv k st H). by destruct (read k st).
  - by apply signal_tick_inv.
Qed.

Lemma signal_reachable_inv st : reachable st -> inv st.
Proof. induction 1; [apply signal_inv_init|by apply signal_exec_inv]. Qed.

Lemma signal_tick_after_ttl t st :
  inv st -> (now st + SIGNAL_TTL ≤ t)%N -> signals (tick t st) = ∅.
Proof.
  intros ((_ & Hdue & _) & _ & Hcov) Ht. unfold tick, fire_due.
  rewrite split_due_all.
  2:{ eapply Forall_impl; [exact Hdue|]. simpl. lia. }
  simpl. apply map_eq. intros k. rewrite signal_run_callbacks_lookup, lookup_empty.
  case_decide as Hin; [done|].
  destruct (signals st !! k) as [e|] eqn:Hl; [|done].
  destruct (Hcov k e Hl) as (tm & Htm & _ & <-).
  exfalso. apply Hin, list_elem_of_fmap. eauto.
Qed.

Lemma read_live k st e :
  signals st !! k = Some e ->
  read k st = (mkState (delete k (signals st)) (clear_timeout (e_timeout e) (timers st)) (now st),
               resp_sdp (e_sdp e)).
Proof. unfold read. by intros ->. Qed.

Lemma post_sdp k v st :
  truthy v = true ->
  post k (JObj [("sdp", v)]) st =
    (mkState (<[k := mkEntry v (next_handle (timers st))]>
                (if decide (is_Some (signals st !! k)) then delete k (signals st) else signals st))
             (set_timeout (now st) SIGNAL_TTL k (timers st)).1 (now st),
     resp_token k).
Proof. intros Hv. unfold post. simpl. destruct (truthy v) eqn:E; [done|congruence]. Qed.

(** ** Properties *)

(** C17: one-time read.  A second [GET /signal/:token] right after a first
    one answers 404. *)
Theorem read_one_time k st : (read k (read k st).1).2 = resp_not_found.
Proof.
  destruct (signals st !! k) as [e|] eqn:Hk.
  - rewrite (read_live _ _ _ Hk). unfold read. simpl. by rewrite lookup_delete_eq.
  - unfold read. rewrite Hk. simpl. by rewrite Hk.
Qed.

(** Round trip.  An sdp posted under [token] is read back unchanged,
    and the read cancels the timer the post armed. *)
Theorem post_read k v st :
  truthy v = true ->
  (read k (post k (JObj [("sdp", v)]) st).1).2 = resp_sdp v ∧
  Forall (λ t, t_handle t ≠ next_handle (timers st))
    (pending (timers (read k (post k (JObj [("sdp", v)]) st).1).1)).
Proof.
  intros Hv. rewrite post_sdp by done. simpl.
  rewrite (read_live _ _ (mkEntry v (next_handle (timers st)))) by (simpl; by rewrite lookup_insert_eq).
  split; [done|]. cbn [timers]. apply Forall_forall. intros t Ht%elem_of_clear_timeout. apply Ht.
Qed.

(** C18: no entry outlives the TTL.  In every reachable state, once the
    clock has moved [SIGNAL_TTL] past the current time, the map is
    empty. *)
Theorem signals_expire st t :
  reachable st -> (now st + SIGNAL_TTL ≤ t)%N -> signals (tick t st) = ∅.
Proof. intros Hr. apply signal_tick_after_ttl, signal_reachable_inv, Hr. Qed.

(** C27: the stale timer.  When [POST /signal] draws a token [k] that is
    still in the map, the timer of the old entry stays armed for [k]
    while the new entry carries another handle: the old timer will delete
    the new entry, and the read that clears the new entry's timer leaves
    the old one armed. *)
Theorem post_collision_keeps_stale_timer k v st e :
  reachable st -> signals st !! k = Some e -> truthy v = true ->
  (∃ t, t ∈ pending (timers (post k (JObj [("sdp", v)]) st).1) ∧
        t_handle t = e_timeout e ∧ t_cb t = k) ∧
  ∃ e', signals (post k (JObj [("sdp", v)]) st).1 !! k = Some e' ∧
        e_timeout e' ≠ e_timeout e.
Proof.
  intros Hr Hk Hv. destruct (signal_reachable_inv st Hr) as ((_ & _ & Hh) & _ & Hcov).
  destruct (Hcov k e Hk) as (t & Ht & Hte & Htc).
  rewrite post_sdp by done. simpl. split.
  - exists t. split_and!; [set_solver|done|done].
  - eexists. rewrite lookup_insert_eq. split; [done|]. simpl.
    rewrite Forall_forall in Hh. specialize (Hh t Ht). lia.
Qed.

(** The consequence, on the run of the spec's time scale.  [X] is
    posted at 0 s and posted again (a token collision) at 60 s; at 120 s
    the timer of the first post deletes the second entry, whose two
    minutes run until 180 s, so the read answers 404.  With two distinct
    tokens the second sdp is still there at 120 s. *)
Example collision_early_expiry :
  (run init [EPost "X" (JObj [("sdp", JStr "A")]); ETick 60000;
             EPost "X" (JObj [("sdp", JStr "B")]); ETick 120000; ERead "X"]).2 =
    [resp_token "X"; resp_token "X"; resp_not_found] ∧
  (run init [EPost "X" (JObj [("sdp", JStr "A")]); ETick 60000;
             EPost "Y" (JObj [("sdp", JStr "B")]); ETick 120000; ERead "Y"]).2 =
    [resp_token "X"; resp_token "Y"; resp_sdp (JStr "B")].
Proof. vm_compute. split; reflexivity. Qed.

(** ** Witnesses *)

Definition posted_state : state := (exec init (EPost "X" (JObj [("sdp", JStr "A")]))).1.

Lemma posted_state_reachable : reachable posted_state.
Proof. apply reach_step, reach_init. Qed.

Lemma post_read_witness :
  (read "X" (post "X" (JObj [("sdp", JStr "A")]) init).1).2 = resp_sdp (JStr "A") ∧
  Forall (λ t, t_handle t ≠ next_handle (timers init))
    (pending (timers (read "X" (post "X" (JObj [("sdp", JStr "A")]) init).1).1)).
Proof. apply post_read. reflexivity. Defined.

Lemma signals_expire_witness : signals (tick SIGNAL_TTL posted_state) = ∅.
Proof. apply signals_expire; [apply posted_state_reachable|vm_compute; discriminate]. Defined.

Lemma post_collision_witness :
  (∃ t, t ∈ pending (timers (post "X" (JObj [("sdp", JStr "B")]) posted_state).1) ∧
        t_handle t = 1 ∧ t_cb t = "X") ∧
  ∃ e', signals (post "X" (JObj [("sdp", JStr "B")]) posted_state).1 !! "X" = Some e' ∧
        e_timeout e' ≠ 1.
Proof.
  apply (post_collision_keeps_stale_timer "X" (JStr "B") posted_state (mkEntry (JStr "A") 1));
    [apply posted_state_reachable|vm_compute; reflexivity|reflexivity].
Defined.
End Signal.
