(* ===== verification/Relay.v ===== *)
(** * The WebSocket signaling relay

    [src/unnamed/part_001] lines 19-79 (the final server) and the
    message handler of [src/index.js] lines 201-230 (the hardened
    server): the set [clients]
    of connected sockets, and the handlers of [wss.on('connection')]:
    [message], [close] and [error].  A message is parsed as JSON and
    dispatched on its [type]: an [offer] or [answer] is echoed to its
    sender as [offer-created] / [answer-created]; an [ice-candidate] is
    sent to every other open client.  A message that does not parse, or
    parses to [null], throws inside the [try]: the final server only
    logs it, the hardened one answers [{ type: 'error' }].

    The state of [Relay] is the client set (a duplicate-free list in
    insertion order, the order of [Set.forEach]), the [readyState] of
    every socket ever connected, and the counter that names new sockets.
    Every handler returns the messages it sends, as (socket, value
    passed to [JSON.stringify]) pairs in sending order.  A send to a
    socket that is not [OPEN] delivers nothing ([ws] drops it), except
    on a [CONNECTING] socket, where it throws.  The messages a client
    sends for its own descriptions ([msg_offer], [msg_answer], part_000
    lines 91 and 185) are defined here, next to the echo they cause.

    The hardened server ([exec_hardened], index.js lines 197-248)
    greets a socket only when it is open and answers a message that
    throws with [{ type: 'error' }]; [hardened_refines] shows this is
    its only difference.  The protocol's messages are the inductive
    [smsg]; [relay_messages_typed] shows both servers send nothing
    else.  [health] is [GET /health] and [shutdown] the graceful
    shutdown of index.js lines 343-356, which terminates every socket of
    [wss.clients] ([live]); [sigint_step] is the final server's
    [SIGINT] handler (part_001 lines 195-198), after which the process
    exits only when no socket is left ([sigint_waits_for_clients]). *)

From S2P Require Import Prelude Json.

Module Relay.

Abbreviation conn := nat.

(** [WebSocket.CONNECTING], [OPEN], [CLOSING], [CLOSED]. *)
Inductive ready := CONNECTING | OPEN | CLOSING | CLOSED.

#[export] Instance ready_eq_dec : EqDecision ready.
Proof. solve_decision. Defined.

Record state := mkState {
  clients : list conn;
  rstate : gmap conn ready;
  next_conn : conn
}.

Definition init : state := mkState [] ∅ 0.

Abbreviation outbox := (list (conn * jvalue)).

(** ** Messages of the relay *)

Definition msg_connected : jvalue :=
  JObj [("type", JStr "connected"); ("message", JStr "Connected to signaling server")].

Definition msg_error : jvalue :=
  JObj [("type", JStr "error"); ("message", JStr "invalid message")].

Definition msg_offer_created (offer : option jvalue) : jvalue :=
  obj [("type", Some (JStr "offer-created")); ("offer", offer)].

Definition msg_answer_created (answer : option jvalue) : jvalue :=
  obj [("type", Some (JStr "answer-created")); ("answer", answer)].

Definition msg_ice (cand : option jvalue) : jvalue :=
  obj [("type", Some (JStr "ice-candidate")); ("candidate", cand)].

(** The protocol of the relay: the five kinds of message it sends, with
    the [type] the client's [ws.onmessage] switches on, and the object
    each one is written as. *)
Inductive smsg :=
| SConnected
| SError
| SOfferCreated (offer : option jvalue)
| SAnswerCreated (answer : option jvalue)
| SIceCandidate (cand : option jvalue).

Definition smsg_json (m : smsg) : jvalue :=
  match m with
  | SConnected => msg_connected
  | SError => msg_error
  | SOfferCreated o => msg_offer_created o
  | SAnswerCreated a => msg_answer_created a
  | SIceCandidate c => msg_ice c
  end.

Definition smsg_type (m : smsg) : string :=
  match m with
  | SConnected => "connected"
  | SError => "error"
  | SOfferCreated _ => "offer-created"
  | SAnswerCreated _ => "answer-created"
  | SIceCandidate _ => "ice-candidate"
  end.

(** ** Sending *)

Definition is_open (st : state) (c : conn) : bool :=
  bool_decide (rstate st !! c = Some OPEN).

(** [ws.send(JSON.stringify(v))]. *)
Definition send (st : state) (c : conn) (v : jvalue) : throws outbox :=
  match rstate st !! c with
  | Some OPEN => inr [(c, v)]
  | Some CONNECTING => inl InvalidStateError
  | _ => inr []
  end.

(** [clients.forEach(client => { if (client !== ws && client.readyState
    === WebSocket.OPEN) client.send(...) })]. *)
Definition broadcast (st : state) (c : conn) (v : jvalue) : outbox :=
  (λ d, (d, v)) <$> filter (λ d, d ≠ c ∧ is_open st d = true) (clients st).

(** ** Handlers *)

(** The body of the [try] once the message is parsed: [data.type] (which
    throws on [null]), then the [switch]. *)
Definition dispatch (st : state) (c : conn) (data : jvalue) : throws outbox :=
  let! ty := get data "type" in
  if is_str ty "offer" then
    let! offer := get data "offer" in send st c (msg_offer_created offer)
  else if is_str ty "answer" then
    let! answer := get data "answer" in send st c (msg_answer_created answer)
  else if is_str ty "ice-candidate" then
    let! cand := get data "candidate" in inr (broadcast st c (msg_ice cand))
  else inr [].

Section Handlers.
Context {J : JsonCodec}.

(** The [try] block: [JSON.parse] throws [SyntaxError] on text that is
    not JSON. *)
Definition try_block (st : state) (c : conn) (raw : string) : throws outbox :=
  match parse raw with
  | None => inl SyntaxError
  | Some data => dispatch st c data
  end.

(** [ws.on('message')] of the final server (part_001 lines 25-62): an
    exception is only logged. *)
Definition on_message (st : state) (c : conn) (raw : string) : outbox :=
  match try_block st c raw with
  | inl _ => []
  | inr out => out
  end.

(** [ws.on('message')] of the hardened server (index.js lines 201-230):
    an exception is answered with [{ type: 'error' }], whose own send
    failure is ignored. *)
Definition on_message_hardened (st : state) (c : conn) (raw : string) : outbox :=
  match try_block st c raw with
  | inl _ => match send st c msg_error with inl _ => [] | inr out => out end
  | inr out => out
  end.

End Handlers.

(** [wss.on('connection')] of the final server (part_001 lines 21-23 and
    74-78): a new open socket joins the set and is greeted. *)
Definition on_connection (st : state) : state * outbox :=
  let c := next_conn st in
  let st' := mkState (if decide (c ∈ clients st) then clients st else clients st ++ [c])
                     (<[c := OPEN]> (rstate st)) (S c) in
  (st', match send st' c msg_connected with inl _ => [] | inr out => out end).

(** [wss.on('connection')] of the hardened server (index.js lines 197-199
    and 242-247): the socket joins the set as in the final server; the
    welcome is sent only when the socket is open, and a send that throws
    is ignored. *)
Definition on_connection_hardened (st : state) : state * outbox :=
  let st' := (on_connection st).1 in
  (st', if is_open st' (next_conn st) then
          match send st' (next_conn st) msg_connected with inl _ => [] | inr out => out end
        else []).

(** [ws.on('close')] (part_001 lines 64-67): the socket is [CLOSED] and
    leaves the set. *)
Definition on_close (st : state) (c : conn) : state :=
  mkState (filter (λ d, d ≠ c) (clients st)) (<[c := CLOSED]> (rstate st)) (next_conn st).

(** [ws.on('error')] (part_001 lines 69-72): the socket leaves the set. *)
Definition on_error (st : state) (c : conn) : state :=
  mkState (filter (λ d, d ≠ c) (clients st)) (rstate st) (next_conn st).

(** The peer starts the closing handshake: [readyState] becomes
    [CLOSING] until the [close] event. *)
Definition closing (st : state) (c : conn) : state :=
  match rstate st !! c with
  | Some OPEN => mkState (clients st) (<[c := CLOSING]> (rstate st)) (next_conn st)
  | _ => st
  end.

(** [GET /health] of the hardened server (index.js lines 259-261): the
    body reports [clients.size]; [now] is [new Date().toISOString()]. *)
Definition health (st : state) (now : string) : jvalue :=
  JObj [("status", JStr "ok"); ("clients", JNum (Z.of_nat (length (clients st))));
        ("timestamp", JStr now)].

(** A socket [wss.clients] still holds: connected and not closed. *)
Definition is_live (st : state) (c : conn) : bool :=
  match rstate st !! c with Some CLOSED | None => false | Some _ => true end.

(** [wss.clients], in connection order. *)
Definition live (st : state) : list conn := filter (λ c, is_live st c = true) (seq 0 (next_conn st)).

(** The graceful shutdown of the hardened server (index.js lines
    343-356): [c.terminate()] on every socket of [wss.clients], which
    runs the socket's [close] handler; then the servers stop accepting
    connections. *)
Definition shutdown (st : state) : state := foldl on_close st (live st).

(** ** The relay as a sequence of events *)

Inductive event :=
| EConnect
| EMessage (c : conn) (raw : string)
| EClosing (c : conn)
| EClose (c : conn)
| EError (c : conn).

(** The final server's [SIGINT] handler (part_001 lines 195-198):
    [server.close(cb)] refuses new connections and calls [cb], which
    exits, once no connection is left; it closes no socket itself.
    After the signal, the sockets go on with their own events. *)
Definition sigint_step (st : state) (e : event) : state :=
  match e with
  | EConnect | EMessage _ _ => st
  | EClosing c => closing st c
  | EClose c => on_close st c
  | EError c => on_error st c
  end.

(** [server.close]'s callback has run: no socket is left. *)
Definition sigint_exits (st : state) : bool := bool_decide (live st = []).

Section Exec.
Context {J : JsonCodec}.

Definition exec (st : state) (e : event) : state * outbox :=
  match e with
  | EConnect => on_connection st
  | EMessage c raw => (st, on_message st c raw)
  | EClosing c => (closing st c, [])
  | EClose c => (on_close st c, [])
  | EError c => (on_error st c, [])
  end.

Fixpoint run (st : state) (es : list event) : state * outbox :=
  match es with
  | [] => (st, [])
  | e :: es =>
      let '(st1, o1) := exec st e in
      let '(st2, o2) := run st1 es in (st2, o1 ++ o2)
  end.

(** The hardened server (index.js lines 197-248): the same [close] and
    [error] handlers, its own [connection] and [message] handlers. *)
Definition exec_hardened (st : state) (e : event) : state * outbox :=
  match e with
  | EConnect => on_connection_hardened st
  | EMessage c raw => (st, on_message_hardened st c raw)
  | EClosing c => (closing st c, [])
  | EClose c => (on_close st c, [])
  | EError c => (on_error st c, [])
  end.

Inductive reachable : state -> Prop :=
| reach_init : reachable init
| reach_step st e : reachable st -> reachable (exec st e).1.

End Exec.

(** ** Invariant *)

(** The set has no duplicates, holds only sockets already named, and
    none of them is [CLOSED]. *)
Definition inv (st : state) : Prop :=
  NoDup (clients st) ∧
  Forall (λ c, c < next_conn st ∧ ∃ r, rstate st !! c = Some r ∧ r ≠ CLOSED) (clients st).


(** ** The invariant holds in every reachable state *)

Lemma relay_inv_init : inv init.
Proof. split; constructor. Qed.

Lemma on_connection_inv st : inv st -> inv (on_connection st).1.
Proof.
  intros (Hnd & Hcl). unfold on_connection. simpl.
  assert (next_conn st ∉ clients st) as Hnotin.
  { intros Hin. rewrite Forall_forall in Hcl. destruct (Hcl _ Hin) as [? _]. lia. }
  rewrite decide_False by done. split.
  - apply NoDup_app. split_and!; [done| |by apply NoDup_singleton].
    intros x Hx Hs. apply list_elem_of_singleton in Hs. by subst.
  - apply Forall_app. split.
    + eapply Forall_impl; [exact Hcl|]. intros c [Hc (r & Hr & Hne)]. simpl. split; [lia|].
      exists r. rewrite lookup_insert_ne by lia. done.
    + constructor; [|done]. simpl. split; [lia|]. exists OPEN. by rewrite lookup_insert_eq.
Qed.

(** Updating the ready state of a socket to anything but [CLOSED] keeps
    the invariant. *)
Lemma inv_set_ready st c r :
  r ≠ CLOSED -> inv st -> inv (mkState (clients st) (<[c := r]> (rstate st)) (next_conn st)).
Proof.
  intros Hr (Hnd & Hcl). split; [done|]. simpl.
  eapply Forall_impl; [exact Hcl|]. intros d [Hd (r' & Hr' & Hne)]. split; [done|].
  destruct (decide (c = d)) as [->|]; [exists r; by rewrite lookup_insert_eq|].
  exists r'. by rewrite lookup_insert_ne.
Qed.

Lemma remove_inv st c rs :
  (∀ d, d ≠ c -> rs !! d = rstate st !! d) -> inv st ->
  inv (mkState (filter (λ d, d ≠ c) (clients st)) rs (next_conn st)).
Proof.
  intros Hrs (Hnd & Hcl). simpl. split; [by apply NoDup_filter|].
  apply Forall_forall. intros d Hd. apply list_elem_of_filter in Hd as [Hne Hd].
  rewrite Forall_forall in Hcl. destruct (Hcl d Hd) as [Hlt (r & Hr & Hne')].
  split; [done|]. exists r. by rewrite Hrs.
Qed.

Lemma relay_exec_inv `{J : JsonCodec} st e : inv st -> inv (exec st e).1.
Proof.
  intros H. destruct e as [|c raw|c|c|c]; simpl.
  - by apply on_connection_inv.
  - done.
  - unfold closing. destruct (rstate st !! c) as [[]|]; try done. by apply inv_set_ready.
  - apply remove_inv; [|done]. intros d Hd. by rewrite lookup_insert_ne.
  - by apply remove_inv.
Qed.

Lemma relay_reachable_inv `{J : JsonCodec} st : reachable st -> inv st.
Proof. induction 1; [apply relay_inv_init|by apply relay_exec_inv]. Qed.


(** A live socket has been named by the counter. *)
Lemma live_bound `{J : JsonCodec} st c : reachable st -> is_live st c = true -> c < next_conn st.
Proof.
  intros Hr. revert c. induction Hr as [|st e Hr IH]; intros c; [done|].
  destruct e as [|d raw|d|d|d]; simpl; unfold is_live in *; simpl; try apply IH.
  - destruct (decide (c = next_conn st)) as [->|]; [lia|].
    rewrite lookup_insert_ne by done. intros H. specialize (IH c H). lia.
  - unfold closing. destruct (rstate st !! d) as [[]|] eqn:Hd; simpl; try apply IH.
    destruct (decide (c = d)) as [->|]; [intros _; apply IH; by rewrite Hd|].
    rewrite lookup_insert_ne by done. apply IH.
  - destruct (decide (c = d)) as [->|]; [by rewrite lookup_insert_eq|].
    rewrite lookup_insert_ne by done. apply IH.
Qed.

(** Closing the sockets of [l] one after the other. *)
Lemma foldl_on_close l st c :
  (c ∈ clients (foldl on_close st l) <-> c ∈ clients st ∧ c ∉ l) ∧
  rstate (foldl on_close st l) !! c = if decide (c ∈ l) then Some CLOSED else rstate st !! c.
Proof.
  revert st. induction l as [|x l IH]; intros st; cbn [foldl].
  - split; [set_solver|]. case_decide; [set_solver|done].
  - destruct (IH (on_close st x)) as [H1 H2]. simpl in H1, H2. split.
    + rewrite H1, list_elem_of_filter. set_solver.
    + rewrite H2. destruct (decide (c = x)) as [->|Hne].
      * rewrite lookup_insert_eq, (decide_True _ _ (list_elem_of_here x l)). by case_decide.
      * rewrite lookup_insert_ne by done. repeat case_decide; set_solver.
Qed.

(** ** Lemmas on the handlers *)

Section Props.
Context `{J : JsonCodec}.

Lemma try_block_stringify st c v :
  wf v = true -> try_block st c (stringify v) = dispatch st c v.
Proof. intros Hwf. unfold try_block. by rewrite parse_stringify. Qed.

Lemma dispatch_ice st c cand :
  dispatch st c (msg_ice (Some cand)) = inr (broadcast st c (msg_ice (Some cand))).
Proof. reflexivity. Qed.

Lemma send_open st c v : is_open st c = true -> send st c v = inr [(c, v)].
Proof. unfold is_open, send. rewrite bool_decide_eq_true. by intros ->. Qed.

Lemma send_to_open st c v out d w :
  send st c v = inr out -> (d, w) ∈ out -> rstate st !! d = Some OPEN.
Proof.
  unfold send. destruct (rstate st !! c) as [[]|] eqn:Hc; intros [= <-] Hin;
    set_solver.
Qed.

Lemma broadcast_to_open st c v d w :
  (d, w) ∈ broadcast st c v -> rstate st !! d = Some OPEN ∧ d ≠ c.
Proof.
  unfold broadcast. intros (d' & [= -> ->] & Hd)%list_elem_of_fmap.
  apply list_elem_of_filter in Hd as ((Hne & Ho) & _).
  unfold is_open in Ho. by apply bool_decide_eq_true in Ho.
Qed.

Lemma dispatch_to_open st c data out d w :
  dispatch st c data = inr out -> (d, w) ∈ out -> rstate st !! d = Some OPEN.
Proof.
  unfold dispatch. destruct (get data "type") as [|ty]; [done|]. simpl.
  repeat case_match; intros Hd Hin; simplify_eq;
    first [by eapply send_to_open | by eapply broadcast_to_open | set_solver].
Qed.

(** An [ice-candidate] from socket [c] is broadcast as it is. *)
Lemma on_message_ice st c cand :
  wf cand = true ->
  on_message st c (stringify (msg_ice (Some cand))) = broadcast st c (msg_ice (Some cand)).
Proof.
  intros Hwf. unfold on_message.
  rewrite try_block_stringify by (unfold msg_ice; rewrite obj2_some, wf_obj2 by done; by rewrite Hwf).
  by rewrite dispatch_ice.
Qed.

(** A broadcast reaches an open client [d] other than the sender exactly
    once: the outbox splits around the one message for [d]. *)
Lemma broadcast_split st c v d :
  NoDup (clients st) -> d ∈ clients st -> d ≠ c -> is_open st d = true ->
  ∃ l1 l2, broadcast st c v = ((λ e, (e, v)) <$> l1) ++ (d, v) :: ((λ e, (e, v)) <$> l2) ∧
    d ∉ l1 ∧ d ∉ l2.
Proof.
  intros Hnd Hd Hne Ho. unfold broadcast. apply (fmap_filter_split (λ e, (e, v))); [done..|tauto].
Qed.

(** Every message of an outbox is one of the protocol's. *)
Definition typed (out : outbox) : Prop := ∀ d w, (d, w) ∈ out -> ∃ m, w = smsg_json m.

Lemma send_typed st c m out : send st c (smsg_json m) = inr out -> typed out.
Proof.
  unfold send. intros Hs d w Hin. exists m.
  destruct (rstate st !! c) as [[]|]; simplify_eq; set_solver.
Qed.

Lemma send_catch_typed st c m :
  typed (match send st c (smsg_json m) with inl _ => [] | inr out => out end).
Proof. destruct (send st c _) eqn:Hs; [intros ??; set_solver|by eapply send_typed]. Qed.

Lemma broadcast_typed st c m : typed (broadcast st c (smsg_json m)).
Proof.
  intros d w. unfold broadcast. intros (d' & [= -> ->] & _)%list_elem_of_fmap. by exists m.
Qed.

Lemma dispatch_typed st c data out : dispatch st c data = inr out -> typed out.
Proof.
  unfold dispatch. destruct (get data "type") as [|ty]; [done|]. simpl.
  repeat case_match; intros Hd; simplify_eq; try (intros ??; set_solver).
  - by eapply (send_typed _ _ (SOfferCreated _)).
  - by eapply (send_typed _ _ (SAnswerCreated _)).
  - eapply (broadcast_typed _ _ (SIceCandidate _)).
Qed.

Lemma try_block_typed st c raw out : try_block st c raw = inr out -> typed out.
Proof. unfold try_block. destruct (parse raw); [apply dispatch_typed|done]. Qed.

Lemma exec_typed st e : typed (exec st e).2 ∧ typed (exec_hardened st e).2.
Proof.
  destruct e as [|c raw|c|c|c]; simpl; try (split; intros ??; set_solver).
  - unfold on_connection_hardened. simpl. split; [apply (send_catch_typed _ _ SConnected)|].
    case_match; [apply (send_catch_typed _ _ SConnected)|intros ??; set_solver].
  - unfold on_message, on_message_hardened.
    destruct (try_block st c raw) eqn:Ht; [|split; by eapply try_block_typed].
    split; [intros ??; set_solver|apply (send_catch_typed _ _ SError)].
Qed.

(** ** Properties *)

(** C19: the relay never writes to a socket that is not open: every
    message an event produces goes to a socket that is [OPEN] after the
    event (in particular never to a socket whose [close] event ran). *)
Theorem exec_sends_to_open st e d w :
  (d, w) ∈ (exec st e).2 -> rstate (exec st e).1 !! d = Some OPEN.
Proof.
  destruct e as [|c raw|c|c|c]; simpl; try set_solver.
  - unfold on_connection. simpl. case_match eqn:Hs; [set_solver|].
    intros Hin. exact (send_to_open _ _ _ _ _ _ Hs Hin).
  - unfold on_message, try_block. destruct (parse raw) as [data|]; [|set_solver].
    destruct (dispatch st c data) as [|out] eqn:Hd; [set_solver|].
    intros Hin. by eapply dispatch_to_open.
Qed.

(** C12: the relay speaks its protocol.  Every message the final or the
    hardened server sends, on any event in any state, is one of the five
    messages of the protocol, and its [type] field is that message's
    tag, the one the client's [ws.onmessage] dispatches on. *)
Theorem relay_messages_typed st e d w :
  (d, w) ∈ (exec st e).2 ∨ (d, w) ∈ (exec_hardened st e).2 ->
  ∃ m, w = smsg_json m ∧ get w "type" = inr (Some (JStr (smsg_type m))).
Proof.
  intros Hin. destruct (exec_typed st e) as [H1 H2].
  assert (∃ m, w = smsg_json m) as [m ->] by (destruct Hin; [eapply H1|eapply H2]; done).
  exists m. split; [done|]. by destruct m as [| |[]|[]|[]].
Qed.

(** The health report is bounded.  In every reachable state the
    [clients] count that [GET /health] reports is the size of the set,
    and never exceeds the number of connections the server has accepted:
    no socket is counted twice. *)
Theorem health_clients_bounded st now :
  reachable st ->
  get (health st now) "clients" = inr (Some (JNum (Z.of_nat (length (clients st))))) ∧
  length (clients st) ≤ next_conn st.
Proof.
  intros Hr. split; [done|]. destruct (relay_reachable_inv st Hr) as [Hnd Hcl].
  transitivity (length (seq 0 (next_conn st))); [|by rewrite length_seq].
  apply NoDup_incl_length; [by apply NoDup_ListNoDup|].
  intros c Hc. rewrite Forall_forall in Hcl. apply list_elem_of_In, elem_of_seq.
  destruct (Hcl c) as [? _]; [by apply list_elem_of_In|lia].
Qed.

(** C24: shutdown closes every connection.  From any reachable state,
    the graceful shutdown leaves the set of clients empty and no socket
    open, including a socket whose [error] event removed it from the set
    but left it open. *)
Theorem shutdown_closes_all st :
  reachable st -> clients (shutdown st) = [] ∧ ∀ c, rstate (shutdown st) !! c ≠ Some OPEN.
Proof.
  intros Hr. destruct (relay_reachable_inv st Hr) as [_ Hcl]. rewrite Forall_forall in Hcl.
  unfold shutdown. split.
  - apply elem_of_nil_inv. intros c Hc. apply foldl_on_close in Hc as [Hc Hnl].
    destruct (Hcl c Hc) as (Hlt & r & Hr' & Hne). apply Hnl, list_elem_of_filter.
    split; [unfold is_live; rewrite Hr'; by destruct r|apply elem_of_seq; lia].
  - intros c. rewrite (proj2 (foldl_on_close _ _ c)). case_decide as Hin; [done|].
    intros Ho. apply Hin, list_elem_of_filter.
    assert (is_live st c = true) as Hl by (unfold is_live; by rewrite Ho).
    split; [done|]. apply elem_of_seq. pose proof (live_bound st c Hr Hl). lia.
Qed.

(** C23: the hardened server refines the final one.  On every event it
    goes to the same state and sends the same messages, except for a
    message that throws inside the [try], which the final server only
    logs and the hardened server answers with [{ type: 'error' }] when
    the sender is open. *)
Theorem hardened_refines st e :
  (exec_hardened st e).1 = (exec st e).1 ∧
  ((exec_hardened st e).2 = (exec st e).2 ∨
   ∃ c raw err, e = EMessage c raw ∧ try_block st c raw = inl err ∧ (exec st e).2 = [] ∧
     (exec_hardened st e).2 = if is_open st c then [(c, msg_error)] else []).
Proof.
  destruct e as [|c raw|c|c|c]; simpl; try (split; [done|by left]).
  - unfold on_connection_hardened. split; [done|left].
    rewrite send_open by (unfold is_open; simpl; by rewrite lookup_insert_eq).
    unfold is_open. simpl. by rewrite lookup_insert_eq.
  - split; [done|]. unfold on_message, on_message_hardened.
    destruct (try_block st c raw) as [err|out] eqn:Ht; [right|by left].
    exists c, raw, err. split_and!; [done..|].
    unfold is_open, send. destruct (rstate st !! c) as [[]|]; done.
Qed.

(** C6: ICE candidates reach exactly the other peers.  In a reachable
    state where the [K] connected clients are all open, an
    [ice-candidate] message from one of them is forwarded, unchanged, to
    each of the [K - 1] others, in the set's order, and never back to its
    sender. *)
Theorem ice_candidate_to_all_others st c cand :
  reachable st -> c ∈ clients st -> Forall (λ d, is_open st d = true) (clients st) ->
  wf cand = true ->
  on_message st c (stringify (msg_ice (Some cand))) =
    (λ d, (d, msg_ice (Some cand))) <$> filter (λ d, d ≠ c) (clients st) ∧
  length (on_message st c (stringify (msg_ice (Some cand)))) = length (clients st) - 1.
Proof.
  intros Hr Hc Hopen Hwf. destruct (relay_reachable_inv st Hr) as [Hnd _].
  assert (on_message st c (stringify (msg_ice (Some cand))) =
          (λ d, (d, msg_ice (Some cand))) <$> filter (λ d, d ≠ c) (clients st)) as ->.
  { unfold on_message. rewrite try_block_stringify
      by (unfold msg_ice; rewrite obj2_some, wf_obj2 by done; by rewrite Hwf).
    rewrite dispatch_ice. unfold broadcast. f_equal. apply list_filter_ext_elem. intros d Hd.
    rewrite Forall_forall in Hopen. specialize (Hopen d Hd). tauto. }
  split; [done|]. rewrite length_fmap. by apply length_filter_neq.
Qed.


(** The messages the client sends for its own descriptions:
    [{ type: 'offer', offer }] and [{ type: 'answer', answer }]. *)
Definition msg_offer (offer : jvalue) : jvalue :=
  obj [("type", Some (JStr "offer")); ("offer", Some offer)].
Definition msg_answer (answer : jvalue) : jvalue :=
  obj [("type", Some (JStr "answer")); ("answer", Some answer)].

Lemma on_message_offer st c sdp :
  is_open st c = true -> wf sdp = true ->
  on_message st c (stringify (msg_offer sdp)) = [(c, msg_offer_created (Some sdp))].
Proof.
  intros Ho Hwf. unfold on_message, msg_offer. rewrite obj2_some.
  rewrite try_block_stringify by (rewrite wf_obj2 by done; by rewrite Hwf).
  unfold dispatch. simpl. by rewrite send_open.
Qed.

Lemma on_message_answer st c sdp :
  is_open st c = true -> wf sdp = true ->
  on_message st c (stringify (msg_answer sdp)) = [(c, msg_answer_created (Some sdp))].
Proof.
  intros Ho Hwf. unfold on_message, msg_answer. rewrite obj2_some.
  rewrite try_block_stringify by (rewrite wf_obj2 by done; by rewrite Hwf).
  unfold dispatch. simpl. by rewrite send_open.
Qed.

(** The echo.  An offer (an answer) from an open socket is sent back
    to that socket alone, as [offer-created] ([answer-created]) carrying
    the same description; nothing reaches any other peer. *)
Theorem offer_answer_echo st c sdp :
  is_open st c = true -> wf sdp = true ->
  on_message st c (stringify (msg_offer sdp)) = [(c, msg_offer_created (Some sdp))] ∧
  on_message st c (stringify (msg_answer sdp)) = [(c, msg_answer_created (Some sdp))].
Proof. intros Ho Hwf. split; [by apply on_message_offer|by apply on_message_answer]. Qed.

(** C36: malformed messages.  A message that is not JSON, or is the JSON
    [null] (whose [data.type] throws), leaves the set untouched; the
    final server sends nothing, the hardened server answers the sender
    alone with [{ type: 'error' }] when it is open. *)
Theorem malformed_message st c raw :
  parse raw = None ∨ parse raw = Some JNull ->
  on_message st c raw = [] ∧
  on_message_hardened st c raw = (if is_open st c then [(c, msg_error)] else []).
Proof.
  intros Hp. assert (∃ e, try_block st c raw = inl e) as [e He].
  { unfold try_block. destruct Hp as [-> | ->]; eauto. }
  unfold on_message, on_message_hardened. rewrite He. split; [done|].
  unfold is_open, send. destruct (rstate st !! c) as [[]|]; done.
Qed.

(** No per-connection state survives a disconnect.  In a reachable
    state the set never holds a socket whose [close] event has run, and
    holds each socket once. *)
Theorem closed_not_in_clients st c :
  reachable st -> rstate st !! c = Some CLOSED -> c ∉ clients st ∧ NoDup (clients st).
Proof.
  intros Hr Hc. destruct (relay_reachable_inv st Hr) as [Hnd Hcl]. split; [|done].
  intros Hin. rewrite Forall_forall in Hcl. destruct (Hcl c Hin) as (_ & r & Hr' & Hne).
  congruence.
Qed.

(** A live socket stays live through every event but its own [close]. *)
Lemma sigint_step_live st e c :
  is_live st c = true -> e ≠ EClose c -> is_live (sigint_step st e) c = true ∧
  next_conn (sigint_step st e) = next_conn st.
Proof.
  intros Hl He. destruct e as [|d raw|d|d|d]; cbn [sigint_step]; [done|done| | |done].
  - unfold closing. destruct (rstate st !! d) as [[]|] eqn:Hd; try done. split; [|done].
    unfold is_live in *. cbn. destruct (decide (d = c)) as [->|Hne].
    + by rewrite lookup_insert_eq.
    + by rewrite lookup_insert_ne.
  - split; [|done]. unfold is_live in *. cbn. rewrite lookup_insert_ne; [done|]. congruence.
Qed.

Lemma live_iff st c : c ∈ live st <-> c < next_conn st ∧ is_live st c = true.
Proof. unfold live. rewrite list_elem_of_filter, elem_of_seq. naive_solver lia. Qed.

Lemma run_reachable st es : reachable st -> reachable (run st es).1.
Proof.
  revert st. induction es as [|e es IH]; intros st Hst; simpl; [done|].
  specialize (IH (exec st e).1 (reach_step _ e Hst)).
  destruct (exec st e) as [st1 o1]. simpl in IH. by destruct (run st1 es).
Qed.
(** C25: Ctrl-C does not stop the final server.  After [SIGINT] the final
    server's process exits only when every socket that was connected
    has gone through its [close] event: as long as one client stays
    connected, whatever else happens, it keeps running.  (The hardened
    server terminates the sockets itself: [shutdown_closes_all].) *)
Theorem sigint_waits_for_clients st es c :
  c ∈ live st -> EClose c ∉ es -> sigint_exits (foldl sigint_step st es) = false.
Proof.
  intros Hc Hes. apply bool_decide_eq_false_2. intros Hnil.
  enough (c ∈ live (foldl sigint_step st es)) as Hin by (rewrite Hnil in Hin; set_solver).
  clear Hnil. revert st Hc. induction es as [|e es IH]; intros st Hc; [done|]. cbn [foldl].
  apply IH; [set_solver|]. apply live_iff in Hc as [Hlt Hl]. apply live_iff.
  destruct (sigint_step_live st e c Hl) as [-> ->]; [set_solver|done].
Qed.

End Props.

(** ** Witnesses, with the concrete codec *)

(** Three peers connected; peer 2 has gone through [close]. *)
Definition three_peers : state := (@run codec init [EConnect; EConnect; EConnect]).1.
Definition peer_left : state := (@run codec init [EConnect; EConnect; EConnect; EClose 2]).1.

Lemma three_peers_reachable : @reachable codec three_peers.
Proof. apply run_reachable, reach_init. Qed.

Lemma peer_left_reachable : @reachable codec peer_left.
Proof. apply run_reachable, reach_init. Qed.

Lemma ice_candidate_witness :
  @on_message codec three_peers 0 (enc (msg_ice (Some (JStr "cand")))) =
    (λ d, (d, msg_ice (Some (JStr "cand")))) <$> filter (λ d, d ≠ 0) (clients three_peers) ∧
  length (@on_message codec three_peers 0 (enc (msg_ice (Some (JStr "cand"))))) =
    length (clients three_peers) - 1.
Proof.
  apply (@ice_candidate_to_all_others codec);
    [apply three_peers_reachable|vm_compute; set_solver|vm_compute; repeat constructor|reflexivity].
Defined.

Lemma offer_answer_witness :
  @on_message codec three_peers 1 (enc (msg_offer (JStr "sdp"))) =
    [(1, msg_offer_created (Some (JStr "sdp")))] ∧
  @on_message codec three_peers 1 (enc (msg_answer (JStr "sdp"))) =
    [(1, msg_answer_created (Some (JStr "sdp")))].
Proof. apply (@offer_answer_echo codec); reflexivity. Defined.

Lemma malformed_witness :
  @on_message codec three_peers 1 "<html>" = [] ∧
  @on_message_hardened codec three_peers 1 "<html>" =
    (if is_open three_peers 1 then [(1, msg_error)] else []).
Proof. apply (@malformed_message codec). left. reflexivity. Defined.

Lemma exec_sends_witness :
  rstate (@exec codec three_peers (EMessage 0 (enc (msg_ice (Some (JStr "cand")))))).1 !! 1 =
    Some OPEN.
Proof.
  apply (@exec_sends_to_open codec _ _ _ (msg_ice (Some (JStr "cand")))).
  apply list_elem_of_In. vm_compute. auto.
Defined.

Lemma closed_witness : 2 ∉ clients peer_left ∧ NoDup (clients peer_left).
Proof. apply (@closed_not_in_clients codec); [apply peer_left_reachable|reflexivity]. Defined.
Lemma relay_messages_typed_witness :
  ∃ m, msg_error = smsg_json m ∧ get msg_error "type" = inr (Some (JStr (smsg_type m))).
Proof.
  apply (@relay_messages_typed codec three_peers (EMessage 0 "nonsense") 0 msg_error).
  right. apply list_elem_of_singleton. vm_compute. reflexivity.
Defined.

Lemma health_witness :
  get (health three_peers "2025-01-01T00:00:00.000Z") "clients" = inr (Some (JNum 3)) ∧
  length (clients three_peers) ≤ next_conn three_peers.
Proof. apply (@health_clients_bounded codec), three_peers_reachable. Defined.

Lemma shutdown_witness :
  clients (shutdown peer_left) = [] ∧ ∀ c, rstate (shutdown peer_left) !! c ≠ Some OPEN.
Proof. apply (@shutdown_closes_all codec), peer_left_reachable. Defined.
(** After Ctrl-C with three peers connected, peers 0 and 2 leave and
    peer 1 sends a message: the process is still running; once all three
    have closed, it exits. *)
Lemma sigint_witness :
  sigint_exits (foldl sigint_step three_peers [EClose 0; EClose 2; EMessage 1 "x"]) = false.
Proof.
  apply (sigint_waits_for_clients three_peers _ 1); [vm_compute; set_solver|].
  intros H. repeat (apply elem_of_cons in H as [H|H]; [discriminate|]). by apply elem_of_nil in H.
Defined.

Example sigint_all_closed :
  sigint_exits (foldl sigint_step three_peers [EClose 0; EClose 1; EClose 2]) = true.
Proof. vm_compute. reflexivity. Qed.

End Relay.
