(* ===== verification/Startup.v ===== *)
(** * Startup: the public URLs of the hardened server

    [src/index.js] lines 315-340: [PORT] and the [server.listen]
    callback, which builds the public HTTP and WebSocket URLs from
    [RENDER_EXTERNAL_URL] or [HOSTNAME] and prints them.  The WHATWG
    [URL] constructor is the class [UrlParser], with the two facts the
    code relies on: a text with no scheme is refused (a relative URL
    without a base), and [http://h] or [https://h] with a host name [h]
    parses to that host, its [href] ending in [/].  [demo_url] is an
    instance for the witnesses. *)

From S2P Require Import Prelude.
From stdpp Require Import pretty.
From Stdlib Require Import Ascii.

Module Startup.

(** The fields of a [URL] the callback reads. *)
Record url := mkUrl { protocol : string; host : string; href : string }.

(** A host name: lower-case letters, digits, [-] and [.]. *)
Definition host_char (c : ascii) : bool :=
  let n := nat_of_ascii c in bool_decide (48 ≤ n ≤ 57 ∨ 97 ≤ n ≤ 122 ∨ n = 45 ∨ n = 46).

Definition plain_host (h : string) : bool :=
  bool_decide (h ≠ EmptyString) && forallb host_char (String.list_ascii_of_string h).

Definition has_colon (s : string) : bool :=
  existsb (λ c, bool_decide (c = ":"%char)) (String.list_ascii_of_string s).

Class UrlParser := {
  parse_url : string -> option url;
  url_relative : ∀ s, has_colon s = false -> parse_url s = None;
  url_host : ∀ sch h, sch = "http" ∨ sch = "https" -> plain_host h = true ->
    parse_url (sch +:+ "://" +:+ h) = Some (mkUrl (sch +:+ ":") h (sch +:+ "://" +:+ h +:+ "/"))
}.

(** [a || b] on environment variables: an unset or empty variable is
    falsy. *)
Definition env_or (a b : option string) : option string :=
  match a with Some s => if String.eqb s "" then b else Some s | None => b end.

(** [const PORT = process.env.PORT || 3000] (line 315). *)
Definition listen_port (env_port : option string) : string := default "3000" (env_or env_port None).

(** [process.env.RENDER_EXTERNAL_URL || process.env.HOSTNAME || null]
    (line 318). *)
Definition render_url (render hostname : option string) : option string :=
  env_or render (env_or hostname None).

(** [s.replace(/\/$/, '')]: one trailing [/] removed. *)
Definition strip_slash (s : string) : string :=
  match rev (String.list_ascii_of_string s) with
  | "/"%char :: r => String.string_of_list_ascii (rev r)
  | _ => s
  end.

Section WithUrl.
Context `{U : UrlParser}.

(** Lines 319-330: [publicHttp] and [publicWs], [None] for [null]. *)
Definition public_urls (renderUrl : option string) : option (string * string) :=
  match renderUrl with
  | None => None
  | Some r =>
      let normalized := if String.prefix "http" r then r else "https://" +:+ r in
      Some (match parse_url normalized with
            | Some u =>
                (strip_slash (href u),
                 (if String.eqb (protocol u) "https:" then "wss" else "ws") +:+ "://" +:+ host u)
            | None =>
                (normalized, if String.prefix "https" normalized then "wss://" +:+ r else "ws://" +:+ r)
            end)
  end.

(** Lines 316-340: the lines the callback prints. *)
Definition listen_log (env_port render hostname : option string) (nclients : nat) : list string :=
  ["Server listening on port " +:+ listen_port env_port] ++
  match public_urls (render_url render hostname) with
  | Some (h, w) =>
      if negb (String.eqb h "") && negb (String.eqb w "") then
        ["Public HTTP: " +:+ h; "Public WebSocket (use wss if site is https): " +:+ w]
      else ["Public URL not detected in env; use the site URL shown in your host (Render) dashboard."]
  | None => ["Public URL not detected in env; use the site URL shown in your host (Render) dashboard."]
  end ++
  ["Connected clients: " +:+ pretty (N.of_nat nclients)].

(** The client's signaling socket, [src/unnamed/part_000] lines 11-12:
    [wss] for a page served over [https:], [ws] otherwise, on the
    page's host. *)
Definition client_ws_url (page_protocol page_host : string) : string :=
  (if String.eqb page_protocol "https:" then "wss" else "ws") +:+ "://" +:+ page_host +:+ "/".

End WithUrl.

(** ** The URLs built *)

Lemma plain_host_no_colon h : plain_host h = true -> has_colon h = false.
Proof.
  unfold plain_host, has_colon. intros [_ Hh]%andb_prop.
  apply not_true_is_false. intros (c & Hc & Heq)%existsb_exists.
  apply bool_decide_eq_true in Heq as ->. rewrite forallb_forall in Hh.
  specialize (Hh _ Hc). done.
Qed.

Lemma strip_slash_app s : strip_slash (s +:+ "/") = s.
Proof.
  unfold strip_slash. rewrite str_list_app. simpl. rewrite rev_app_distr. simpl.
  by rewrite rev_involutive, String.string_of_list_ascii_of_string.
Qed.

Section UrlProofs.
Context `{U : UrlParser}.

(** A render URL that carries its scheme and a host name. *)
Lemma public_urls_scheme sch h :
  sch = "http" ∨ sch = "https" -> plain_host h = true ->
  public_urls (Some (sch +:+ "://" +:+ h)) =
    Some (sch +:+ "://" +:+ h, (if String.eqb sch "https" then "wss" else "ws") +:+ "://" +:+ h).
Proof.
  intros Hsch Hh. unfold public_urls.
  assert (String.prefix "http" (sch +:+ "://" +:+ h) = true) as ->
    by (destruct Hsch as [-> | ->]; reflexivity).
  rewrite url_host by done. cbn [href protocol host].
  rewrite !str_app_assoc, strip_slash_app, <- !str_app_assoc.
  by destruct Hsch as [-> | ->].
Qed.

(** A bare host name that does not start with [http] is given [https://]. *)
Lemma public_urls_bare h :
  plain_host h = true -> String.prefix "http" h = false ->
  public_urls (Some h) = Some ("https://" +:+ h, "wss://" +:+ h).
Proof.
  intros Hh Hp. unfold public_urls. rewrite Hp.
  change ("https://" +:+ h) with ("https" +:+ "://" +:+ h).
  rewrite url_host by auto. cbn [href protocol host].
  rewrite !str_app_assoc, strip_slash_app, <- !str_app_assoc. reflexivity.
Qed.

(** A page loaded from [sch://h] opens its socket on the same host. *)
Lemma client_ws_url_scheme sch h :
  sch = "http" ∨ sch = "https" -> plain_host h = true ->
  ∃ u, parse_url (sch +:+ "://" +:+ h) = Some u ∧
    client_ws_url (protocol u) (host u) =
      ((if String.eqb sch "https" then "wss" else "ws") +:+ "://" +:+ h) +:+ "/".
Proof.
  intros Hsch Hh. rewrite url_host by done. eexists. split; [done|].
  unfold client_ws_url. cbn [protocol host]. rewrite <- !str_app_assoc.
  by destruct Hsch as [-> | ->].
Qed.

(** Public URLs of a host.  A render URL given as [https://h] or
    [http://h], or as a bare host name [h] that does not start with
    [http], yields the HTTP URL without its trailing [/] and the
    WebSocket URL of the same host, [wss] exactly for [https]. *)
Theorem public_urls_host h :
  plain_host h = true ->
  (String.prefix "http" h = false -> public_urls (Some h) = Some ("https://" +:+ h, "wss://" +:+ h)) ∧
  public_urls (Some ("https://" +:+ h)) = Some ("https://" +:+ h, "wss://" +:+ h) ∧
  public_urls (Some ("http://" +:+ h)) = Some ("http://" +:+ h, "ws://" +:+ h).
Proof.
  intros Hh. split_and!; [by apply public_urls_bare|apply (public_urls_scheme "https"); auto
                          |apply (public_urls_scheme "http"); auto].
Qed.

(** C35: the client finds the relay the server announces.  When the
    render URL is a host name (not starting with [http]) or an
    [https://] or [http://] URL of a host name, a page loaded from the
    public HTTP URL the server prints opens its signaling socket
    (part_000 lines 11-12) on the public WebSocket URL the server
    prints, followed by [/]. *)
Theorem client_socket_matches r h :
  plain_host h = true ->
  (r = h ∧ String.prefix "http" h = false) ∨ r = "https://" +:+ h ∨ r = "http://" +:+ h ->
  ∃ http ws u, public_urls (Some r) = Some (http, ws) ∧ parse_url http = Some u ∧
    client_ws_url (protocol u) (host u) = ws +:+ "/".
Proof.
  intros Hh [[-> Hp] | [-> | ->]].
  - rewrite public_urls_bare by done.
    destruct (client_ws_url_scheme "https" h) as (u & Hu & Hw); [auto|done|].
    by exists ("https" +:+ "://" +:+ h), ("wss://" +:+ h), u.
  - change ("https://" +:+ h) with ("https" +:+ "://" +:+ h).
    rewrite (public_urls_scheme "https") by auto.
    destruct (client_ws_url_scheme "https" h) as (u & Hu & Hw); [auto|done|]. by do 3 eexists.
  - change ("http://" +:+ h) with ("http" +:+ "://" +:+ h).
    rewrite (public_urls_scheme "http") by auto.
    destruct (client_ws_url_scheme "http" h) as (u & Hu & Hw); [auto|done|]. by do 3 eexists.
Qed.

(** C34: a host name that starts with [http] is taken for a URL.  A bare
    host name such as [httpbin.example.com] is not given the [https://]
    scheme: [new URL] throws on it, the HTTP URL printed is the bare
    name and the WebSocket URL is [ws://] unless the name starts with
    [https]. *)
Theorem public_urls_http_host h :
  plain_host h = true -> String.prefix "http" h = true ->
  public_urls (Some h) = Some (h, (if String.prefix "https" h then "wss://" else "ws://") +:+ h).
Proof.
  intros Hh Hp. unfold public_urls. rewrite Hp, url_relative by (by apply plain_host_no_colon).
  by destruct (String.prefix "https" h).
Qed.

(** An unparsable render URL doubles its scheme.  When
    [RENDER_EXTERNAL_URL] is an [https://] text that [new URL] refuses,
    the [catch] prints it as the HTTP URL and prefixes the whole text,
    scheme included, with [wss://]. *)
Theorem public_urls_unparsable rest :
  parse_url ("https://" +:+ rest) = None ->
  public_urls (Some ("https://" +:+ rest)) =
    Some ("https://" +:+ rest, "wss://" +:+ "https://" +:+ rest).
Proof. intros Hu. unfold public_urls. simpl. by rewrite Hu. Qed.

End UrlProofs.

(** ** A URL parser for the witnesses *)

Definition demo_parse (s : string) : option url :=
  if has_colon s then
    match String.list_ascii_of_string s with
    | "h" :: "t" :: "t" :: "p" :: "s" :: ":" :: "/" :: "/" :: l =>
        let h := String.string_of_list_ascii l in
        if plain_host h then Some (mkUrl "https:" h ("https://" +:+ h +:+ "/")) else None
    | "h" :: "t" :: "t" :: "p" :: ":" :: "/" :: "/" :: l =>
        let h := String.string_of_list_ascii l in
        if plain_host h then Some (mkUrl "http:" h ("http://" +:+ h +:+ "/")) else None
    | _ => None
    end%char
  else None.

Definition demo_url : UrlParser.
Proof.
  refine {| parse_url := demo_parse |}.
  - intros s Hs. unfold demo_parse. by rewrite Hs.
  - intros sch h Hsch Hh. unfold demo_parse, has_colon.
    destruct Hsch as [-> | ->]; rewrite !str_list_app; simpl;
      by rewrite String.string_of_list_ascii_of_string, Hh.
Defined.

(** ** Witnesses *)

Lemma public_urls_host_witness :
  @public_urls demo_url (Some "sendu.onrender.com") =
    Some ("https://sendu.onrender.com", "wss://sendu.onrender.com") ∧
  @public_urls demo_url (Some "https://sendu.onrender.com") =
    Some ("https://sendu.onrender.com", "wss://sendu.onrender.com") ∧
  @public_urls demo_url (Some "http://sendu.onrender.com") =
    Some ("http://sendu.onrender.com", "ws://sendu.onrender.com").
Proof.
  destruct (@public_urls_host demo_url "sendu.onrender.com") as (H1 & H2 & H3); [reflexivity|].
  split_and!; [apply H1; reflexivity|exact H2|exact H3].
Defined.

Lemma public_urls_http_host_witness :
  @public_urls demo_url (Some "httpbin.example.com") =
    Some ("httpbin.example.com", "ws://httpbin.example.com").
Proof. apply (@public_urls_http_host demo_url); reflexivity. Defined.

Lemma public_urls_unparsable_witness :
  @public_urls demo_url (Some "https://my relay.onrender.com") =
    Some ("https://my relay.onrender.com", "wss://https://my relay.onrender.com").
Proof. apply (@public_urls_unparsable demo_url "my relay.onrender.com"); reflexivity. Defined.

Lemma client_socket_matches_witness :
  ∃ http ws u, @public_urls demo_url (Some "sendu.onrender.com") = Some (http, ws) ∧
    @parse_url demo_url http = Some u ∧ client_ws_url (protocol u) (host u) = ws +:+ "/".
Proof.
  apply (@client_socket_matches demo_url "sendu.onrender.com" "sendu.onrender.com");
    [reflexivity|left; split; reflexivity].
Defined.

(** What the server prints when Render gives it its host name. *)
Example listen_log_render :
  @listen_log demo_url None (Some "sendu.onrender.com") None 0 =
    ["Server listening on port 3000"; "Public HTTP: https://sendu.onrender.com";
     "Public WebSocket (use wss if site is https): wss://sendu.onrender.com";
     "Connected clients: 0"].
Proof. vm_compute. reflexivity. Qed.

End Startup.
