(* ===== verification/Transfer.v ===== *)
(** * The chunked file transfer

    [src/unnamed/part_000] lines 256-298.  The sender ([shareBtn]'s click
    handler, [sendFiles], [readSlice] and the [FileReader]'s [onload])
    sends one JSON metadata message and then the file in slices of
    [chunkSize] bytes, reading the next slice only when the previous one
    has been sent.  The receiver ([receiveFile]) treats every string as
    metadata and every binary message as the next chunk, and hands the
    concatenated chunks to the download once their total length equals
    the declared size.

    [Sender] keeps the page's globals [currentFile], [offset] and
    [fileReader], and the reads in flight of every [FileReader] the page
    created (the reader of an earlier click keeps its [onload]).  Its
    steps are the click and the completion of a read; each returns the
    data-channel messages it sends.  [Receiver] keeps [receivedSize],
    [receivedChunks] and [fileMetadata]; its step returns the downloads
    it starts and the exception it throws, with the globals as they are
    when it throws.

    Theorems: with enough completed reads the sender emits the metadata
    and the reference chunking of the file ([send_transcript]); the
    receiver, fed that transcript over the ordered channel, downloads
    the file exactly once, after the last chunk ([transfer_end_to_end]);
    the scenario of the spec; a chunk before any metadata throws without
    completing; and the corruption a second click during a transfer
    causes.  [Sender.exec] and [Sender.reachable] make the page an event
    loop of clicks and completions: in every reachable state no binary
    frame exceeds [chunkSize] ([frames_bounded]), the completions form a
    well-founded relation ([sender_loads_terminate]) and at most
    [pending_work] of them reach a state with no read in flight
    ([sender_quiesces]). *)

From S2P Require Import Prelude Json.
From Stdlib Require Import Init.Byte.

(** ** Data-channel messages and files *)

(** [dataChannel.send(string)] and [dataChannel.send(ArrayBuffer)]. *)
Inductive dmsg := DText (s : string) | DBin (b : list byte).

(** The fields of a [File] the code reads. *)
Record file := mkFile { f_name : string; f_type : string; f_data : list byte }.

Definition f_size (f : file) : nat := length (f_data f).

(** [const chunkSize = 16384] (line 258). *)
Definition chunkSize : nat := 16384.
Arguments chunkSize : simpl never.

(** [file.slice(o, o + chunkSize)]: clamped to the end of the file. *)
Definition slice (f : file) (o : nat) : list byte := take chunkSize (drop o (f_data f)).

(** [{ type: 'metadata', name, size, fileType }] (line 268). *)
Definition metadata (f : file) : jvalue :=
  JObj [("type", JStr "metadata"); ("name", JStr (f_name f));
        ("size", JNum (Z.of_nat (f_size f))); ("fileType", JStr (f_type f))].

(** ** The reference chunking *)

(** The file cut into [chunkSize] slices; a file that fits one slice,
    the empty file included, is one chunk.  Fuel bounds the number of
    chunks. *)
Fixpoint chunks (fuel : nat) (l : list byte) : list (list byte) :=
  match fuel with
  | 0 => []
  | S fuel =>
      if decide (length l ≤ chunkSize) then [l]
      else take chunkSize l :: chunks fuel (drop chunkSize l)
  end.

(** The number of chunks: [max 1 (ceil (size / chunkSize))]. *)
Definition n_chunks (size : nat) : nat := Nat.max 1 ((size + chunkSize - 1) / chunkSize).

Module Sender.

Record state := mkState {
  currentFile : option file;
  offset : nat;
  fileReader : nat;
  next_reader : nat;
  reads : list (nat * list byte)
}.

Definition init : state := mkState None 0 0 1 [].

(** [fileReader.readAsArrayBuffer(slice)]: throws when that reader is
    still reading. *)
Definition read_slice (st : state) (o : nat) : throws state :=
  match currentFile st with
  | None => inl TypeError
  | Some f =>
      if decide (fileReader st ∈ (reads st).*1) then inl InvalidStateError
      else inr (mkState (currentFile st) (offset st) (fileReader st) (next_reader st)
                        (reads st ++ [(fileReader st, slice f o)]))
  end.

Section WithJson.
Context {J : JsonCodec}.

(** [sendFiles()]: the first selected file becomes [currentFile], the
    metadata is sent, a new [FileReader] becomes [fileReader] and reads
    the first slice. *)
Definition send_files (f : file) (st : state) : state * list dmsg * option exn :=
  let r := next_reader st in
  let st1 := mkState (Some f) 0 r (S r) (reads st) in
  let out := [DText (stringify (metadata f))] in
  match read_slice st1 0 with
  | inl e => (st1, out, Some e)
  | inr st2 => (st2, out, None)
  end.

(** The click handler of [shareBtn] (lines 260-264): refuse without an
    open channel or a selected file. *)
Definition share (channel_open : bool) (selected : list file) (st : state)
    : state * list dmsg * option exn :=
  if negb channel_open then (st, [], None)
  else match selected with
       | [] => (st, [], None)
       | f :: _ => send_files f st
       end.

(** [fileReader.onload] of reader [r], whose read produced [b]
    (lines 271-277): send the chunk, advance [offset], and read the next
    slice with the current [fileReader] while [offset < size]. *)
Definition on_load (r : nat) (st : state) : state * list dmsg * option exn :=
  match list_find (λ rb, rb.1 = r) (reads st), currentFile st with
  | Some (i, (_, b)), Some f =>
      let st1 := mkState (currentFile st) (offset st + length b) (fileReader st)
                         (next_reader st) (delete i (reads st)) in
      let out := [DBin b] in
      if decide (offset st1 < f_size f) then
        match read_slice st1 (offset st1) with
        | inl e => (st1, out, Some e)
        | inr st2 => (st2, out, None)
        end
      else (st1, out, None)
  | _, _ => (st, [], None)
  end.

(** The page left alone: the current reader's read completes, [fuel]
    times at most. *)
Fixpoint drive (fuel : nat) (st : state) : state * list dmsg :=
  match fuel with
  | 0 => (st, [])
  | S fuel =>
      if decide (fileReader st ∈ (reads st).*1) then
        let '(st1, out1, _) := on_load (fileReader st) st in
        let '(st2, out2) := drive fuel st1 in (st2, out1 ++ out2)
      else (st, [])
  end.

(** The user clicks [shareBtn] once with an open channel, and the page
    is then left alone while [fuel] reads complete. *)
Definition click_and_wait (fuel : nat) (selected : list file) (st : state)
    : state * list dmsg :=
  let '(st1, out1, _) := share true selected st in
  let '(st2, out2) := drive fuel st1 in (st2, out1 ++ out2).

(** The events of the page that drive the sender: a click on
    [shareBtn] (lines 260-264) with the channel's state and the
    selection, and the completion of the read of reader [r], which runs
    its [onload] (lines 271-277).  Reads complete in any order. *)
Inductive event := EClick (channel_open : bool) (selected : list file) | ELoad (r : nat).

Definition exec (e : event) (st : state) : state * list dmsg * option exn :=
  match e with
  | EClick o sel => share o sel st
  | ELoad r => on_load r st
  end.

Inductive reachable : state -> Prop :=
| reach_init : reachable init
| reach_step e st : reachable st -> reachable (exec e st).1.1.

End WithJson.
End Sender.

Module Receiver.

Record state := mkState {
  receivedSize : nat;
  receivedChunks : list (list byte);
  fileMetadata : jvalue
}.

(** [let receivedSize = 0, receivedChunks = [], fileMetadata = null]. *)
Definition init : state := mkState 0 [] JNull.

(** [downloadFile(new Blob(receivedChunks, { type }), name)]. *)
Record download := mkDownload {
  d_name : option jvalue;
  d_type : option jvalue;
  d_data : list byte
}.

(** [receivedSize === fileMetadata.size]: a number equal to the count. *)
Definition size_reached (n : nat) (size : option jvalue) : bool :=
  match size with Some (JNum z) => bool_decide (z = Z.of_nat n) | _ => false end.

Section WithJson.
Context {J : JsonCodec}.

(** [receiveFile(ev)] (lines 284-298). *)
Definition receive (m : dmsg) (st : state) : state * list download * option exn :=
  match m with
  | DText s =>
      match parse s with
      | None => (st, [], Some SyntaxError)
      | Some md =>
          let st1 := mkState 0 [] md in
          match get md "name" with
          | inl e => (st1, [], Some e)
          | inr _ => (st1, [], None)
          end
      end
  | DBin b =>
      let st1 := mkState (receivedSize st + length b) (receivedChunks st ++ [b])
                         (fileMetadata st) in
      match get (fileMetadata st1) "size" with
      | inl e => (st1, [], Some e)
      | inr size =>
          if size_reached (receivedSize st1) size then
            match get (fileMetadata st1) "fileType", get (fileMetadata st1) "name" with
            | inr ty, inr nm => (st1, [mkDownload nm ty (concat (receivedChunks st1))], None)
            | _, _ => (st1, [], Some TypeError)
            end
          else (st1, [], None)
      end
  end.

(** The receiver run over the messages of the ordered channel. *)
Fixpoint receive_all (ms : list dmsg) (st : state) : state * list download :=
  match ms with
  | [] => (st, [])
  | m :: ms =>
      let '(st1, d1, _) := receive m st in
      let '(st2, d2) := receive_all ms st1 in (st2, d1 ++ d2)
  end.

End WithJson.
End Receiver.

(** ** The reference chunking *)

Section Chunks.
#[local] Opaque chunkSize.

Lemma chunkSize_pos : 0 < chunkSize.
Proof. apply Nat.ltb_lt. vm_compute. reflexivity. Qed.

Lemma take_chunk_cons (x : byte) l : take chunkSize (x :: l) = x :: take (pred chunkSize) l.
Proof. pose proof chunkSize_pos. by destruct chunkSize; [lia|]. Qed.

Lemma chunks_enough_fuel fuel l :
  length l ≤ fuel * chunkSize -> 1 ≤ fuel ->
  concat (chunks fuel l) = l ∧ Forall (λ c, length c ≤ chunkSize) (chunks fuel l) ∧
  chunks fuel l ≠ [].
Proof.
  revert l. induction fuel as [|fuel IH]; intros l Hl Hf; [lia|]. simpl.
  case_decide as Hle.
  - simpl. rewrite app_nil_r. split_and!; [done|by constructor|done].
  - destruct (IH (drop chunkSize l)) as (Hc & Hb & _).
    + rewrite length_drop. lia.
    + destruct fuel; lia.
    + simpl. rewrite Hc, take_drop. split_and!; [done| |done].
      constructor; [|done]. rewrite length_take. lia.
Qed.

(** Every chunk of a non-empty file is non-empty. *)
Lemma chunks_nonempty fuel l :
  l ≠ [] -> Forall (λ c, c ≠ []) (chunks fuel l).
Proof.
  revert l. induction fuel as [|fuel IH]; intros l Hl; simpl; [constructor|].
  case_decide as Hle; [by constructor|]. constructor.
  - destruct l as [|x l]; [done|]. by rewrite take_chunk_cons.
  - apply IH. intros Hd. apply (f_equal length) in Hd. rewrite length_drop in Hd.
    simpl in Hd. lia.
Qed.

End Chunks.

(** ** The sender *)

Section SenderProofs.
(** Proofs treat the chunk size as a constant, never as a unary numeral. *)
#[local] Opaque chunkSize.

(** The page while one file is sent: reader [r] is reading the slice at
    [o] and nothing else is in flight. *)
Definition sending (f : file) (o r nr : nat) : Sender.state :=
  Sender.mkState (Some f) o r nr [(r, slice f o)].

Lemma drive_idle fuel st :
  (Sender.fileReader st ∉ (Sender.reads st).*1) -> Sender.drive fuel st = (st, []).
Proof. destruct fuel; simpl; [done|]. intros H. by rewrite decide_False. Qed.

(** One completed read of the page that sends [f]. *)
Lemma on_load_sending f o r nr :
  Sender.on_load r (sending f o r nr) =
    if decide (o + length (slice f o) < f_size f)
    then (sending f (o + length (slice f o)) r nr, [DBin (slice f o)], None)
    else (Sender.mkState (Some f) (o + length (slice f o)) r nr [], [DBin (slice f o)], None).
Proof.
  unfold Sender.on_load, sending, Sender.read_slice. simpl.
  repeat case_decide; simplify_eq/=; try done; set_solver.
Qed.

(** Left alone, the sender sends the remaining chunks, one per
    completed read. *)
Lemma drive_chunks fuel f o r nr :
  o ≤ f_size f -> length (drop o (f_data f)) ≤ fuel * chunkSize -> 1 ≤ fuel ->
  (Sender.drive fuel (sending f o r nr)).2 = DBin <$> chunks fuel (drop o (f_data f)).
Proof.
  revert o. induction fuel as [|fuel IH]; intros o Ho Hl Hf; [lia|].
  simpl. case_decide as Hin; [|exfalso; apply Hin; unfold sending; simpl; set_solver].
  rewrite on_load_sending.
  assert (Hlen : length (slice f o) = Nat.min chunkSize (f_size f - o)).
  { unfold slice, f_size. by rewrite length_take, length_drop. }
  rewrite Hlen. unfold f_size in *. rewrite length_drop in Hl |- *.
  case_decide as Hlt.
  - rewrite decide_False by lia.
    assert (Hmin : Nat.min chunkSize (length (f_data f) - o) = chunkSize) by lia.
    rewrite Hmin. destruct (Sender.drive fuel _) as [st2 out2] eqn:Hd. simpl.
    pose proof (IH (o + chunkSize)) as IH'. rewrite Hd in IH'. simpl in IH'.
    rewrite IH'; [|lia|rewrite length_drop; lia|destruct fuel; lia].
    unfold slice. by rewrite drop_drop.
  - rewrite decide_True by lia. rewrite drive_idle by (simpl; set_solver). simpl.
    unfold slice. rewrite take_ge; [done|]. rewrite length_drop. lia.
Qed.

Lemma share_idle `{J : JsonCodec} f fs st :
  Sender.reads st = [] ->
  Sender.share true (f :: fs) st =
    (sending f 0 (Sender.next_reader st) (S (Sender.next_reader st)),
     [DText (stringify (metadata f))], None).
Proof.
  intros Hr. unfold Sender.share, Sender.send_files, Sender.read_slice. simpl.
  rewrite Hr. case_decide; [set_solver|done].
Qed.

Lemma slice_full f o : o + chunkSize ≤ f_size f -> length (slice f o) = chunkSize.
Proof. unfold slice, f_size. rewrite length_take, length_drop. lia. Qed.

(** A completed read of [b] by the current reader, alone in flight. *)
Lemma on_load_one f o r nr b :
  Sender.on_load r (Sender.mkState (Some f) o r nr [(r, b)]) =
    if decide (o + length b < f_size f)
    then (sending f (o + length b) r nr, [DBin b], None)
    else (Sender.mkState (Some f) (o + length b) r nr [], [DBin b], None).
Proof.
  unfold Sender.on_load, sending, Sender.read_slice. simpl.
  repeat case_decide; simplify_eq/=; try done; set_solver.
Qed.

(** A second click while reader [r] reads: the metadata goes out again
    and a new reader [nr] reads the first slice beside the old read. *)
Lemma share_busy `{J : JsonCodec} f fs o r nr :
  r ≠ nr ->
  Sender.share true (f :: fs) (sending f o r nr) =
    (Sender.mkState (Some f) 0 nr (S nr) [(r, slice f o); (nr, slice f 0)],
     [DText (stringify (metadata f))], None).
Proof.
  intros Hne. unfold Sender.share, Sender.send_files, Sender.read_slice, sending. simpl.
  rewrite decide_False; [reflexivity|set_solver].
Qed.

(** The old reader's [onload] after it: its chunk goes out, its length
    is added to the reset [offset], and [readSlice] throws on the new
    reader, which is still reading. *)
Lemma stale_load f b r nr :
  r ≠ nr -> length b < f_size f ->
  Sender.on_load r (Sender.mkState (Some f) 0 nr (S nr) [(r, b); (nr, slice f 0)]) =
    (Sender.mkState (Some f) (length b) nr (S nr) [(nr, slice f 0)], [DBin b],
     Some InvalidStateError).
Proof.
  intros Hne Hlt. unfold Sender.on_load, Sender.read_slice. simpl.
  repeat case_decide; simplify_eq/=; try done; first [set_solver|lia].
Qed.

Lemma drive_step fuel st :
  Sender.fileReader st ∈ (Sender.reads st).*1 ->
  (Sender.drive (S fuel) st).2 =
    (Sender.on_load (Sender.fileReader st) st).1.2 ++
    (Sender.drive fuel (Sender.on_load (Sender.fileReader st) st).1.1).2.
Proof.
  intros Hin. cbn [Sender.drive]. rewrite decide_True by done.
  destruct (Sender.on_load _ _) as [[st1 out1] e1]. cbn [fst snd].
  by destruct (Sender.drive fuel st1).
Qed.

End SenderProofs.

(** ** Every frame is bounded; the reads stop *)

Section SenderRun.
#[local] Opaque chunkSize.
Context `{J : JsonCodec}.

Lemma slice_length f o : length (slice f o) ≤ chunkSize.
Proof. unfold slice. rewrite length_take. lia. Qed.

Lemma slice_nonempty f o : o < f_size f -> slice f o ≠ [].
Proof.
  unfold slice, f_size. intros Ho. destruct (drop o (f_data f)) as [|x l] eqn:Hd.
  - apply (f_equal length) in Hd. rewrite length_drop in Hd. simpl in Hd. lia.
  - by rewrite take_chunk_cons.
Qed.

(** The sender's invariant: a read is in flight only while a file is
    selected, and every read holds at most one chunk. *)
Definition sender_ok (st : Sender.state) : Prop :=
  (Sender.reads st ≠ [] -> Sender.currentFile st ≠ None) ∧
  Forall (λ rb, length rb.2 ≤ chunkSize) (Sender.reads st).

Lemma read_slice_inv st o st' :
  Sender.read_slice st o = inr st' ->
  ∃ f, Sender.currentFile st = Some f ∧
    st' = Sender.mkState (Some f) (Sender.offset st) (Sender.fileReader st)
            (Sender.next_reader st) (Sender.reads st ++ [(Sender.fileReader st, slice f o)]) ∧
    Sender.fileReader st ∉ (Sender.reads st).*1.
Proof.
  unfold Sender.read_slice. destruct (Sender.currentFile st) as [f|]; [|done].
  case_decide; [done|]. intros [= <-]. eauto.
Qed.

Lemma read_slice_ok st o st' :
  sender_ok st -> Sender.read_slice st o = inr st' -> sender_ok st'.
Proof.
  intros [_ Hb] (f & _ & -> & _)%read_slice_inv. split; [done|].
  apply Forall_app. split; [done|]. repeat constructor. apply slice_length.
Qed.

(** [onload] when the read of [r] is the [i]-th in flight. *)
Lemma on_load_found r st i b f :
  list_find (λ rb, rb.1 = r) (Sender.reads st) = Some (i, (r, b)) ->
  Sender.currentFile st = Some f ->
  Sender.on_load r st =
    let st1 := Sender.mkState (Some f) (Sender.offset st + length b) (Sender.fileReader st)
                 (Sender.next_reader st) (delete i (Sender.reads st)) in
    if decide (Sender.offset st1 < f_size f) then
      match Sender.read_slice st1 (Sender.offset st1) with
      | inl e => (st1, [DBin b], Some e)
      | inr st2 => (st2, [DBin b], None)
      end
    else (st1, [DBin b], None).
Proof. intros Hf Hc. unfold Sender.on_load. by rewrite Hf, Hc. Qed.

Lemma on_load_ok r st : sender_ok st -> sender_ok (Sender.on_load r st).1.1.
Proof.
  intros Hok. destruct (list_find (λ rb, rb.1 = r) (Sender.reads st)) as [[i [r' b]]|] eqn:Hfind;
    [|unfold Sender.on_load; by rewrite Hfind].
  destruct (Sender.currentFile st) as [f|] eqn:Hc;
    [|unfold Sender.on_load; by rewrite Hfind, Hc].
  pose proof Hfind as Hfind'. apply list_find_Some in Hfind as (Hi & Hr & _).
  simpl in Hr. subst r'.
  assert (Hok1 : sender_ok (Sender.mkState (Some f) (Sender.offset st + length b)
            (Sender.fileReader st) (Sender.next_reader st) (delete i (Sender.reads st)))).
  { split; [done|]. simpl. apply Forall_delete, Hok. }
  rewrite (on_load_found r st i b f) by done.
  simpl. case_decide; [|done]. destruct (Sender.read_slice _ _) eqn:E; [done|].
  by eapply read_slice_ok.
Qed.

Lemma sender_exec_ok e st : sender_ok st -> sender_ok (Sender.exec e st).1.1.
Proof.
  destruct e as [o sel|r]; [|apply on_load_ok]. intros Hok.
  unfold Sender.exec, Sender.share. destruct (negb o); [done|].
  destruct sel as [|f fs]; [done|]. unfold Sender.send_files.
  destruct (Sender.read_slice _ 0) eqn:E; simpl.
  - split; [done|apply Hok].
  - eapply read_slice_ok, E. split; [done|apply Hok].
Qed.

Lemma sender_reachable_ok st : Sender.reachable st -> sender_ok st.
Proof.
  induction 1; [split; [done|constructor]|by apply sender_exec_ok].
Qed.


(** The frames an event sends come from the reads in flight. *)
Lemma exec_frames e st b :
  DBin b ∈ (Sender.exec e st).1.2 -> ∃ r, (r, b) ∈ Sender.reads st.
Proof.
  destruct e as [o sel|r]; simpl.
  - unfold Sender.share, Sender.send_files. destruct (negb o); [set_solver|].
    destruct sel; [set_solver|]. destruct (Sender.read_slice _ 0); set_solver.
  - unfold Sender.on_load.
    destruct (list_find (λ rb, rb.1 = r) (Sender.reads st)) as [[i [r' b']]|] eqn:Hf;
      [|set_solver].
    destruct (Sender.currentFile st); [|set_solver].
    apply list_find_Some in Hf as (Hi & _ & _).
    assert (Hb : ∀ l : list dmsg, DBin b ∈ DBin b' :: l -> l = [] -> b = b') by set_solver.
    intros Hin. exists r'. apply list_elem_of_lookup_2 with i.
    case_decide; [destruct (Sender.read_slice _ _)|]; simpl in Hin;
      rewrite (Hb [] Hin eq_refl); done.
Qed.

(** C14: every binary frame is at most [chunkSize] bytes.  Whatever the
    clicks on [shareBtn] and the order in which the [FileReader]s
    complete, each [ArrayBuffer] the page sends on the data channel is a
    slice of at most [chunkSize] bytes (the framing of the spec). *)
Theorem frames_bounded st e b :
  Sender.reachable st -> DBin b ∈ (Sender.exec e st).1.2 -> length b ≤ chunkSize.
Proof.
  intros Hr (r & Hin)%exec_frames. destruct (sender_reachable_ok st Hr) as [_ Hb].
  rewrite Forall_forall in Hb. apply (Hb _ Hin).
Qed.

(** ** The reads stop *)

(** What is left to do: twice the bytes not yet sent of the current
    file, and per read in flight 1 (a chunk) or 2 (an empty slice, whose
    [onload] may start one more read). *)
Definition weight (rb : nat * list byte) : nat := if decide (rb.2 = []) then 2 else 1.

Definition pending_work (st : Sender.state) : nat :=
  2 * (from_option f_size 0 (Sender.currentFile st) - Sender.offset st) +
  sum_list_with weight (Sender.reads st).

(** The completion of one read in flight, in any order. *)
Definition load_step (st st' : Sender.state) : Prop :=
  ∃ r, r ∈ (Sender.reads st).*1 ∧ st' = (Sender.on_load r st).1.1.

Lemma weight_bounds rb : (rb.2 = [] ∧ weight rb = 2) ∨ (1 ≤ length rb.2 ∧ weight rb = 1).
Proof.
  unfold weight. destruct rb as [r [|x b]]; simpl; [by left|right]. lia.
Qed.

Lemma on_load_work r st :
  sender_ok st -> r ∈ (Sender.reads st).*1 ->
  pending_work (Sender.on_load r st).1.1 < pending_work st.
Proof.
  intros [Hc _] ([r' b0] & -> & Hin)%list_elem_of_fmap. simpl.
  destruct (list_find_elem_of (λ rb, rb.1 = r') _ _ Hin eq_refl) as [[i [r b]] Hf].
  pose proof Hf as Hf'. apply list_find_Some in Hf' as (Hi & Hr & _). simpl in Hr. subst r.
  destruct (Sender.currentFile st) as [f|] eqn:Hcf;
    [|exfalso; apply Hc; [|done]; intros Hn; rewrite Hn in Hin; set_solver].
  rewrite (on_load_found r' st i b f) by done.
  unfold pending_work. rewrite Hcf. simpl.
  pose proof (sum_list_with_delete weight _ _ _ Hi) as Hsum.
  pose proof (weight_bounds (r', b)) as Hw. simpl in Hw.
  case_decide as Hlt; [destruct (Sender.read_slice _ _) as [e|st2] eqn:E|]; simpl; [lia| |lia].
  apply read_slice_inv in E as (f' & [= <-] & -> & _). simpl.
  rewrite sum_list_with_app. simpl.
  pose proof (weight_bounds (Sender.fileReader st, slice f (Sender.offset st + length b))) as Hw2.
  pose proof (slice_nonempty f _ Hlt). simpl in Hw2. destruct Hw2 as [[]|[_ ->]]; [done|lia].
Qed.

Lemma load_step_ok st st' : sender_ok st -> load_step st st' -> sender_ok st'.
Proof. intros Hok (r & _ & ->). by apply on_load_ok. Qed.

(** C21: the reads stop.  From every state the page can reach, there is no
    infinite sequence of completed reads: [pending_work] decreases with
    each [onload], whatever reader completes, also after several clicks
    left readers behind. *)
Theorem sender_loads_terminate st :
  Sender.reachable st -> Acc (λ st2 st1, load_step st1 st2) st.
Proof.
  intros Hr. pose proof (sender_reachable_ok st Hr) as Hok. clear Hr.
  remember (pending_work st) as n eqn:Hn. revert st Hok Hn.
  induction (lt_wf n) as [n _ IH]. intros st Hok ->. constructor.
  intros st' Hs. pose proof Hs as (r & Hin & ->).
  apply (IH _ (on_load_work r st Hok Hin)); [by apply on_load_ok|done].
Qed.

(** The page falls silent.  From every state the page can reach,
    completing the reads in flight, at most [pending_work] of them,
    reaches a state where no read is in flight and nothing more is
    sent. *)
Theorem sender_quiesces st :
  Sender.reachable st ->
  ∃ k st', k ≤ pending_work st ∧ nsteps load_step k st st' ∧ Sender.reads st' = [].
Proof.
  intros Hr. pose proof (sender_reachable_ok st Hr) as Hok. clear Hr.
  remember (pending_work st) as n eqn:Hn. revert st Hok Hn.
  induction (lt_wf n) as [n _ IH]. intros st Hok ->.
  destruct (Sender.reads st) as [|[r b] rbs] eqn:Hreads.
  { exists 0, st. split_and!; [lia|constructor|done]. }
  assert (Hin : r ∈ (Sender.reads st).*1) by (rewrite Hreads; set_solver).
  destruct (IH _ (on_load_work r st Hok Hin) (Sender.on_load r st).1.1 (on_load_ok r st Hok)
              eq_refl) as (k & st' & Hk & Hsteps & Hidle).
  pose proof (on_load_work r st Hok Hin).
  exists (S k), st'. split_and!; [lia| |done]. econstructor; [|exact Hsteps]. by exists r.
Qed.

End SenderRun.

(** ** The receiver *)

Section ReceiverProofs.
#[local] Opaque chunkSize.
Context `{J : JsonCodec}.

Lemma wf_metadata f : wf (metadata f) = true.
Proof. reflexivity. Qed.

Lemma receive_metadata f st :
  Receiver.receive (DText (stringify (metadata f))) st =
    (Receiver.mkState 0 [] (metadata f), [], None).
Proof. unfold Receiver.receive. by rewrite parse_stringify by apply wf_metadata. Qed.

Lemma receive_all_cons m ms st :
  Receiver.receive_all (m :: ms) st =
    let '(st1, d1, _) := Receiver.receive m st in
    let '(st2, d2) := Receiver.receive_all ms st1 in (st2, d1 ++ d2).
Proof. reflexivity. Qed.

(** A chunk that does not reach the declared size. *)
Lemma receive_bin_more n acc md c z :
  get md "size" = inr (Some (JNum z)) -> z ≠ Z.of_nat (n + length c) ->
  Receiver.receive (DBin c) (Receiver.mkState n acc md) =
    (Receiver.mkState (n + length c) (acc ++ [c]) md, [], None).
Proof.
  intros Hs Hz. unfold Receiver.receive. simpl. rewrite Hs.
  unfold Receiver.size_reached. by rewrite bool_decide_false.
Qed.

(** The chunk that reaches it. *)
Lemma receive_bin_last n acc md c nm ty :
  get md "size" = inr (Some (JNum (Z.of_nat (n + length c)))) ->
  get md "fileType" = inr ty -> get md "name" = inr nm ->
  Receiver.receive (DBin c) (Receiver.mkState n acc md) =
    (Receiver.mkState (n + length c) (acc ++ [c]) md,
     [Receiver.mkDownload nm ty (concat (acc ++ [c]))], None).
Proof.
  intros Hs Ht Hn. unfold Receiver.receive. simpl. rewrite Hs.
  unfold Receiver.size_reached. rewrite bool_decide_true by done. by rewrite Ht, Hn.
Qed.

(** The chunks of a declared file: no download before the last one,
    one download of all of them after it. *)
Lemma receive_chunks md nm ty cs n acc :
  get md "size" = inr (Some (JNum (Z.of_nat (n + sum_list_with length cs)))) ->
  get md "fileType" = inr ty -> get md "name" = inr nm ->
  cs ≠ [] -> (Forall (λ c, c ≠ []) cs ∨ length cs = 1) ->
  Receiver.receive_all (DBin <$> cs) (Receiver.mkState n acc md) =
    (Receiver.mkState (n + sum_list_with length cs) (acc ++ cs) md,
     [Receiver.mkDownload nm ty (concat (acc ++ cs))]).
Proof.
  revert n acc. induction cs as [|c cs IH]; intros n acc Hs Ht Hn Hne Hall; [done|].
  rewrite fmap_cons, receive_all_cons.
  destruct cs as [|c' cs'].
  - rewrite (receive_bin_last _ _ _ _ nm ty); [|simpl in Hs; by rewrite Nat.add_0_r in Hs|done|done].
    simpl. by rewrite Nat.add_0_r.
  - assert (0 < sum_list_with length (c' :: cs')).
    { destruct Hall as [Hall|Hl]; [|simpl in Hl; lia].
      apply Forall_cons in Hall as [_ Hall]. apply Forall_cons in Hall as [Hc' _].
      destruct c'; [done|]. simpl. lia. }
    rewrite (receive_bin_more _ _ _ _ _ Hs) by (simpl in *; lia).
    rewrite IH; [| simpl in Hs |- *; by rewrite Nat.add_assoc in Hs | done | done | done |].
    + rewrite <-!app_assoc, <-!Nat.add_assoc. reflexivity.
    + destruct Hall as [Hall|Hl]; [left; by apply Forall_cons in Hall as [_ ?]|simpl in Hl; lia].
Qed.

(** Metadata, a chunk that does not complete it, and whatever follows:
    the chunk stays buffered and nothing is downloaded. *)
Lemma receive_interrupted f c ms rst :
  length c ≠ f_size f ->
  Receiver.receive_all (DText (stringify (metadata f)) :: DBin c :: ms) rst =
    Receiver.receive_all ms (Receiver.mkState (length c) [c] (metadata f)).
Proof.
  intros Hc. rewrite receive_all_cons, receive_metadata. cbv beta iota.
  rewrite receive_all_cons, (receive_bin_more _ _ _ _ (Z.of_nat (f_size f))) by (done || lia).
  cbv beta iota. by destruct (Receiver.receive_all ms _).
Qed.

(** The first two chunks and the rest of a file, in this order. *)
Lemma slice_two f : slice f 0 ++ slice f chunkSize ++ drop (2 * chunkSize) (f_data f) = f_data f.
Proof.
  unfold slice. replace (2 * chunkSize) with (chunkSize + chunkSize) by lia.
  by rewrite drop_0, <-drop_drop, !take_drop.
Qed.

End ReceiverProofs.

(** ** Properties *)

Section Props.
#[local] Opaque chunkSize.
Context `{J : JsonCodec}.

(** C8: the sender's event loop is the reference chunking.  After one
    click on [shareBtn], with enough completed reads, the page has sent
    the metadata of the first selected file and then its chunks, in file
    order, as the reference [chunks] cuts it. *)
Theorem send_transcript f fs fuel st :
  Sender.reads st = [] -> f_size f ≤ fuel * chunkSize -> 1 ≤ fuel ->
  (Sender.click_and_wait fuel (f :: fs) st).2 =
    DText (stringify (metadata f)) :: (DBin <$> chunks fuel (f_data f)).
Proof.
  intros Hr Hs Hf. unfold Sender.click_and_wait. rewrite share_idle by done.
  pose proof (drive_chunks fuel f 0 (Sender.next_reader st) (S (Sender.next_reader st)))
    as Hd. rewrite drop_0 in Hd.
  destruct (Sender.drive _ _) as [st2 out2]. simpl in *. rewrite Hd; [done|lia|done|done].
Qed.

Lemma metadata_size f :
  get (metadata f) "size" = inr (Some (JNum (Z.of_nat (f_size f)))).
Proof. reflexivity. Qed.

Lemma receive_transcript f fuel rst :
  f_size f ≤ fuel * chunkSize -> 1 ≤ fuel ->
  Receiver.receive_all (DText (stringify (metadata f)) :: (DBin <$> chunks fuel (f_data f))) rst =
    (Receiver.mkState (f_size f) (chunks fuel (f_data f)) (metadata f),
     [Receiver.mkDownload (Some (JStr (f_name f))) (Some (JStr (f_type f))) (f_data f)]).
Proof.
  intros Hs Hf. destruct (chunks_enough_fuel fuel (f_data f) Hs Hf) as (Hc & _ & Hne).
  rewrite receive_all_cons, receive_metadata.
  assert (Hsum : sum_list_with length (chunks fuel (f_data f)) = f_size f).
  { rewrite sum_list_length_concat, Hc. done. }
  rewrite receive_chunks with (nm := Some (JStr (f_name f))) (ty := Some (JStr (f_type f))).
  - simpl. by rewrite Hsum, Hc.
  - simpl. rewrite Hsum. apply metadata_size.
  - reflexivity.
  - reflexivity.
  - done.
  - destruct (f_data f) as [|x l] eqn:Hdata.
    + right. destruct fuel; [lia|]. simpl. repeat case_decide; simpl; lia.
    + left. apply chunks_nonempty. done.
Qed.

(** C7: end to end.  A file sent by one click over the ordered, reliable
    channel is downloaded by the receiver exactly once, with its name,
    its type and its bytes, whatever the receiver's state before the
    transfer. *)
Theorem transfer_end_to_end f fs fuel sst rst :
  Sender.reads sst = [] -> f_size f ≤ fuel * chunkSize -> 1 ≤ fuel ->
  (Receiver.receive_all (Sender.click_and_wait fuel (f :: fs) sst).2 rst).2 =
    [Receiver.mkDownload (Some (JStr (f_name f))) (Some (JStr (f_type f))) (f_data f)].
Proof.
  intros Hr Hs Hf. rewrite send_transcript by done. by rewrite receive_transcript.
Qed.

(** C37: no reset after completion.  Once the file has been downloaded the
    receiver keeps its metadata and its count (the spec says it returns to
    awaiting metadata): one more empty binary frame downloads the file a
    second time. *)
Theorem completed_not_reset f fuel rst :
  f_size f ≤ fuel * chunkSize -> 1 ≤ fuel ->
  let st := (Receiver.receive_all
               (DText (stringify (metadata f)) :: (DBin <$> chunks fuel (f_data f))) rst).1 in
  Receiver.fileMetadata st = metadata f ∧ Receiver.receivedSize st = f_size f ∧
  (Receiver.receive (DBin []) st).1.2 =
    [Receiver.mkDownload (Some (JStr (f_name f))) (Some (JStr (f_type f))) (f_data f ++ [])].
Proof.
  intros Hs Hf. rewrite receive_transcript by done. cbn [fst snd]. split_and!; [done|done|].
  destruct (chunks_enough_fuel fuel (f_data f) Hs Hf) as (Hc & _ & _).
  rewrite receive_bin_last with (nm := Some (JStr (f_name f))) (ty := Some (JStr (f_type f))).
  - simpl. by rewrite concat_app, Hc.
  - simpl. rewrite Nat.add_0_r. apply metadata_size.
  - reflexivity.
  - reflexivity.
Qed.

(** C28: a second click during a transfer corrupts the file.  The user
    clicks Send on a file of more than two chunks, the first chunk goes
    out, and the user clicks again while the second slice is being read.
    The old reader's [onload] still runs: it sends the stale second chunk
    after the new metadata, adds its length to the reset [offset], and its
    [readSlice] throws [InvalidStateError] on the new, busy reader.  Left
    alone, the page then sends the first chunk and the file from its third
    chunk on.  The receiver, from any state, downloads one file of the
    right size: the second chunk, then the first, then the rest, which is
    not the file whenever its first two chunks differ. *)
Theorem double_click_corrupts f fs fuel st rst :
  Sender.reads st = [] -> 2 * chunkSize < f_size f -> f_size f ≤ (2 + fuel) * chunkSize ->
  let r := Sender.next_reader st in
  let '(s1, o1, _) := Sender.share true (f :: fs) st in
  let '(s2, o2, _) := Sender.on_load r s1 in
  let '(s3, o3, _) := Sender.share true (f :: fs) s2 in
  let '(s4, o4, e4) := Sender.on_load r s3 in
  let o5 := (Sender.drive (S fuel) s4).2 in
  let data := slice f chunkSize ++ slice f 0 ++ drop (2 * chunkSize) (f_data f) in
  e4 = Some InvalidStateError ∧
  (Receiver.receive_all (o1 ++ o2 ++ o3 ++ o4 ++ o5) rst).2 =
    [Receiver.mkDownload (Some (JStr (f_name f))) (Some (JStr (f_type f))) data] ∧
  length data = f_size f ∧ (slice f 0 ≠ slice f chunkSize -> data ≠ f_data f).
Proof.
  intros Hr Hlt Hle r. subst r.
  assert (H0 : length (slice f 0) = chunkSize) by (apply slice_full; lia).
  assert (H1 : length (slice f chunkSize) = chunkSize) by (apply slice_full; lia).
  assert (Hf : 1 ≤ fuel) by (destruct fuel; lia).
  rewrite share_idle by done. cbv beta iota.
  rewrite on_load_sending, H0, Nat.add_0_l, decide_True by lia. cbv beta iota.
  rewrite share_busy by lia. cbv beta iota. rewrite stale_load by lia. cbv beta iota zeta.
  rewrite drive_step by (simpl; set_solver). cbn [Sender.fileReader].
  rewrite on_load_one, H1, H0, decide_True by lia. cbn [fst snd app].
  rewrite drive_chunks by (unfold f_size in *; rewrite ?length_drop; lia).
  replace (chunkSize + chunkSize) with (2 * chunkSize) by lia.
  destruct (chunks_enough_fuel fuel (drop (2 * chunkSize) (f_data f))) as (Hc & _ & Hne);
    [unfold f_size in *; rewrite length_drop; lia|done|].
  split_and!; [done| | |].
  - rewrite receive_interrupted by lia. rewrite receive_all_cons, receive_metadata.
    change (DBin (slice f chunkSize) :: DBin (slice f 0) :: (DBin <$> ?cs))
      with (DBin <$> (slice f chunkSize :: slice f 0 :: cs)).
    rewrite receive_chunks with (nm := Some (JStr (f_name f))) (ty := Some (JStr (f_type f))).
    + cbn [concat app]. by rewrite Hc.
    + cbn [sum_list_with]. rewrite sum_list_length_concat, Hc, length_drop, H0, H1.
      replace (0 + _) with (f_size f) by (unfold f_size in *; lia). apply metadata_size.
    + reflexivity.
    + reflexivity.
    + done.
    + left. repeat constructor; [apply slice_nonempty; lia..|].
      apply chunks_nonempty. intros Hd. apply (f_equal length) in Hd.
      rewrite length_drop in Hd. unfold f_size in *. simpl in Hd. lia.
  - rewrite !length_app, H0, H1, length_drop. unfold f_size in *. lia.
  - intros Hne01 Heq. rewrite <-(slice_two f) in Heq at 2.
    apply app_inj_1 in Heq as [? _]; [congruence|lia].
Qed.

(** C38: a chunk before any metadata.  While [fileMetadata] is [null], a
    binary message is buffered and counted, then [fileMetadata.size]
    throws [TypeError]: nothing is downloaded. *)
Theorem chunk_before_metadata b st :
  Receiver.fileMetadata st = JNull ->
  Receiver.receive (DBin b) st =
    (Receiver.mkState (Receiver.receivedSize st + length b) (Receiver.receivedChunks st ++ [b]) JNull,
     [], Some TypeError).
Proof. intros Hm. unfold Receiver.receive. simpl. by rewrite Hm. Qed.

End Props.

(** ** Scenarios and witnesses, with the concrete codec *)

(** The 40000-byte file of the spec's scenario. *)
Definition file40000 : file := mkFile "a.bin" "application/octet-stream" (repeat x00 40000).

(** A file of three chunks with different contents. *)
Definition file3 : file :=
  mkFile "b.bin" "text/plain" (repeat x01 16384 ++ repeat x02 16384 ++ repeat x03 100).

Definition msg_length (m : dmsg) : option nat :=
  match m with DText _ => None | DBin b => Some (length b) end.

(** The scenario of the spec (section 8).  A 40000-byte file goes out
    as the metadata and chunks of 16384, 16384 and 7232 bytes; nothing is
    downloaded before the third chunk, and one file after it. *)
Example scenario_40000 :
  map msg_length (@Sender.click_and_wait codec 3 [file40000] Sender.init).2 =
    [None; Some 16384; Some 16384; Some 7232] ∧
  (@Receiver.receive_all codec
     (take 3 (@Sender.click_and_wait codec 3 [file40000] Sender.init).2) Receiver.init).2 = [] ∧
  length (@Receiver.receive_all codec
     (@Sender.click_and_wait codec 3 [file40000] Sender.init).2 Receiver.init).2 = 1.
Proof. split_and!; vm_compute; reflexivity. Qed.

Lemma double_click_witness :
  let r := Sender.next_reader Sender.init in
  let '(s1, o1, _) := @Sender.share codec true [file3] Sender.init in
  let '(s2, o2, _) := Sender.on_load r s1 in
  let '(s3, o3, _) := @Sender.share codec true [file3] s2 in
  let '(s4, o4, e4) := Sender.on_load r s3 in
  let o5 := (Sender.drive 2 s4).2 in
  let data := slice file3 chunkSize ++ slice file3 0 ++ drop (2 * chunkSize) (f_data file3) in
  e4 = Some InvalidStateError ∧
  (@Receiver.receive_all codec (o1 ++ o2 ++ o3 ++ o4 ++ o5) Receiver.init).2 =
    [Receiver.mkDownload (Some (JStr (f_name file3))) (Some (JStr (f_type file3))) data] ∧
  length data = f_size file3 ∧ (slice file3 0 ≠ slice file3 chunkSize -> data ≠ f_data file3).
Proof.
  apply (@double_click_corrupts codec file3 [] 1 Sender.init Receiver.init);
    [reflexivity|apply Nat.ltb_lt; vm_compute; reflexivity|apply Nat.leb_le; vm_compute; reflexivity].
Defined.

Lemma size40000_fits : f_size file40000 ≤ 3 * chunkSize.
Proof. apply Nat.leb_le. vm_compute. reflexivity. Qed.

Lemma send_transcript_witness :
  (@Sender.click_and_wait codec 3 [file40000] Sender.init).2 =
    DText (enc (metadata file40000)) :: (DBin <$> chunks 3 (f_data file40000)).
Proof. apply (@send_transcript codec); [reflexivity|apply size40000_fits|lia]. Defined.

Lemma transfer_end_to_end_witness :
  (@Receiver.receive_all codec (@Sender.click_and_wait codec 3 [file40000] Sender.init).2
     Receiver.init).2 =
    [Receiver.mkDownload (Some (JStr "a.bin")) (Some (JStr "application/octet-stream"))
       (f_data file40000)].
Proof. apply (@transfer_end_to_end codec); [reflexivity|apply size40000_fits|lia]. Defined.

Lemma completed_not_reset_witness :
  let st := (@Receiver.receive_all codec
               (DText (enc (metadata file40000)) :: (DBin <$> chunks 3 (f_data file40000)))
               Receiver.init).1 in
  Receiver.fileMetadata st = metadata file40000 ∧ Receiver.receivedSize st = f_size file40000 ∧
  (@Receiver.receive codec (DBin []) st).1.2 =
    [Receiver.mkDownload (Some (JStr "a.bin")) (Some (JStr "application/octet-stream"))
       (f_data file40000 ++ [])].
Proof. apply (@completed_not_reset codec); [apply size40000_fits|lia]. Defined.

Lemma chunk_before_metadata_witness :
  @Receiver.receive codec (DBin [x01]) Receiver.init =
    (Receiver.mkState (0 + 1) ([] ++ [[x01]]) JNull, [], Some TypeError).
Proof. apply (@chunk_before_metadata codec). reflexivity. Defined.

(** A small file, one click, and the first read in flight. *)
Definition file_small : file := mkFile "c.txt" "text/plain" [x01; x02; x03].

Definition clicked : Sender.state :=
  (@Sender.exec codec (Sender.EClick true [file_small]) Sender.init).1.1.

Lemma clicked_reachable : @Sender.reachable codec clicked.
Proof. apply Sender.reach_step, Sender.reach_init. Qed.

Lemma frames_bounded_witness : length (slice file_small 0) ≤ chunkSize.
Proof.
  apply (frames_bounded (J:=codec) clicked (Sender.ELoad 1)); [apply clicked_reachable|].
  apply list_elem_of_In. vm_compute. left. reflexivity.
Defined.

Lemma sender_loads_terminate_witness : Acc (λ st2 st1, load_step st1 st2) clicked.
Proof. apply (sender_loads_terminate (J:=codec)), clicked_reachable. Defined.

Lemma sender_quiesces_witness :
  ∃ k st', k ≤ pending_work clicked ∧ nsteps load_step k clicked st' ∧ Sender.reads st' = [].
Proof. apply (sender_quiesces (J:=codec)), clicked_reachable. Defined.
