(* ===== verification/Handshake.v ===== *)
(** * The browser client's handshake driver

    [src/unnamed/part_000] lines 1-254 ([client.js]): the page that
    creates the WebRTC offer, turns the relay's echo into a short URL of
    the token store, reads the other side's token (pasted, scanned or
    passed as [?token=]) and completes the connection.

    The page's globals ([peerConnection], [dataChannel], [isInitiator],
    the inputs and buttons it enables and the status line) are the record
    [page].  Each [async] handler is a program of the small interaction
    monad [io]: a program returns, sends a text on the signaling socket,
    or [fetch]es a URL of the server and continues with the response.
    [run_io] runs a program against the token server of [TokenStore.v],
    so that the handlers are composed with the routes they call.  A
    handler runs to completion before the next event (its [await]s are
    not interleaved with other events; [Async.v] interleaves the
    shortening handlers of [ws.onmessage]).

    The browser builtins the code calls are interfaces: [URL] and
    [decodeURIComponent] are the class [Browser], the WebRTC session
    descriptions and the signaling-state checks of [RTCPeerConnection]
    are [Rtc] and [set_remote].

    The last section composes two pages with the relay of [Relay.v]:
    [qr_handshake] is the whole QR flow, [trickle] a candidate sent by
    one page's [onicecandidate], broadcast by the relay and handled by
    another page's [ws.onmessage]. *)

From S2P Require Import Prelude Json Timers TokenStore Relay.
From stdpp Require Import pretty.
From Stdlib Require Import Ascii.

Module Client.

(** ** HTTP as the client sees it *)

Inductive method := GET | POST.

(** [res.send] of an HTML page: the text of each page of part_001
    starts with a line break, blanks and [<] (the tail of the markup is
    elided); Express's own error pages start with [<!DOCTYPE html>]. *)
Definition html_of (p : Store.page) : string :=
  match p with
  | Store.ExpiredPage => "
            <html><body><h2>Token expired or already used</h2></body></html>"
  | Store.RevealPage id => "
        <!doctype html>
        <html><script>fetch('/consume/" +:+ id +:+ "')</script></html>"
  | Store.ErrorPage => "<!DOCTYPE html>"
  end%string.

(** Express's answer to a path no route matches, and to a body that
    [express.json()] cannot parse. *)
Definition not_found : Store.response := Store.mkResp 404 (Store.BHtml Store.ErrorPage).
Definition bad_request : Store.response := Store.mkResp 400 (Store.BHtml Store.ErrorPage).

(** [resp.ok]. *)
Definition resp_ok (r : Store.response) : bool := bool_decide (200 ≤ Store.status r < 300).

Fixpoint strip_prefix (pre s : string) : option string :=
  match pre, s with
  | EmptyString, _ => Some s
  | String c pre', String d s' => if decide (c = d) then strip_prefix pre' s' else None
  | _, _ => None
  end.

Definition str_has (c : ascii) (s : string) : bool :=
  existsb (λ d, bool_decide (d = c)) (String.list_ascii_of_string s).

(** The value of a route parameter [:id] after [pre]: one non-empty path
    segment. *)
Definition route_param (pre path : string) : option string :=
  match strip_prefix pre path with
  | Some id => if bool_decide (id ≠ EmptyString) && negb (str_has "/" id) then Some id else None
  | None => None
  end.

Section Server.
Context `{J : JsonCodec}.

(** The text of a response body: [res.json(v)] sends [JSON.stringify(v)]. *)
Definition body_text (b : Store.body) : string :=
  match b with Store.BJson v => stringify v | Store.BHtml p => html_of p end.

(** The routes of part_001 the client calls, [express.json()] parsing
    the body of a POST; [id] is the [uuidv4()] of a [POST /store]. *)
Definition serve (id : string) (m : method) (path body : string) (st : Store.state)
    : Store.state * Store.response :=
  match m with
  | POST =>
      if String.eqb path "/store" then
        match parse body with
        | Some v => Store.store id v st
        | None => (st, bad_request)
        end
      else (st, not_found)
  | GET =>
      match route_param "/t/" path with
      | Some i => (st, Store.reveal i st)
      | None =>
          match route_param "/consume/" path with
          | Some i => Store.consume i st
          | None => (st, not_found)
          end
      end
  end.
End Server.

(** ** The interaction monad *)

Inductive io (A : Type) : Type :=
| Ret (a : A)
| Fetch (m : method) (path body : string) (k : Store.response -> io A)
| Send (text : string) (k : io A).
Arguments Ret {A} a.
Arguments Fetch {A} m path body k.
Arguments Send {A} text k.

Fixpoint io_bind {A B} (f : A -> io B) (p : io A) : io B :=
  match p with
  | Ret a => f a
  | Fetch m path body k => Fetch m path body (λ r, io_bind f (k r))
  | Send t k => Send t (io_bind f k)
  end.

#[export] Instance io_mret : MRet io := @Ret.
#[export] Instance io_mbind : MBind io := @io_bind.

(** The result of running a program: its value, the next uuid, the
    server's state and the texts sent on the signaling socket. *)
Record outcome (A : Type) := mkOutcome {
  o_val : A; o_uuid : nat; o_srv : Store.state; o_sent : list string
}.
Arguments mkOutcome {A}.
Arguments o_val {A}. Arguments o_uuid {A}. Arguments o_srv {A}. Arguments o_sent {A}.

Section Run.
Context `{J : JsonCodec} (uuid : nat -> string).

Fixpoint run_io {A} (p : io A) (n : nat) (st : Store.state) : outcome A :=
  match p with
  | Ret a => mkOutcome a n st []
  | Fetch m path body k =>
      let '(st1, r) := serve (uuid n) m path body st in
      run_io (k r) (match m with POST => S n | GET => n end) st1
  | Send t k =>
      let o := run_io k n st in mkOutcome (o_val o) (o_uuid o) (o_srv o) (t :: o_sent o)
  end.
End Run.

(** ** Strings *)

(** [String.prototype.trim]: the white space and line terminators of
    one byte (tab to carriage return, space, no-break space). *)
Definition js_space (c : ascii) : bool :=
  let n := nat_of_ascii c in bool_decide (9 ≤ n ≤ 13 ∨ n = 32 ∨ n = 160).

Fixpoint trim_start (s : string) : string :=
  match s with
  | String c s' => if js_space c then trim_start s' else s
  | EmptyString => EmptyString
  end.

Definition trim (s : string) : string :=
  String.string_of_list_ascii
    (rev (String.list_ascii_of_string
            (trim_start (String.string_of_list_ascii
                           (rev (String.list_ascii_of_string (trim_start s))))))).

(** ** The browser builtins *)

(** The characters of a [uuidv4()]: hexadecimal digits and dashes (and
    the other letters, which [URL] keeps as they are). *)
Definition id_char (c : ascii) : bool :=
  let n := nat_of_ascii c in
  bool_decide (48 ≤ n ≤ 57 ∨ 65 ≤ n ≤ 90 ∨ 97 ≤ n ≤ 122 ∨ n = 45).

Definition plain_id (id : string) : bool :=
  bool_decide (id ≠ EmptyString) && forallb id_char (String.list_ascii_of_string id).

(** [location.origin], [new URL(text, location.origin).pathname],
    [decodeURIComponent] (which throws [URIError] on a malformed escape)
    and the [message] of an exception, with what the code relies on: a
    short URL of this origin has the path [/t/id]; a JSON object text
    (which starts with [{]) never has a path under [/t/]; a text without
    [%] decodes to itself.  [textarea_value] is the [value] of a
    [<textarea>] written into [innerHTML] with a text: the text itself
    when it has no character reference ([&]) and no tag ([<]).
    [url_href] is [new URL(text, location.origin).href] ([None] when the
    constructor throws): a JSON object text resolves to a URL of the
    origin, which starts with its scheme [http], holds no white space
    (the serializer percent-encodes it) and whose path is not under
    [/t/]. *)
Class Browser := {
  origin : string;
  pathname : string -> string;
  decode_uri : string -> option string;
  message : exn -> string;
  textarea_value : string -> string;
  url_href : string -> option string;
  pathname_short : ∀ id, plain_id id = true -> pathname (origin +:+ "/t/" +:+ id) = "/t/" +:+ id;
  pathname_json : ∀ s, String.prefix "/t/" (pathname (String "{" s)) = false;
  decode_plain : ∀ s, str_has "%" s = false -> decode_uri s = Some s;
  textarea_plain : ∀ s, str_has "&" s = false -> str_has "<" s = false -> textarea_value s = s;
  href_json : ∀ s, ∃ r, url_href (String "{" s) = Some ("http" +:+ r) ∧
    forallb (λ c, negb (js_space c)) (String.list_ascii_of_string r) = true ∧
    String.prefix "/t/" (pathname ("http" +:+ r)) = false
}.

(** The session descriptions the WebRTC stack produces: the sdp of the
    offer of the [n]-th peer connection, of its answer to a remote offer
    sdp, and an sdp once ICE gathering has completed (or timed out); and
    what [addIceCandidate] reads of a session description: the media
    identifiers ([a=mid]) of its media descriptions, in order, its ICE
    username fragment ([a=ice-ufrag]), and whether a candidate line
    parses. *)
Class Rtc := {
  offer_sdp : nat -> string;
  answer_sdp : nat -> string -> string;
  gathered : string -> string;
  sdp_mids : string -> list string;
  sdp_ufrag : string -> string;
  cand_parses : string -> bool
}.

(** [RTCSessionDescription.toJSON()]: [{ type, sdp }]. *)
Definition desc (ty sdp : string) : jvalue := JObj [("type", JStr ty); ("sdp", JStr sdp)].

(** An [RTCPeerConnection]: its local and remote descriptions as
    (type, sdp) and the remote candidates added. *)
Record pc := mkPc {
  pc_id : nat;
  pc_local : option (string * string);
  pc_remote : option (string * string);
  pc_cands : list jvalue
}.

(** [pc.localDescription]: [null] before [setLocalDescription]. *)
Definition local_description (p : pc) : jvalue :=
  match pc_local p with Some (ty, s) => desc ty s | None => JNull end.

(** [setRemoteDescription(d)]: an offer in the [stable] state, an answer
    in [have-local-offer]; anything else is rejected. *)
Definition set_remote (p : pc) (d : jvalue) : throws pc :=
  let! ty := get d "type" in
  let! sdp := get d "sdp" in
  match ty, sdp with
  | Some (JStr t), Some (JStr s) =>
      let p' := mkPc (pc_id p) (pc_local p) (Some (t, s)) (pc_cands p) in
      if String.eqb t "offer" then
        match pc_local p, pc_remote p with None, None => inr p' | _, _ => inl InvalidStateError end
      else if String.eqb t "answer" then
        match pc_local p, pc_remote p with
        | Some ("offer", _), None => inr p'
        | _, _ => inl InvalidStateError
        end%string
      else inl TypeError
  | _, _ => inl TypeError
  end.

Section Descriptions.
Context `{R : Rtc}.

(** A string member of the [RTCIceCandidateInit] dictionary [c]
    converts to: absent, [null] or of another JSON type is [None] (the
    [ToString] of a number or an object is not modelled). *)
Definition ice_str (c : jvalue) (k : string) : option string :=
  match get c k with inr (Some (JStr s)) => Some s | _ => None end.

(** The [sdpMLineIndex] member: a number, or [None]. *)
Definition ice_idx (c : jvalue) : option Z :=
  match get c "sdpMLineIndex" with inr (Some (JNum i)) => Some i | _ => None end.

(** [addIceCandidate(c)] (line 131), as the WebRTC specification
    describes it: a value that is not a dictionary is a [TypeError]
    ([null], [undefined] and arrays convert to [{}]); a candidate with
    neither [sdpMid] nor [sdpMLineIndex] is a [TypeError]; without a
    remote description it is an [InvalidStateError]; an [sdpMid] that
    names no media description of the remote description, or else an
    [sdpMLineIndex] beyond them, and a [usernameFragment] other than the
    remote description's, are an [OperationError], as is a candidate line
    that does not parse; an empty candidate marks the end of candidates
    and adds nothing. *)
Definition add_ice (p : pc) (c : option jvalue) : throws pc :=
  match c with
  | Some (JBool _ | JNum _ | JStr _) => inl TypeError
  | _ =>
      let cv := match c with Some (JObj fs) => JObj fs | _ => JObj [] end in
      let text := default "" (ice_str cv "candidate") in
      let mid := ice_str cv "sdpMid" in
      if decide (text ≠ "" ∧ mid = None ∧ ice_idx cv = None) then inl TypeError else
      match pc_remote p with
      | None => inl InvalidStateError
      | Some (_, sdp) =>
          let media_ok :=
            match mid, ice_idx cv with
            | Some m, _ => bool_decide (m ∈ sdp_mids sdp)
            | None, Some i => bool_decide (0 ≤ i < Z.of_nat (length (sdp_mids sdp)))%Z
            | None, None => true
            end in
          let ufrag_ok :=
            match ice_str cv "usernameFragment" with
            | Some u => String.eqb u (sdp_ufrag sdp)
            | None => true
            end in
          if negb (media_ok && ufrag_ok) then inl OperationError
          else if String.eqb text "" then inr p
          else if cand_parses text
          then inr (mkPc (pc_id p) (pc_local p) (pc_remote p) (pc_cands p ++ [cv]))
          else inl OperationError
      end
  end.

(** [setLocalDescription(d)], then [waitForIceGatheringComplete]. *)
Definition set_local_gathered (p : pc) (ty sdp : string) : pc :=
  mkPc (pc_id p) (Some (ty, gathered sdp)) (pc_remote p) (pc_cands p).

(** [createAnswer()]: needs a remote offer. *)
Definition create_answer (p : pc) : throws string :=
  match pc_remote p with
  | Some ("offer", s) => inr (answer_sdp (pc_id p) s)
  | _ => inl InvalidStateError
  end%string.
End Descriptions.

(** ** The page *)

(** [showStatus(msg, 'success' | 'info' | 'error')]. *)
Inductive skind := Success | Info | Failure.

(** The [readyState] of the data channel. *)
Inductive chan := ChConnecting | ChOpen | ChClosed.

#[export] Instance chan_eq_dec : EqDecision chan.
Proof. solve_decision. Defined.

Record page := mkPage {
  ws_state : Relay.ready;
  peerConnection : option pc;
  dataChannel : option chan;
  isInitiator : bool;
  next_pc : nat;
  tokenInput : string;
  answerInput : string;
  answerShown : bool;
  qr : option (string * nat);
  fileDisabled : bool;
  shareDisabled : bool;
  status : string * skind
}.

(** The page as loaded (lines 10-43): the socket is connecting, the
    file input and the share button are disabled. *)
Definition init : page :=
  mkPage Relay.CONNECTING None None false 0 "" "" false None true true ("", Info).

Definition show_status (m : string) (k : skind) (pg : page) : page :=
  mkPage (ws_state pg) (peerConnection pg) (dataChannel pg) (isInitiator pg) (next_pc pg)
    (tokenInput pg) (answerInput pg) (answerShown pg) (qr pg) (fileDisabled pg)
    (shareDisabled pg) (m, k).

Definition set_pc (p : pc) (pg : page) : page :=
  mkPage (ws_state pg) (Some p) (dataChannel pg) (isInitiator pg) (next_pc pg)
    (tokenInput pg) (answerInput pg) (answerShown pg) (qr pg) (fileDisabled pg)
    (shareDisabled pg) (status pg).

Definition set_ws (r : Relay.ready) (pg : page) : page :=
  mkPage r (peerConnection pg) (dataChannel pg) (isInitiator pg) (next_pc pg)
    (tokenInput pg) (answerInput pg) (answerShown pg) (qr pg) (fileDisabled pg)
    (shareDisabled pg) (status pg).

(** The token line and its QR code ([tokenInput.value = t;
    generateQRCode(t, size)]). *)
Definition show_token (t : string) (size : nat) (shown : bool) (pg : page) : page :=
  mkPage (ws_state pg) (peerConnection pg) (dataChannel pg) (isInitiator pg) (next_pc pg)
    t (answerInput pg) shown (Some (t, size)) (fileDisabled pg)
    (shareDisabled pg) (status pg).

Definition set_answer_input (t : string) (pg : page) : page :=
  mkPage (ws_state pg) (peerConnection pg) (dataChannel pg) (isInitiator pg) (next_pc pg)
    (tokenInput pg) t (answerShown pg) (qr pg) (fileDisabled pg)
    (shareDisabled pg) (status pg).

(** [fileInput.disabled = f; shareBtn.disabled = s]. *)
Definition set_inputs (f s : bool) (pg : page) : page :=
  mkPage (ws_state pg) (peerConnection pg) (dataChannel pg) (isInitiator pg) (next_pc pg)
    (tokenInput pg) (answerInput pg) (answerShown pg) (qr pg) f s (status pg).

Definition set_channel (c : chan) (pg : page) : page :=
  mkPage (ws_state pg) (peerConnection pg) (Some c) (isInitiator pg) (next_pc pg)
    (tokenInput pg) (answerInput pg) (answerShown pg) (qr pg) (fileDisabled pg)
    (shareDisabled pg) (status pg).

(** [createPeerConnection()] (lines 240-247), after [isInitiator = b]:
    a fresh connection with its handlers installed. *)
Definition create_peer_connection (b : bool) (pg : page) : page :=
  mkPage (ws_state pg) (Some (mkPc (next_pc pg) None None [])) (dataChannel pg) b
    (S (next_pc pg)) (tokenInput pg) (answerInput pg) (answerShown pg) (qr pg)
    (fileDisabled pg) (shareDisabled pg) (status pg).

(** [String(x)] of a JSON value or [undefined], as a template literal
    converts it. *)
Fixpoint js_string (v : jvalue) : string :=
  match v with
  | JNull => "null"
  | JBool true => "true"
  | JBool false => "false"
  | JNum z => pretty z
  | JStr s => s
  | JArr xs =>
      let fix items xs :=
        match xs with
        | [] => ""
        | [x] => match x with JNull => "" | _ => js_string x end
        | x :: xs => (match x with JNull => "" | _ => js_string x end) +:+ "," +:+ items xs
        end in items xs
  | JObj _ => "[object Object]"
  end%string.

Definition js_string_opt (o : option jvalue) : string :=
  match o with Some v => js_string v | None => "undefined" end.

(** ** The handlers *)

Section Handlers.
Context `{J : JsonCodec} `{B : Browser} `{R : Rtc}.

(** [ws.send(text)]: throws while the socket connects, drops the text
    once it is closing or closed. *)
Definition ws_send (pg : page) (text : string) : io (throws unit) :=
  match ws_state pg with
  | Relay.OPEN => Send text (Ret (inr ()))
  | Relay.CONNECTING => Ret (inl InvalidStateError)
  | _ => Ret (inr ())
  end.

(** [storeTokenAndGetShortUrl(tokenString)] (lines 56-65); an
    [undefined] token is dropped from the body by [JSON.stringify]. *)
Definition store_short_url (tok : option string) : io (throws string) :=
  Fetch POST "/store" (stringify (obj [("token", JStr <$> tok)])) (λ r,
    if negb (resp_ok r) then Ret (inl PlainError)
    else Ret (match parse (body_text (Store.rbody r)) with
              | None => inl SyntaxError
              | Some v => let! id := get v "id" in inr (origin +:+ "/t/" +:+ js_string_opt id)
              end)).

(** The inner [try] of lines 166-173 (the same code is at 196-203 and
    220-227): a text whose URL path starts with [/t/] is replaced by the
    body of that page when the fetch answers [ok]; the [throw] of a
    failed fetch lands in the empty [catch], which keeps the text. *)
Definition resolve (text : string) : io string :=
  let path := pathname text in
  if String.prefix "/t/" path then
    Fetch GET path "" (λ r, Ret (if resp_ok r then body_text (Store.rbody r) else text))
  else Ret text.

(** [handleScannedOrPastedToken(tokenOrUrl)] (lines 163-190). *)
Definition handle_scanned (raw : string) (pg : page) : io page :=
  let fail e pg' := Ret (show_status ("Error processing token: " +:+ message e) Failure pg') in
  text ← resolve (trim raw);
  match parse text with
  | None => fail SyntaxError pg
  | Some o =>
      match get o "type" with
      | inl e => fail e pg
      | inr ty =>
          if negb (is_str ty "offer") then Ret (show_status "Invalid offer token" Failure pg)
          else
            let pg1 := create_peer_connection false pg in
            match set_remote (mkPc (next_pc pg) None None []) o with
            | inl e => fail e pg1
            | inr p1 =>
                match create_answer p1 with
                | inl e => fail e (set_pc p1 pg1)
                | inr a =>
                    let p2 := set_local_gathered p1 "answer" a in
                    let pg2 := set_pc p2 pg1 in
                    r ← ws_send pg2 (stringify (Relay.msg_answer (local_description p2)));
                    match r with
                    | inl e => fail e pg2
                    | inr _ => Ret (show_status "Answer created. Share with initiator." Info pg2)
                    end
                end
            end
      end
  end.

(** The click handler of [createConnectionBtn] (lines 80-93). *)
Definition create_connection (pg : page) : io page :=
  match ws_state pg with
  | Relay.OPEN =>
      let pg1 := set_channel ChConnecting (create_peer_connection true pg) in
      let p := set_local_gathered (mkPc (next_pc pg) None None []) "offer" (offer_sdp (next_pc pg)) in
      let pg2 := set_pc p pg1 in
      r ← ws_send pg2 (stringify (Relay.msg_offer (local_description p)));
      match r with
      | inl _ => Ret pg2
      | inr _ => Ret (show_status "Offer created — short URL will be generated" Info pg2)
      end
  | _ => Ret (show_status "Signaling not connected" Failure pg)
  end.

(** The two branches of [ws.onmessage] that shorten a description:
    [JSON.stringify] of the description ([undefined] stays [undefined]),
    then the short URL, or the full token when shortening throws. *)
Definition shorten (d : option jvalue) (ok_msg : string) (ok_kind : skind) (shown : bool)
    (pg : page) : io page :=
  let tok := stringify <$> d in
  r ← store_short_url tok;
  Ret (match r with
       | inr short => show_status ok_msg ok_kind (show_token short 128 shown pg)
       | inl _ => show_status "Failed to shorten token — showing full token" Failure
                    (show_token (default "undefined" tok) 256 (answerShown pg) pg)
       end).

(** [ws.onmessage] (lines 96-133).  An exception ([JSON.parse] of a text
    that is not JSON, [data.type] of [null]) rejects the handler's
    promise: the page stays as it is. *)
Definition on_ws_message (raw : string) (pg : page) : io page :=
  match parse raw with
  | None => Ret pg
  | Some data =>
      match get data "type" with
      | inl _ => Ret pg
      | inr ty =>
          if is_str ty "offer-created" then
            match get data "offer" with
            | inl _ => Ret pg
            | inr d => shorten d "Offer short URL created. Share the QR." Info true pg
            end
          else if is_str ty "answer-created" then
            match get data "answer" with
            | inl _ => Ret pg
            | inr d => shorten d "Answer short URL created. Send to initiator." Success
                         (answerShown pg) pg
            end
          else if is_str ty "ice-candidate" then
            match peerConnection pg with
            | Some p =>
                match get data "candidate" with
                | inl _ => Ret pg
                | inr c => Ret (match add_ice p c with inl _ => pg | inr p' => set_pc p' pg end)
                end
            | None => Ret pg
            end
          else Ret pg
      end
  end.

(** [peerConnection.onicecandidate] (lines 150-154). *)
Definition on_ice_candidate (c : option jvalue) (pg : page) : io unit :=
  if truthy_opt c then (_ ← ws_send pg (stringify (Relay.msg_ice c)); Ret ()) else Ret ().

(** The click handler of [connectBtn] (lines 216-237). *)
Definition connect_click (pg : page) : io page :=
  let fail e := Ret (show_status ("Error connecting: " +:+ message e) Failure pg) in
  let answerText := trim (answerInput pg) in
  if String.eqb answerText "" then Ret (show_status "Please paste answer token" Failure pg)
  else
    text ← resolve answerText;
    match parse text with
    | None => fail SyntaxError
    | Some ad =>
        match get ad "type" with
        | inl e => fail e
        | inr ty =>
            if negb (is_str ty "answer") then Ret (show_status "Invalid answer token" Failure pg)
            else
              match peerConnection pg with
              | None => fail TypeError
              | Some p =>
                  match set_remote p ad with
                  | inl e => fail e
                  | inr p' =>
                      let pg1 := show_status "Connection established! You can choose files and send."
                                   Success (set_pc p' pg) in
                      Ret (set_inputs false
                             (if bool_decide (dataChannel pg = Some ChOpen) then false
                              else shareDisabled pg) pg1)
                  end
              end
        end
    end.

(** [autoHandleToken(tokenText)] (lines 193-213). *)
Definition auto_handle (tokenText : string) (pg : page) : io page :=
  let decoded := default tokenText (decode_uri tokenText) in
  text ← resolve decoded;
  match parse text with
  | None => Ret pg
  | Some o =>
      match get o "type" with
      | inl _ => Ret pg
      | inr ty =>
          if is_str ty "offer" then handle_scanned text pg
          else if is_str ty "answer" then connect_click (set_answer_input text pg)
          else Ret pg
      end
  end.

(** The click handler of [scanOfferBtn] (lines 157-161), given what the
    user typed into the prompt ([null] when cancelled). *)
Definition scan_click (txt : option string) (pg : page) : io page :=
  match txt with
  | Some t => if String.eqb t "" then Ret pg else handle_scanned t pg
  | None => Ret pg
  end.

(** The script of the reveal page that [GET /t/:id] serves (part_001
    lines 137-167), run on the device that opened the short URL:
    [reveal()] fetches [/consume/:id] and, unless [j.error], writes
    [j.token] into a textarea; "Copy" and "Send to App" ([openApp], whose
    [encodeURIComponent] the client's [URLSearchParams] undoes) hand on
    the textarea's value.  [None]: the page shows the expired message
    (also when [r.json()] throws). *)
Definition reveal_click (id : string) : io (option string) :=
  Fetch GET ("/consume/" +:+ id) "" (λ r,
    Ret (match parse (body_text (Store.rbody r)) with
         | None => None
         | Some j =>
             match get j "error" with
             | inl _ => None
             | inr e =>
                 if truthy_opt e then None
                 else match get j "token" with
                      | inl _ => None
                      | inr t => Some (textarea_value (js_string_opt t))
                      end
             end
         end)).

(** ** The page as a sequence of events *)

Inductive event :=
| ELoadToken (t : string)
| EWsOpen
| EWsError
| EWsClose
| EWsMessage (raw : string)
| ECreate
| EScan (txt : option string)
| EAnswerTyped (t : string)
| EConnect
| EIce (c : option jvalue)
| EDataChannel
| EChanOpen
| EChanClose
| EPeerConnected
| ECopy.

(** The page's start (lines 2-8): [urlParams.get('token')], the value
    of the [?token=] parameter ([None] when absent), schedules
    [autoHandleToken] 300 ms later when it is not empty. *)
Definition page_load (autoToken : option string) : list (N * event) :=
  match autoToken with
  | Some t => if String.eqb t "" then [] else [(300%N, ELoadToken t)]
  | None => []
  end.

(** [peerConnection.ondatachannel] (line 246): the responder's channel
    arrives, still connecting. *)
Definition on_data_channel (pg : page) : page := set_channel ChConnecting pg.

(** [dataChannel.onopen] (line 251). *)
Definition chan_open (pg : page) : page :=
  show_status "Data channel open" Success (set_inputs false false (set_channel ChOpen pg)).

(** [dataChannel.onclose] (line 252). *)
Definition chan_close (pg : page) : page :=
  show_status "Data channel closed" Info (set_inputs true true (set_channel ChClosed pg)).

(** [peerConnection.onconnectionstatechange] once the state is
    [connected] (lines 243-245). *)
Definition peer_connected (pg : page) : page := show_status "Peer connected!" Success pg.

(** The copy button (line 306); the clipboard is outside the page. *)
Definition copy_click (pg : page) : page := show_status "Token copied!" Success pg.

(** One event of the page: the [?token=] of the URL (lines 2-8), the
    socket's handlers (lines 96-147), the buttons (the copy button of
    line 306 writes to the clipboard, outside the page), the peer
    connection's handlers (lines 150-154, 243-246) and the data
    channel's (lines 251-253). *)
Definition exec (e : event) (pg : page) : io page :=
  match e with
  | ELoadToken t => auto_handle t pg
  | EWsOpen => Ret (show_status "Signaling server connected" Success (set_ws Relay.OPEN pg))
  | EWsError => Ret (show_status "Signaling connection error" Failure pg)
  | EWsClose => Ret (show_status "Signaling connection closed" Info (set_ws Relay.CLOSED pg))
  | EWsMessage raw => on_ws_message raw pg
  | ECreate => create_connection pg
  | EScan t => scan_click t pg
  | EAnswerTyped t => Ret (set_answer_input t pg)
  | EConnect => connect_click pg
  | EIce c => _ ← on_ice_candidate c pg; Ret pg
  | EDataChannel => Ret (on_data_channel pg)
  | EChanOpen => Ret (chan_open pg)
  | EChanClose => Ret (chan_close pg)
  | EPeerConnected => Ret (peer_connected pg)
  | ECopy => Ret (copy_click pg)
  end.

End Handlers.

(** ** Running programs *)

Section RunFacts.
Context `{J : JsonCodec} (uuid : nat -> string).

Lemma run_io_bind {A B} (p : io A) (f : A -> io B) n st :
  run_io uuid (p ≫= f) n st =
    let o := run_io uuid p n st in
    let o' := run_io uuid (f (o_val o)) (o_uuid o) (o_srv o) in
    mkOutcome (o_val o') (o_uuid o') (o_srv o') (o_sent o ++ o_sent o').
Proof.
  revert n st. induction p as [a|m path body k IH|t k IH]; intros n st; simpl.
  - by destruct (run_io uuid (f a) n st).
  - destruct (serve _ _ _ _ _) as [st1 r]. apply IH.
  - unfold mbind in IH. rewrite IH. done.
Qed.

Lemma run_io_ret {A} (a : A) n st : run_io uuid (Ret a) n st = mkOutcome a n st [].
Proof. done. Qed.
End RunFacts.

(** ** Strings and routes *)

Lemma trim_start_id c s : js_space c = false -> trim_start (String c s) = String c s.
Proof. simpl. by intros ->. Qed.

Lemma list_ascii_app s t :
  String.list_ascii_of_string (s +:+ t) = String.list_ascii_of_string s ++ String.list_ascii_of_string t.
Proof. induction s as [|c s IH]; simpl; [done|by rewrite IH]. Qed.

(** A text that starts with [{] and ends with [}] has nothing to trim. *)
Lemma trim_braces s : trim (String "{" (s +:+ "}")) = String "{" (s +:+ "}").
Proof.
  unfold trim. rewrite (trim_start_id "{"%char) by reflexivity.
  cbn [String.list_ascii_of_string rev]. rewrite list_ascii_app. cbn [String.list_ascii_of_string].
  rewrite rev_unit. cbn [app String.string_of_list_ascii].
  rewrite (trim_start_id "}"%char) by reflexivity. cbn [String.list_ascii_of_string].
  rewrite String.list_ascii_of_string_of_list_ascii. cbn [rev].
  rewrite rev_unit, rev_involutive. cbn [app String.string_of_list_ascii].
  f_equal. change ["}"%char] with (String.list_ascii_of_string "}").
  rewrite <-list_ascii_app. apply String.string_of_list_ascii_of_string.
Qed.

Section JsonText.
Context `{J : JsonCodec}.

Lemma trim_stringify_obj fs : trim (stringify (JObj fs)) = stringify (JObj fs).
Proof. destruct (stringify_obj fs) as [s ->]. apply trim_braces. Qed.

(** Text whose first non-blank character is [<]. *)
Fixpoint starts_markup (s : string) : bool :=
  match s with
  | String c s' => if json_ws c then starts_markup s' else bool_decide (c = "<"%char)
  | EmptyString => false
  end.

Lemma starts_markup_split s :
  starts_markup s = true -> ∃ ws rest, ws_only ws = true ∧ s = ws +:+ String "<" rest.
Proof.
  induction s as [|c s IH]; simpl; [done|].
  destruct (json_ws c) eqn:Hc.
  - intros (ws & rest & Hws & ->)%IH. exists (String c ws), rest. split; [|done].
    unfold ws_only. simpl. by rewrite Hc.
  - intros ->%bool_decide_eq_true. by exists EmptyString, s.
Qed.

Lemma parse_starts_markup s : starts_markup s = true -> parse s = None.
Proof. intros (ws & rest & Hws & ->)%starts_markup_split. by apply parse_markup. Qed.

(** No page of the server is JSON. *)
Lemma parse_html p : parse (html_of p) = None.
Proof. apply parse_starts_markup. by destruct p. Qed.
End JsonText.

Lemma plain_id_no_slash id : plain_id id = true -> str_has "/" id = false.
Proof.
  unfold plain_id, str_has. intros [_ Hall]%andb_prop.
  induction (String.list_ascii_of_string id) as [|c l IH]; simpl in *; [done|].
  apply andb_prop in Hall as [Hc Hl]. rewrite IH by done.
  rewrite orb_false_r. apply bool_decide_eq_false. intros ->. discriminate.
Qed.

Lemma prefix_app p s : String.prefix p (p +:+ s) = true.
Proof.
  induction p as [|c p IH]; [by destruct s|].
  rewrite str_app_cons. simpl. by destruct (ascii_dec c c).
Qed.

Lemma strip_prefix_app p s : strip_prefix p (p +:+ s) = Some s.
Proof. induction p as [|c p IH]; [done|]. simpl. by rewrite decide_True. Qed.

Lemma route_param_plain p id : plain_id id = true -> route_param p (p +:+ id) = Some id.
Proof.
  intros Hid. unfold route_param. rewrite strip_prefix_app, plain_id_no_slash by done.
  unfold plain_id in Hid. apply andb_prop in Hid as [Hne _]. by rewrite Hne.
Qed.

(** ** The handlers on the token server *)

Section ClientProofs.
Context `{J : JsonCodec} `{B : Browser} `{R : Rtc} (uuid : nat -> string).

(** A short URL of this origin. *)
Definition short_url (id : string) : string := origin +:+ "/t/" +:+ id.

(** A JSON object text is not a short URL: [resolve] leaves it as it is. *)
Lemma resolve_obj fs n st :
  run_io uuid (resolve (stringify (JObj fs))) n st = mkOutcome (stringify (JObj fs)) n st [].
Proof. unfold resolve. destruct (stringify_obj fs) as [s ->]. by rewrite pathname_json. Qed.

(** A short URL of a live token resolves to the reveal page, which the
    server serves without consuming the token. *)
Lemma resolve_short id n st :
  plain_id id = true ->
  Store.reveal id st = Store.mkResp 200 (Store.BHtml (Store.RevealPage id)) ->
  run_io uuid (resolve (short_url id)) n st = mkOutcome (html_of (Store.RevealPage id)) n st [].
Proof.
  intros Hid Hr. unfold resolve, short_url. rewrite pathname_short, prefix_app by done.
  simpl. rewrite route_param_plain by done. rewrite Hr. done.
Qed.
Lemma stringify_obj_nonempty fs : String.eqb (stringify (JObj fs)) "" = false.
Proof. by destruct (stringify_obj fs) as [s ->]. Qed.

Lemma wf_token t : wf (JObj [("token", JStr t)]) = true.
Proof. reflexivity. Qed.

(** [POST /store] of a non-empty token: the server records it under the
    next uuid and the client builds the short URL of that id. *)
Lemma store_short_url_ok t n st :
  String.eqb t "" = false ->
  run_io uuid (store_short_url (Some t)) n st =
    mkOutcome (inr (short_url (uuid n))) (S n)
      (Store.store (uuid n) (JObj [("token", JStr t)]) st).1 [].
Proof.
  intros Ht. unfold store_short_url. cbn [run_io serve].
  change (obj [("token", JStr <$> Some t)]) with (JObj [("token", JStr t)]).
  rewrite parse_stringify by apply wf_token.
  unfold Store.store. cbn. rewrite Ht. cbn.
  rewrite parse_stringify by reflexivity. done.
Qed.

(** Shortening a description object: the short URL of the next uuid is
    shown, its QR code drawn, and the server holds the description's
    text under that uuid. *)
Lemma shorten_ok fs m k sh pg n st :
  run_io uuid (shorten (Some (JObj fs)) m k sh pg) n st =
    mkOutcome (show_status m k (show_token (short_url (uuid n)) 128 sh pg)) (S n)
      (Store.store (uuid n) (JObj [("token", JStr (stringify (JObj fs)))]) st).1 [].
Proof.
  unfold shorten. rewrite run_io_bind. cbn [fmap option_fmap option_map].
  rewrite store_short_url_ok by apply stringify_obj_nonempty. done.
Qed.

(** The stored token is handed out by [GET /consume/:id]. *)
Lemma consume_stored id t st :
  String.eqb t "" = false ->
  (Store.consume id (Store.store id (JObj [("token", JStr t)]) st).1).2 = Store.resp_token (JStr t).
Proof.
  intros Ht. unfold Store.store. cbn. rewrite Ht. cbn.
  rewrite (Store.consume_live _ _ (JStr t)); [done|]. cbn.
  rewrite lookup_insert_eq. cbn. by rewrite Ht.
Qed.

Lemma parse_msg2 k1 s k2 d :
  wf d = true -> k1 ≠ k2 ->
  parse (stringify (obj [(k1, Some (JStr s)); (k2, Some d)])) = Some (JObj [(k1, JStr s); (k2, d)]).
Proof. intros Hwf Hne. rewrite obj2_some. apply parse_stringify. by rewrite wf_obj2. Qed.

(** The relay's [answer-created] echo: the answer's short URL. *)
Lemma answer_created_short_url fs pg n st :
  wf (JObj fs) = true ->
  run_io uuid (on_ws_message (stringify (Relay.msg_answer_created (Some (JObj fs)))) pg) n st =
    mkOutcome (show_status "Answer short URL created. Send to initiator." Success
                 (show_token (short_url (uuid n)) 128 (answerShown pg) pg)) (S n)
      (Store.store (uuid n) (JObj [("token", JStr (stringify (JObj fs)))]) st).1 [].
Proof.
  intros Hwf. unfold on_ws_message, Relay.msg_answer_created. rewrite parse_msg2 by done.
  cbn -[shorten Store.store]. apply shorten_ok.
Qed.

Lemma offer_created_ok fs pg n st :
  wf (JObj fs) = true ->
  run_io uuid (on_ws_message (stringify (Relay.msg_offer_created (Some (JObj fs)))) pg) n st =
    mkOutcome (show_status "Offer short URL created. Share the QR." Info
                 (show_token (short_url (uuid n)) 128 true pg)) (S n)
      (Store.store (uuid n) (JObj [("token", JStr (stringify (JObj fs)))]) st).1 [].
Proof.
  intros Hwf. unfold on_ws_message, Relay.msg_offer_created. rewrite parse_msg2 by done.
  cbn -[shorten Store.store]. apply shorten_ok.
Qed.

(** C20: the offer's short URL.  When the relay echoes the page's offer
    as [offer-created], the page stores the offer's JSON text under the
    next uuid of the server, shows the short URL of that id with its QR
    code and the answer section, and sends nothing; [GET /consume/:id] of
    that id then hands back the offer's text. *)
Theorem offer_created_short_url fs pg n st :
  wf (JObj fs) = true ->
  let o := run_io uuid (on_ws_message (stringify (Relay.msg_offer_created (Some (JObj fs)))) pg)
             n st in
  o_val o = show_status "Offer short URL created. Share the QR." Info
              (show_token (short_url (uuid n)) 128 true pg) ∧
  o_sent o = [] ∧ o_uuid o = S n ∧
  (Store.consume (uuid n) (o_srv o)).2 = Store.resp_token (JStr (stringify (JObj fs))).
Proof.
  intros Hwf. rewrite offer_created_ok by done. cbn -[Store.store]. split_and!; try done.
  apply consume_stored, stringify_obj_nonempty.
Qed.

(** C10: a short URL cannot be pasted.  The client resolves a pasted or
    scanned [/t/id] URL by fetching it and parsing the body as the token,
    but [GET /t/:id] serves the HTML reveal page: for a live token
    [JSON.parse] throws, the offer is never processed, the answer is
    never accepted, and the auto flow does nothing.  The token stays in
    the store. *)
Theorem short_url_rejected id pg n st :
  plain_id id = true -> trim (short_url id) = short_url id ->
  str_has "%" (short_url id) = false ->
  Store.reveal id st = Store.mkResp 200 (Store.BHtml (Store.RevealPage id)) ->
  run_io uuid (handle_scanned (short_url id) pg) n st =
    mkOutcome (show_status ("Error processing token: " +:+ message SyntaxError) Failure pg)
      n st [] ∧
  run_io uuid (connect_click (set_answer_input (short_url id) pg)) n st =
    mkOutcome (show_status ("Error connecting: " +:+ message SyntaxError) Failure
                 (set_answer_input (short_url id) pg)) n st [] ∧
  run_io uuid (auto_handle (short_url id) pg) n st = mkOutcome pg n st [].
Proof.
  intros Hid Htrim Hpct Hr. split_and!.
  - unfold handle_scanned. rewrite run_io_bind, Htrim, resolve_short by done.
    cbn [o_val o_uuid o_srv o_sent]. by rewrite parse_html.
  - unfold connect_click. cbn [answerInput set_answer_input]. rewrite Htrim.
    destruct (String.eqb _ _) eqn:E.
    { apply String.eqb_eq in E. unfold short_url in E. destruct origin; discriminate. }
    rewrite run_io_bind, resolve_short by done.
    cbn [o_val o_uuid o_srv o_sent]. by rewrite parse_html.
  - unfold auto_handle. rewrite decode_plain by done.
    change (default (short_url id) (Some (short_url id))) with (short_url id).
    rewrite run_io_bind, resolve_short by done.
    cbn [o_val o_uuid o_srv o_sent]. by rewrite parse_html.
Qed.

Lemma wf_desc ty sdp : wf (desc ty sdp) = true.
Proof. reflexivity. Qed.

Lemma get_desc_type ty sdp : get (desc ty sdp) "type" = inr (Some (JStr ty)).
Proof. reflexivity. Qed.

Lemma resolve_desc ty sdp n st :
  run_io uuid (resolve (stringify (desc ty sdp))) n st = mkOutcome (stringify (desc ty sdp)) n st [].
Proof. apply resolve_obj. Qed.

(** The peer connection of the answering side once it has answered the
    offer [s]. *)
Definition answerer_pc (k : nat) (s : string) : pc :=
  mkPc k (Some ("answer", gathered (answer_sdp k s))) (Some ("offer", s)) [].

(** Answering an offer.  A pasted or scanned offer token (the JSON
    text of the offer) makes the page a non-initiator with a new peer
    connection whose remote description is that offer, and the page
    sends exactly one message on the open signaling socket: the answer
    with the gathered local description.  The server is not called. *)
Theorem scanned_offer_answers s pg n st :
  ws_state pg = Relay.OPEN ->
  run_io uuid (handle_scanned (stringify (desc "offer" s)) pg) n st =
    mkOutcome (show_status "Answer created. Share with initiator." Info
                 (set_pc (answerer_pc (next_pc pg) s) (create_peer_connection false pg)))
      n st [stringify (Relay.msg_answer (desc "answer" (gathered (answer_sdp (next_pc pg) s))))].
Proof.
  intros Hws. unfold handle_scanned, desc.
  rewrite trim_stringify_obj, run_io_bind, resolve_obj. cbn [o_val o_uuid o_srv o_sent].
  rewrite parse_stringify by apply wf_desc. cbn -[stringify].
  unfold ws_send. cbn [ws_state set_pc create_peer_connection]. rewrite Hws. done.
Qed.

(** [connect_click] with an answer token in the answer field: only the
    peer connection decides the outcome. *)
Lemma connect_click_answer a pg n st :
  answerInput pg = stringify (desc "answer" a) ->
  run_io uuid (connect_click pg) n st =
    mkOutcome
      (match peerConnection pg with
       | None => show_status ("Error connecting: " +:+ message TypeError) Failure pg
       | Some p =>
           match set_remote p (desc "answer" a) with
           | inl e => show_status ("Error connecting: " +:+ message e) Failure pg
           | inr p' =>
               set_inputs false
                 (if bool_decide (dataChannel pg = Some ChOpen) then false else shareDisabled pg)
                 (show_status "Connection established! You can choose files and send." Success
                    (set_pc p' pg))
           end
       end) n st [].
Proof.
  intros Ha. unfold connect_click. rewrite Ha. unfold desc.
  rewrite trim_stringify_obj, stringify_obj_nonempty, run_io_bind, resolve_obj.
  cbn [o_val o_uuid o_srv o_sent]. rewrite parse_stringify by apply wf_desc.
  cbn -[stringify set_remote]. destruct (peerConnection pg) as [p|]; [|done].
  by destruct (set_remote p _).
Qed.

(** Completing the connection.  On the initiating page (a peer
    connection with a local offer and no remote description), Connect
    with the answer token in the answer field sets that answer as the
    remote description, enables the file input, enables Send when the
    data channel is already open, and calls neither the server nor the
    relay. *)
Theorem connect_answer p x a pg n st :
  peerConnection pg = Some p -> pc_local p = Some ("offer", x) -> pc_remote p = None ->
  answerInput pg = stringify (desc "answer" a) ->
  run_io uuid (connect_click pg) n st =
    mkOutcome (set_inputs false
                 (if bool_decide (dataChannel pg = Some ChOpen) then false else shareDisabled pg)
                 (show_status "Connection established! You can choose files and send." Success
                    (set_pc (mkPc (pc_id p) (pc_local p) (Some ("answer", a)) (pc_cands p)) pg)))
      n st [].
Proof.
  intros Hp Hl Hr Ha. rewrite (connect_click_answer a) by done. rewrite Hp.
  unfold set_remote. cbn. by rewrite Hl, Hr.
Qed.

(** The auto flow of a page opened with a description's JSON text. *)
Lemma auto_handle_desc ty sdp pg n st :
  str_has "%" (stringify (desc ty sdp)) = false ->
  run_io uuid (auto_handle (stringify (desc ty sdp)) pg) n st =
    if String.eqb ty "offer" then run_io uuid (handle_scanned (stringify (desc ty sdp)) pg) n st
    else if String.eqb ty "answer" then
      run_io uuid (connect_click (set_answer_input (stringify (desc ty sdp)) pg)) n st
    else mkOutcome pg n st [].
Proof.
  intros Hpct. unfold auto_handle. rewrite decode_plain by done.
  change (default ?x (Some ?y)) with y.
  rewrite run_io_bind, resolve_desc. cbn [o_val o_uuid o_srv o_sent].
  rewrite parse_stringify by apply wf_desc. cbn iota beta. rewrite get_desc_type.
  cbn [is_str app]. destruct (String.eqb ty "offer"); [|destruct (String.eqb ty "answer")];
    [destruct (run_io _ _ _ _)..|]; done.
Qed.

(** C29: an answer on a page without a peer connection.  Connect, and the
    auto flow of a page opened with [?token=] and an answer (the reveal
    page's "Send to App" button loads a fresh page), reach
    [peerConnection.setRemoteDescription] while [peerConnection] is still
    [null]: the [TypeError] is reported and the answer is lost. *)
Theorem answer_without_pc a pg n st :
  peerConnection pg = None -> str_has "%" (stringify (desc "answer" a)) = false ->
  let pg' := set_answer_input (stringify (desc "answer" a)) pg in
  run_io uuid (connect_click pg') n st =
    mkOutcome (show_status ("Error connecting: " +:+ message TypeError) Failure pg') n st [] ∧
  run_io uuid (auto_handle (stringify (desc "answer" a)) pg) n st =
    mkOutcome (show_status ("Error connecting: " +:+ message TypeError) Failure pg') n st [].
Proof.
  intros Hp Hpct pg'. assert (Hc : run_io uuid (connect_click pg') n st =
    mkOutcome (show_status ("Error connecting: " +:+ message TypeError) Failure pg') n st []).
  { rewrite (connect_click_answer a) by done. unfold pg'.
    cbn [peerConnection set_answer_input]. by rewrite Hp. }
  split; [done|]. rewrite auto_handle_desc by done. exact Hc.
Qed.

(** The offering side's peer connection once its offer is gathered. *)
Definition offerer_pc (k : nat) : pc := mkPc k (Some ("offer", gathered (offer_sdp k))) None [].

Lemma create_connection_open pg n st :
  ws_state pg = Relay.OPEN ->
  run_io uuid (create_connection pg) n st =
    mkOutcome (show_status "Offer created — short URL will be generated" Info
                 (set_pc (offerer_pc (next_pc pg))
                    (set_channel ChConnecting (create_peer_connection true pg))))
      n st [stringify (Relay.msg_offer (desc "offer" (gathered (offer_sdp (next_pc pg)))))].
Proof. intros Hws. unfold create_connection, ws_send. rewrite Hws. cbn. by rewrite Hws. Qed.

(** Text that survives the reveal page and the [?token=] link
    unchanged. *)
Definition plain_text (t : string) : bool :=
  negb (str_has "%" t || str_has "&" t || str_has "<" t).

Lemma route_param_t_consume id : route_param "/t/" ("/consume/" +:+ id) = None.
Proof. reflexivity. Qed.

(** The reveal page of a stored token hands the token on and burns it. *)
Lemma reveal_click_stored id t n st :
  plain_id id = true -> String.eqb t "" = false -> plain_text t = true ->
  ∃ st', run_io uuid (reveal_click id) n (Store.store id (JObj [("token", JStr t)]) st).1 =
           mkOutcome (Some t) n st' [].
Proof.
  intros Hid Ht Hp. unfold plain_text in Hp.
  apply negb_true_iff, orb_false_iff in Hp as [[Hpct Hamp]%orb_false_iff Hlt].
  unfold reveal_click. cbn [run_io serve]. rewrite route_param_t_consume, route_param_plain by done.
  destruct (Store.consume id _) as [st' r] eqn:Hc.
  pose proof (consume_stored id t st Ht) as Hr. rewrite Hc in Hr. cbn in Hr. subst r.
  exists st'. cbn -[stringify]. rewrite parse_stringify by reflexivity. cbn.
  by rewrite textarea_plain.
Qed.

End ClientProofs.
(** ** The QR handshake end to end *)

Section Scenario.
Context `{J : JsonCodec} `{B : Browser} `{R : Rtc} (uuid : nat -> string).

(** The relay's answers to the texts a page sent on its socket [c]. *)
Definition relay_all (rl : Relay.state) (c : Relay.conn) (texts : list string) : Relay.outbox :=
  concat ((λ t, Relay.on_message rl c t) <$> texts).

(** The page on socket [c] handles, in order, the relay's messages
    addressed to it. *)
Fixpoint run_msgs (c : Relay.conn) (out : Relay.outbox) (pg : page) (n : nat) (st : Store.state)
    : outcome page :=
  match out with
  | [] => mkOutcome pg n st []
  | (d, v) :: out' =>
      if decide (d = c) then
        let o := run_io uuid (on_ws_message (stringify v) pg) n st in
        let o' := run_msgs c out' (o_val o) (o_uuid o) (o_srv o) in
        mkOutcome (o_val o') (o_uuid o') (o_srv o') (o_sent o ++ o_sent o')
      else run_msgs c out' pg n st
  end.

(** The id of the short URL a page shows in its token line. *)
Definition shown_id (pg : page) : option string := strip_prefix (origin +:+ "/t/") (tokenInput pg).

(** The QR flow, one user action after the other.  On page [pa] (socket
    [ca]) the user clicks "Create connection"; the relay echoes the
    offer and the page shows the offer's short URL.  The other user opens
    it, taps Reveal and "Send to App": page [pb] (socket [cb]) is opened
    with [?token=], answers, and shows the answer's short URL after the
    relay's echo.  The first user reveals that one, pastes the token into
    the answer field and clicks Connect.  The result is the two pages,
    or [None] when a reveal page shows the expired message or a page
    shows no short URL. *)
Definition qr_handshake (pa pb : page) (rl : Relay.state) (ca cb : Relay.conn) (n : nat)
    (st : Store.state) : option (page * page) :=
  let o1 := run_io uuid (create_connection pa) n st in
  let o2 := run_msgs ca (relay_all rl ca (o_sent o1)) (o_val o1) (o_uuid o1) (o_srv o1) in
  idA ← shown_id (o_val o2);
  let o3 := run_io uuid (reveal_click idA) (o_uuid o2) (o_srv o2) in
  tA ← o_val o3;
  let o4 := run_io uuid (auto_handle tA pb) (o_uuid o3) (o_srv o3) in
  let o5 := run_msgs cb (relay_all rl cb (o_sent o4)) (o_val o4) (o_uuid o4) (o_srv o4) in
  idB ← shown_id (o_val o5);
  let o6 := run_io uuid (reveal_click idB) (o_uuid o5) (o_srv o5) in
  tB ← o_val o6;
  let o7 := run_io uuid (connect_click (set_answer_input tB (o_val o2))) (o_uuid o6) (o_srv o6) in
  Some (o_val o7, o_val o5).

Lemma run_msgs_single c v pg n st :
  run_msgs c [(c, v)] pg n st = run_io uuid (on_ws_message (stringify v) pg) n st.
Proof.
  simpl. rewrite decide_True by done. destruct (run_io _ _ _ _). simpl. by rewrite app_nil_r.
Qed.

Lemma shown_id_short id t k sh pg :
  shown_id (show_status t k (show_token (short_url id) 128 sh pg)) = Some id.
Proof. unfold shown_id, short_url. simpl. rewrite str_app_assoc. apply strip_prefix_app. Qed.

(** The offering page: Create, the relay's echo, the short URL. *)
Lemma offer_phase pa rl ca n st :
  ws_state pa = Relay.OPEN -> Relay.is_open rl ca = true ->
  let o1 := run_io uuid (create_connection pa) n st in
  run_msgs ca (relay_all rl ca (o_sent o1)) (o_val o1) (o_uuid o1) (o_srv o1) =
    mkOutcome (show_status "Offer short URL created. Share the QR." Info
                 (show_token (short_url (uuid n)) 128 true
                    (show_status "Offer created — short URL will be generated" Info
                       (set_pc (offerer_pc (next_pc pa))
                          (set_channel ChConnecting (create_peer_connection true pa))))))
      (S n) (Store.store (uuid n)
               (JObj [("token", JStr (stringify (desc "offer" (gathered (offer_sdp (next_pc pa))))))])
               st).1 [].
Proof.
  intros Hws Ho o1. subst o1. rewrite create_connection_open by done.
  cbn [o_val o_uuid o_srv o_sent]. unfold relay_all. cbn [fmap list_fmap concat].
  rewrite Relay.on_message_offer, app_nil_r, run_msgs_single by (done || apply wf_desc).
  apply offer_created_ok, wf_desc.
Qed.

(** The answering page opened with the offer: the answer, the relay's
    echo, the short URL. *)
Lemma answer_phase pb rl cb sdp n st :
  ws_state pb = Relay.OPEN -> Relay.is_open rl cb = true ->
  str_has "%" (stringify (desc "offer" sdp)) = false ->
  let o4 := run_io uuid (auto_handle (stringify (desc "offer" sdp)) pb) n st in
  run_msgs cb (relay_all rl cb (o_sent o4)) (o_val o4) (o_uuid o4) (o_srv o4) =
    mkOutcome (show_status "Answer short URL created. Send to initiator." Success
                 (show_token (short_url (uuid n)) 128 (answerShown pb)
                    (show_status "Answer created. Share with initiator." Info
                       (set_pc (answerer_pc (next_pc pb) sdp) (create_peer_connection false pb)))))
      (S n) (Store.store (uuid n)
               (JObj [("token", JStr (stringify (desc "answer"
                                                   (gathered (answer_sdp (next_pc pb) sdp)))))])
               st).1 [].
Proof.
  intros Hws Hc Hpct o4. subst o4. rewrite auto_handle_desc by done.
  change (String.eqb "offer" "offer") with true. cbn iota.
  rewrite scanned_offer_answers by done.
  cbn [o_val o_uuid o_srv o_sent]. unfold relay_all. cbn [fmap list_fmap concat].
  rewrite Relay.on_message_answer, app_nil_r, run_msgs_single by (done || apply wf_desc).
  change (Some (desc ?t ?x)) with (Some (JObj [("type", JStr t); ("sdp", JStr x)])).
  rewrite answer_created_short_url by apply wf_desc. reflexivity.
Qed.

Lemma plain_text_pct t : plain_text t = true -> str_has "%" t = false.
Proof. unfold plain_text. destruct (str_has "%" t); done. Qed.

(** C9: the QR handshake connects the two pages.  With both pages'
    signaling sockets open and known to the relay, the flow of
    [qr_handshake] (create, echo, short URL, reveal, answer, echo, short
    URL, reveal, paste, connect) ends with each page's peer connection
    holding the other's gathered description as its remote description:
    the offering page has its offer and the answer, the answering page
    its answer and the offer; the offering page is the initiator and its
    file input is enabled. *)
Theorem qr_handshake_connects pa pb rl ca cb n st :
  ws_state pa = Relay.OPEN -> ws_state pb = Relay.OPEN ->
  Relay.is_open rl ca = true -> Relay.is_open rl cb = true ->
  plain_id (uuid n) = true -> plain_id (uuid (S n)) = true ->
  let sA := gathered (offer_sdp (next_pc pa)) in
  let sB := gathered (answer_sdp (next_pc pb) sA) in
  plain_text (stringify (desc "offer" sA)) = true ->
  plain_text (stringify (desc "answer" sB)) = true ->
  ∃ pa' pb', qr_handshake pa pb rl ca cb n st = Some (pa', pb') ∧
    peerConnection pa' = Some (mkPc (next_pc pa) (Some ("offer", sA)) (Some ("answer", sB)) []) ∧
    peerConnection pb' = Some (mkPc (next_pc pb) (Some ("answer", sB)) (Some ("offer", sA)) []) ∧
    isInitiator pa' = true ∧ isInitiator pb' = false ∧ fileDisabled pa' = false.
Proof.
  intros Hwa Hwb Hca Hcb Hia Hib sA sB Hta Htb.
  unfold qr_handshake. cbv zeta. rewrite offer_phase by done.
  change (gathered (offer_sdp (next_pc pa))) with sA.
  cbn [o_val o_uuid o_srv o_sent]. rewrite shown_id_short. cbn [mbind option_bind].
  destruct (reveal_click_stored uuid (uuid n) (stringify (desc "offer" sA)) (S n) st Hia
              (stringify_obj_nonempty _) Hta) as [st3 ->].
  cbn [o_val o_uuid o_srv o_sent mbind option_bind].
  rewrite answer_phase by auto using plain_text_pct.
  change (gathered (answer_sdp (next_pc pb) sA)) with sB.
  cbn [o_val o_uuid o_srv o_sent]. rewrite shown_id_short. cbn [mbind option_bind].
  destruct (reveal_click_stored uuid (uuid (S n)) (stringify (desc "answer" sB)) (S (S n)) st3 Hib
              (stringify_obj_nonempty _) Htb) as [st6 ->].
  cbn [o_val o_uuid o_srv o_sent mbind option_bind].
  rewrite (connect_answer uuid (offerer_pc (next_pc pa)) sA sB) by done.
  cbn [o_val]. eexists _, _. split; [reflexivity|]. done.
Qed.

(** ** Trickled ICE between two pages *)

(** [JSON.stringify(ev.candidate)] of a gathered candidate:
    [RTCIceCandidate.toJSON()], with its candidate line [t], the media
    [mid] and line [idx] it was gathered for, and the username fragment
    [u] of the session. *)
Definition cand_json (t mid : string) (idx : Z) (u : string) : jvalue :=
  JObj [("candidate", JStr t); ("sdpMid", JStr mid); ("sdpMLineIndex", JNum idx);
        ("usernameFragment", JStr u)].

(** [addIceCandidate] on such a candidate: added exactly when it belongs
    to the remote description's session, refused otherwise. *)
Lemma add_ice_cand_json p t mid idx u pg :
  t ≠ "" ->
  match add_ice p (Some (cand_json t mid idx u)) with inl _ => pg | inr p' => set_pc p' pg end =
  match pc_remote p with
  | Some (_, s) =>
      if decide (mid ∈ sdp_mids s ∧ u = sdp_ufrag s ∧ cand_parses t = true)
      then set_pc (mkPc (pc_id p) (pc_local p) (pc_remote p) (pc_cands p ++ [cand_json t mid idx u])) pg
      else pg
  | None => pg
  end.
Proof.
  intros Ht. unfold add_ice, ice_str, ice_idx. cbn.
  rewrite decide_False by naive_solver. destruct (pc_remote p) as [[ty s]|]; [|done].
  destruct (String.eqb_spec t "") as [->|_]; [done|].
  destruct (String.eqb_spec u (sdp_ufrag s)) as [->|Hu];
    destruct (bool_decide_reflect (mid ∈ sdp_mids s)) as [Hm|Hm];
    destruct (cand_parses t) eqn:Hc; cbn;
    [rewrite decide_True by done | rewrite decide_False by naive_solver..]; done.
Qed.

(** Page [pa] (socket [ca]) gathers a candidate: its [onicecandidate]
    sends it to the relay, the relay forwards it, and page [pb] (socket
    [cb]) handles what reaches it. *)
Definition trickle (c : option jvalue) (pa pb : page) (rl : Relay.state) (ca cb : Relay.conn)
    (n : nat) (st : Store.state) : outcome page :=
  let o1 := run_io uuid (exec (EIce c) pa) n st in
  run_msgs cb (relay_all rl ca (o_sent o1)) pb (o_uuid o1) (o_srv o1).

Lemma run_msgs_skip c v l out pg n st :
  c ∉ l -> run_msgs c (((λ e, (e, v)) <$> l) ++ out) pg n st = run_msgs c out pg n st.
Proof.
  induction l as [|e l IH]; intros Hc; [done|]. simpl.
  rewrite decide_False by set_solver. apply IH. set_solver.
Qed.

Lemma ice_sent c pa n st :
  ws_state pa = Relay.OPEN -> truthy c = true ->
  run_io uuid (exec (EIce (Some c)) pa) n st =
    mkOutcome pa n st [stringify (Relay.msg_ice (Some c))].
Proof.
  intros Hws Ht. simpl. unfold on_ice_candidate, ws_send. simpl. rewrite Ht, Hws. simpl.
  reflexivity.
Qed.

(** The [ice-candidate] branch of [ws.onmessage]. *)
Lemma ice_received c p pg n st :
  wf c = true -> peerConnection pg = Some p ->
  run_io uuid (on_ws_message (stringify (Relay.msg_ice (Some c))) pg) n st =
    mkOutcome (match add_ice p (Some c) with inl _ => pg | inr p' => set_pc p' pg end) n st [].
Proof.
  intros Hwf Hp. unfold on_ws_message, Relay.msg_ice.
  rewrite parse_msg2 by done. simpl. by rewrite Hp.
Qed.

(** C11: trickled ICE.  A candidate page [pa] gathers, sent as the JSON
    of [ev.candidate] with a non-empty candidate line, reaches through the
    relay any other open page [pb] of the relay's set.  [pb] adds it to
    its peer connection exactly when the connection has a remote
    description whose media include the candidate's [sdpMid], whose
    username fragment is the candidate's, and the line parses; any other
    candidate, one of another session included, is refused by
    [addIceCandidate], the refusal is caught and [pb] is unchanged.  [pb]
    sends nothing and no short URL is stored. *)
Theorem ice_trickle t mid idx u pa pb p rl ca cb n st :
  Relay.reachable rl -> ws_state pa = Relay.OPEN -> wf (cand_json t mid idx u) = true -> t ≠ "" ->
  cb ∈ Relay.clients rl -> Relay.is_open rl cb = true -> cb ≠ ca ->
  peerConnection pb = Some p ->
  trickle (Some (cand_json t mid idx u)) pa pb rl ca cb n st =
    mkOutcome (match pc_remote p with
               | Some (_, s) =>
                   if decide (mid ∈ sdp_mids s ∧ u = sdp_ufrag s ∧ cand_parses t = true)
                   then set_pc (mkPc (pc_id p) (pc_local p) (pc_remote p)
                                     (pc_cands p ++ [cand_json t mid idx u])) pb
                   else pb
               | None => pb
               end) n st [].
Proof.
  intros Hr Hws Hwf Ht Hcb Ho Hne Hp. destruct (Relay.relay_reachable_inv rl Hr) as [Hnd _].
  unfold trickle. rewrite ice_sent by done. cbn [o_sent o_uuid o_srv].
  unfold relay_all. cbn [fmap list_fmap concat]. rewrite app_nil_r, Relay.on_message_ice by done.
  destruct (Relay.broadcast_split rl ca (Relay.msg_ice (Some (cand_json t mid idx u))) cb)
    as (l1 & l2 & -> & H1 & H2); [done..|].
  rewrite run_msgs_skip by done. simpl. rewrite decide_True by done.
  rewrite (ice_received _ p), add_ice_cand_json by done. cbn [o_val o_uuid o_srv o_sent].
  rewrite <- (app_nil_r ((λ e, (e, _)) <$> l2)), run_msgs_skip by done. done.
Qed.
End Scenario.

(** ** A concrete browser and WebRTC stack *)

(** The path of a URL up to its query or fragment. *)
Fixpoint path_part (s : string) : string :=
  match s with
  | String c s' =>
      if decide (c = "?"%char ∨ c = "#"%char) then EmptyString else String c (path_part s')
  | EmptyString => EmptyString
  end.

Definition demo_origin : string := "https://sendu.app".

(** [new URL(text, origin).pathname] for an absolute URL of the origin,
    an absolute path and a relative path; percent-encoding and dot
    segments are left out. *)
Definition demo_pathname (text : string) : string :=
  match strip_prefix demo_origin text with
  | Some rest => match path_part rest with EmptyString => "/" | p => p end
  | None =>
      match text with
      | String "/"%char _ => path_part text
      | _ => String "/"%char (path_part text)
      end
  end.

Lemma path_part_plain id : plain_id id = true -> path_part id = id.
Proof.
  unfold plain_id. intros [_ Hall]%andb_prop.
  induction id as [|c id IH]; [done|]. simpl in *.
  apply andb_prop in Hall as [Hc Hall]. rewrite IH by done.
  rewrite decide_False; [done|]. intros [-> | ->]; discriminate.
Qed.

Lemma demo_pathname_short id :
  plain_id id = true -> demo_pathname (demo_origin +:+ "/t/" +:+ id) = "/t/" +:+ id.
Proof.
  intros Hid. unfold demo_pathname. rewrite strip_prefix_app. simpl.
  by rewrite path_part_plain.
Qed.

Lemma demo_pathname_json s : String.prefix "/t/" (demo_pathname (String "{" s)) = false.
Proof. reflexivity. Qed.

(** White space percent-encoded, as the URL serializer does. *)
Fixpoint pct_space (s : string) : string :=
  match s with
  | EmptyString => EmptyString
  | String c s' => if js_space c then "%20" +:+ pct_space s' else String c (pct_space s')
  end.

(** [new URL(text, origin).href]: the origin and the encoded path. *)
Definition demo_href (text : string) : option string :=
  Some (demo_origin +:+ pct_space (demo_pathname text)).

Lemma pct_space_nospace s :
  forallb (λ c, negb (js_space c)) (String.list_ascii_of_string (pct_space s)) = true.
Proof.
  induction s as [|c s IH]; [done|]. cbn [pct_space].
  destruct (js_space c) eqn:Hc.
  - rewrite str_list_app, forallb_app, IH. reflexivity.
  - cbn [String.list_ascii_of_string forallb]. by rewrite Hc, IH.
Qed.

Lemma demo_href_json s : ∃ r, demo_href (String "{" s) = Some ("http" +:+ r) ∧
    forallb (λ c, negb (js_space c)) (String.list_ascii_of_string r) = true ∧
    String.prefix "/t/" (demo_pathname ("http" +:+ r)) = false.
Proof.
  exists ("s://sendu.app" +:+ pct_space (demo_pathname (String "{" s))). split_and!.
  - reflexivity.
  - rewrite str_list_app, forallb_app, pct_space_nospace. reflexivity.
  - change ("http" +:+ _) with (demo_origin +:+ pct_space (demo_pathname (String "{" s))).
    unfold demo_pathname at 1. rewrite strip_prefix_app. reflexivity.
Qed.

Definition demo_decode (s : string) : option string := if str_has "%" s then None else Some s.

Lemma demo_decode_plain s : str_has "%" s = false -> demo_decode s = Some s.
Proof. unfold demo_decode. by intros ->. Qed.

Definition demo_message (e : exn) : string :=
  match e with
  | TypeError => "Cannot read properties of null"
  | SyntaxError => "Unexpected token < in JSON at position 0"
  | InvalidStateError => "Failed to execute: invalid state"
  | OperationError => "Error processing ICE candidate"
  | PlainError => "Failed to fetch token"
  end.

Definition browser : Browser := {|
  origin := demo_origin;
  pathname := demo_pathname;
  decode_uri := demo_decode;
  message := demo_message;
  textarea_value := λ s, s;
  pathname_short := demo_pathname_short;
  pathname_json := demo_pathname_json;
  decode_plain := demo_decode_plain;
  textarea_plain := λ s _ _, eq_refl;
  url_href := demo_href;
  href_json := demo_href_json
|}.

Definition rtc : Rtc := {|
  offer_sdp := λ n, "v=0 offer " +:+ pretty n;
  answer_sdp := λ n s, "v=0 answer " +:+ pretty n;
  gathered := λ s, s +:+ " a=candidate";
  sdp_mids := λ _, ["0"];
  sdp_ufrag := λ s, "ufrag " +:+ s;
  cand_parses := λ t, String.prefix "candidate:" t
|}%string.

(** The uuids of the server in the scenarios. *)
Definition demo_uuid (n : nat) : string := "id" +:+ pretty n.

Lemma short_url_witness :
  run_io (J:=codec) demo_uuid
    (@handle_scanned codec browser rtc (@short_url browser "abc") init) 0 Store.stored_state =
    mkOutcome (show_status ("Error processing token: " +:+ demo_message SyntaxError) Failure init)
      0 Store.stored_state [] ∧
  run_io (J:=codec) demo_uuid
    (@connect_click codec browser (set_answer_input (@short_url browser "abc") init))
    0 Store.stored_state =
    mkOutcome (show_status ("Error connecting: " +:+ demo_message SyntaxError) Failure
                 (set_answer_input (@short_url browser "abc") init)) 0 Store.stored_state [] ∧
  run_io (J:=codec) demo_uuid (@auto_handle codec browser rtc (@short_url browser "abc") init)
    0 Store.stored_state = mkOutcome init 0 Store.stored_state [].
Proof.
  apply (@short_url_rejected codec browser rtc demo_uuid "abc" init 0 Store.stored_state);
    vm_compute; reflexivity.
Defined.

Lemma offer_created_witness :
  let o := run_io (J:=codec) demo_uuid
             (on_ws_message (J:=codec) (B:=browser) (R:=rtc)
                (enc (Relay.msg_offer_created (Some (desc "offer" "v=0")))) init) 0 Store.init in
  o_val o = show_status "Offer short URL created. Share the QR." Info
              (show_token (short_url (B:=browser) (demo_uuid 0)) 128 true init) ∧
  o_sent o = [] ∧ o_uuid o = 1 ∧
  (Store.consume (demo_uuid 0) (o_srv o)).2 = Store.resp_token (JStr (enc (desc "offer" "v=0"))).
Proof.
  apply (offer_created_short_url (J:=codec) (B:=browser) demo_uuid). reflexivity.
Defined.

Lemma answer_without_pc_witness :
  let pg' := set_answer_input (enc (desc "answer" "v=0")) init in
  run_io (J:=codec) demo_uuid (connect_click (J:=codec) (B:=browser) pg') 0 Store.init =
    mkOutcome (show_status ("Error connecting: " +:+ demo_message TypeError) Failure pg')
      0 Store.init [] ∧
  run_io (J:=codec) demo_uuid
    (auto_handle (J:=codec) (B:=browser) (R:=rtc) (enc (desc "answer" "v=0")) init) 0 Store.init =
    mkOutcome (show_status ("Error connecting: " +:+ demo_message TypeError) Failure pg')
      0 Store.init [].
Proof.
  apply (answer_without_pc (J:=codec) (B:=browser) (R:=rtc) demo_uuid); vm_compute; reflexivity.
Defined.

(** Two pages whose signaling sockets are open, on the relay's sockets
    0 and 1. *)
Definition open_page : page := set_ws Relay.OPEN init.

Lemma qr_handshake_witness :
  ∃ pa' pb', qr_handshake (J:=codec) (B:=browser) (R:=rtc) demo_uuid open_page open_page
               Relay.three_peers 0 1 0 Store.init = Some (pa', pb') ∧
    peerConnection pa' =
      Some (mkPc 0 (Some ("offer", "v=0 offer 0 a=candidate"))
                   (Some ("answer", "v=0 answer 0 a=candidate")) []) ∧
    peerConnection pb' =
      Some (mkPc 0 (Some ("answer", "v=0 answer 0 a=candidate"))
                   (Some ("offer", "v=0 offer 0 a=candidate")) []) ∧
    isInitiator pa' = true ∧ isInitiator pb' = false ∧ fileDisabled pa' = false.
Proof.
  apply (qr_handshake_connects (J:=codec) (B:=browser) (R:=rtc) demo_uuid);
    vm_compute; reflexivity.
Defined.

(** The answering page of the handshake, which has set its remote
    offer: the first candidate of the offering page reaches it. *)
Definition answered_page : page :=
  set_pc (mkPc 0 (Some ("answer", "v=0 answer")) (Some ("offer", "v=0 offer")) []) open_page.

(** A candidate of the offering page's session is added; one of another
    session (its username fragment is not the remote description's) is
    refused and the page is unchanged. *)
Lemma ice_trickle_witness :
  trickle (J:=codec) (B:=browser) (R:=rtc) demo_uuid
      (Some (cand_json "candidate:1" "0" 0 "ufrag v=0 offer")) open_page answered_page
      Relay.three_peers 0 1 0 Store.init =
    mkOutcome (set_pc (mkPc 0 (Some ("answer", "v=0 answer")) (Some ("offer", "v=0 offer"))
                            [cand_json "candidate:1" "0" 0 "ufrag v=0 offer"]) answered_page)
      0 Store.init [] ∧
  trickle (J:=codec) (B:=browser) (R:=rtc) demo_uuid
      (Some (cand_json "candidate:1" "0" 0 "ufrag v=0 offer 7")) open_page answered_page
      Relay.three_peers 0 1 0 Store.init =
    mkOutcome answered_page 0 Store.init [].
Proof.
  split; [rewrite (ice_trickle (J:=codec) (B:=browser) (R:=rtc) demo_uuid "candidate:1" "0" 0
                     "ufrag v=0 offer" open_page answered_page
                     (mkPc 0 (Some ("answer", "v=0 answer")) (Some ("offer", "v=0 offer")) []))
         |rewrite (ice_trickle (J:=codec) (B:=browser) (R:=rtc) demo_uuid "candidate:1" "0" 0
                     "ufrag v=0 offer 7" open_page answered_page
                     (mkPc 0 (Some ("answer", "v=0 answer")) (Some ("offer", "v=0 offer")) []))];
    first [apply Relay.three_peers_reachable|vm_compute; reflexivity|discriminate|lia
          |vm_compute; set_solver].
Defined.

End Client.
