(* ===== verification/Async.v ===== *)
(** * Interleaved handlers of the signaling socket

    [src/unnamed/part_000] lines 96-128: the two branches of
    [ws.onmessage] that shorten a description [await] the [fetch] of
    [POST /store] (inside [storeTokenAndGetShortUrl], lines 56-65) and
    only then write the page's globals ([tokenInput], the QR code, the
    answer section, the status line).  While one such handler waits,
    the next message starts another: the handlers interleave.

    A suspended handler is a [task]: a program of [Client.io] whose
    result is the writes it makes when it finishes, a function from the
    globals as they are then to the new globals.  [sched] is the page,
    the token server, the pending tasks by start order and the texts
    sent.  A message either starts a task (the shortening branches,
    [ws_message_task]) or runs [Client.on_ws_message] to completion (the
    other branches, which do not wait on the server); [AStep i] advances
    task [i] by one action: its request reaches the server and is
    answered, or it finishes and writes the page.  Any order of the
    events is a possible run: requests and responses of different
    fetches may be reordered by the network.

    Run without interleaving, a task gives what [Client.on_ws_message]
    gives ([ws_message_sequential]); two shortenings whose responses come
    back in the other order leave the page showing the older short URL
    ([stale_short_url]). *)

From S2P Require Import Prelude Json TokenStore Relay Handshake.

Module Async.
Import Client.

(** A handler suspended at its [await]s: the fetches it still makes,
    then its writes to the globals. *)
Definition task := io (page -> page).

Section Tasks.
Context `{J : JsonCodec} `{B : Browser} `{R : Rtc}.

(** The shortening branch (lines 100-112 and 116-127) from its [await]
    on: [shown] is [Some true] for the offer, which shows the answer
    section, and [None] for the answer, which leaves it as it is then. *)
Definition shorten_task (d : option jvalue) (ok_msg : string) (ok_kind : skind)
    (shown : option bool) : task :=
  let tok := stringify <$> d in
  r ← store_short_url tok;
  Ret (λ pg, match r with
             | inr short => show_status ok_msg ok_kind (show_token short 128 (default (answerShown pg) shown) pg)
             | inl _ => show_status "Failed to shorten token — showing full token" Failure
                          (show_token (default "undefined" tok) 256 (answerShown pg) pg)
             end).

(** The task a message starts, if it reaches a shortening branch. *)
Definition ws_message_task (raw : string) : option task :=
  match parse raw with
  | None => None
  | Some data =>
      match get data "type" with
      | inl _ => None
      | inr ty =>
          if is_str ty "offer-created" then
            match get data "offer" with
            | inl _ => None
            | inr d => Some (shorten_task d "Offer short URL created. Share the QR." Info (Some true))
            end
          else if is_str ty "answer-created" then
            match get data "answer" with
            | inl _ => None
            | inr d => Some (shorten_task d "Answer short URL created. Send to initiator." Success None)
            end
          else None
      end
  end.

End Tasks.

Record sched := mkSched {
  s_page : page;
  s_srv : Store.state;
  s_uuid : nat;
  s_tasks : list (option task);
  s_sent : list string
}.

Inductive aevent := AMsg (raw : string) | AStep (i : nat).

Section Sched.
Context `{J : JsonCodec} `{B : Browser} `{R : Rtc} (uuid : nat -> string).

(** One action of task [i]. *)
Definition step_task (i : nat) (t : task) (s : sched) : sched :=
  match t with
  | Ret f => mkSched (f (s_page s)) (s_srv s) (s_uuid s) (<[i := None]> (s_tasks s)) (s_sent s)
  | Fetch m path body k =>
      let '(st1, r) := serve (uuid (s_uuid s)) m path body (s_srv s) in
      mkSched (s_page s) st1 (match m with POST => S (s_uuid s) | GET => s_uuid s end)
        (<[i := Some (k r)]> (s_tasks s)) (s_sent s)
  | Send text k => mkSched (s_page s) (s_srv s) (s_uuid s) (<[i := Some k]> (s_tasks s)) (s_sent s ++ [text])
  end.

Definition astep (s : sched) (e : aevent) : sched :=
  match e with
  | AMsg raw =>
      match ws_message_task raw with
      | Some t => mkSched (s_page s) (s_srv s) (s_uuid s) (s_tasks s ++ [Some t]) (s_sent s)
      | None =>
          let o := run_io uuid (on_ws_message raw (s_page s)) (s_uuid s) (s_srv s) in
          mkSched (o_val o) (o_srv o) (o_uuid o) (s_tasks s) (s_sent s ++ o_sent o)
      end
  | AStep i =>
      match s_tasks s !! i with
      | Some (Some t) => step_task i t s
      | _ => s
      end
  end.

Definition arun (s : sched) (es : list aevent) : sched := foldl astep s es.

End Sched.

(** ** Tasks run without interleaving *)

Section Sequential.
Context `{J : JsonCodec} `{B : Browser} `{R : Rtc} (uuid : nat -> string).

Lemma arun_cons s e es : arun uuid s (e :: es) = arun uuid (astep uuid s e) es.
Proof. done. Qed.

(** Stepped alone until it finishes, a task does what [run_io] does,
    and then writes the page. *)
Lemma steps_run (t : task) s i :
  s_tasks s !! i = Some (Some t) ->
  ∃ n, arun uuid s (repeat (AStep i) n) =
    let o := run_io uuid t (s_uuid s) (s_srv s) in
    mkSched (o_val o (s_page s)) (o_srv o) (o_uuid o) (<[i := None]> (s_tasks s)) (s_sent s ++ o_sent o).
Proof.
  revert s. induction t as [f|m path body k IH|text k IH]; intros s Hi.
  - exists 1. cbn. rewrite Hi. cbn. by rewrite app_nil_r.
  - cbn [run_io]. destruct (serve _ _ _ _ _) as [st1 r] eqn:Hs.
    set (s1 := mkSched (s_page s) st1 (match m with POST => S (s_uuid s) | GET => s_uuid s end)
                 (<[i := Some (k r)]> (s_tasks s)) (s_sent s)).
    assert (astep uuid s (AStep i) = s1) as Hstep by (cbn; rewrite Hi; cbn; by rewrite Hs).
    destruct (IH r s1) as [n Hn]; [subst s1; cbn; apply list_lookup_insert_eq; by eapply lookup_lt_Some|].
    exists (S n). cbn [repeat]. rewrite arun_cons, Hstep, Hn. subst s1. cbn.
    by rewrite list_insert_insert_eq.
  - cbn [run_io]. destruct (IH (mkSched (s_page s) (s_srv s) (s_uuid s) (<[i := Some k]> (s_tasks s))
                                (s_sent s ++ [text]))) as [n Hn].
    { cbn. apply list_lookup_insert_eq. by eapply lookup_lt_Some. }
    exists (S n). cbn [repeat]. rewrite arun_cons. cbn. rewrite Hi. cbn.
    rewrite Hn. cbn. by rewrite list_insert_insert_eq, <-app_assoc.
Qed.

Lemma shorten_as_task d m k sh pg n st :
  run_io uuid (shorten d m k (default (answerShown pg) sh) pg) n st =
    let o := run_io uuid (shorten_task d m k sh) n st in
    mkOutcome (o_val o pg) (o_uuid o) (o_srv o) (o_sent o).
Proof.
  unfold shorten, shorten_task. rewrite !run_io_bind. cbn.
  by destruct (o_val (run_io uuid (store_short_url (stringify <$> d)) n st)).
Qed.

(** The task of a message is the shortening branch [on_ws_message]
    takes. *)
Lemma ws_message_task_some raw t pg :
  ws_message_task raw = Some t ->
  ∃ d m k sh, t = shorten_task d m k sh ∧ on_ws_message raw pg = shorten d m k (default (answerShown pg) sh) pg.
Proof.
  unfold ws_message_task, on_ws_message.
  destruct (parse raw) as [data|]; [|done]. destruct (get data "type") as [|ty]; [done|].
  destruct (is_str ty "offer-created").
  - destruct (get data "offer") as [|d]; [done|]. intros [= <-]. by eexists _, _, _, (Some true).
  - destruct (is_str ty "answer-created"); [|done].
    destruct (get data "answer") as [|d]; [done|]. intros [= <-]. by eexists _, _, _, None.
Qed.

(** A shortening of a description object: when its request reaches
    the server, the text is stored under the current uuid; when it
    finishes, whenever that is, it shows the short URL of that uuid on
    the page as it is then. *)
Lemma shorten_task_steps fs m k sh s i :
  s_tasks s !! i = Some (Some (shorten_task (Some (JObj fs)) m k sh)) ->
  ∃ t', astep uuid s (AStep i) =
          mkSched (s_page s) (Store.store (uuid (s_uuid s)) (JObj [("token", JStr (stringify (JObj fs)))]) (s_srv s)).1
            (S (s_uuid s)) (<[i := Some t']> (s_tasks s)) (s_sent s) ∧
        ∀ s', s_tasks s' !! i = Some (Some t') ->
          astep uuid s' (AStep i) =
            mkSched (show_status m k (show_token (short_url (uuid (s_uuid s))) 128
                                        (default (answerShown (s_page s')) sh) (s_page s')))
              (s_srv s') (s_uuid s') (<[i := None]> (s_tasks s')) (s_sent s').
Proof.
  intros Hi. cbn [astep]. rewrite Hi. cbn [shorten_task mbind io_mbind io_bind store_short_url step_task].
  cbn [serve fmap option_fmap option_map]. change (obj [("token", Some (JStr (stringify (JObj fs))))])
    with (JObj [("token", JStr (stringify (JObj fs)))]).
  rewrite parse_stringify by apply wf_token.
  unfold Store.store at 1. cbn. rewrite stringify_obj_nonempty. cbn.
  eexists. split; [reflexivity|]. intros s' Hs'. rewrite Hs'. cbn.
  rewrite parse_stringify by reflexivity. done.
Qed.

Lemma arun_app s es1 es2 : arun uuid s (es1 ++ es2) = arun uuid (arun uuid s es1) es2.
Proof. apply foldl_app. Qed.

(** The relay's [offer-created] echo starts the offer's shortening. *)
Lemma ws_message_task_offer fs :
  wf (JObj fs) = true ->
  ws_message_task (stringify (Relay.msg_offer_created (Some (JObj fs)))) =
    Some (shorten_task (Some (JObj fs)) "Offer short URL created. Share the QR." Info (Some true)).
Proof. intros Hwf. unfold ws_message_task, Relay.msg_offer_created. by rewrite parse_msg2. Qed.

(** Two texts stored one after the other under distinct ids: the first
    is still handed out. *)
Lemma consume_stored_under id1 id2 t1 t2 st :
  id1 ≠ id2 -> String.eqb t1 "" = false -> String.eqb t2 "" = false ->
  (Store.consume id1 (Store.store id2 (JObj [("token", JStr t2)])
                        (Store.store id1 (JObj [("token", JStr t1)]) st).1).1).2 = Store.resp_token (JStr t1).
Proof.
  intros Hne H1 H2. unfold Store.store. cbn. rewrite H1. cbn. rewrite H2. cbn.
  rewrite (Store.consume_live _ _ (JStr t1)); [done|]. cbn.
  rewrite lookup_insert_ne, lookup_insert_eq by done. cbn. by rewrite H1.
Qed.

End Sequential.

(** ** Properties *)

Section Props.
Context `{J : JsonCodec} `{B : Browser} `{R : Rtc} (uuid : nat -> string).

(** Handlers that are not interleaved.  A message followed by the steps
    of the task it starts, with no other event in between, leaves the
    page, the token server, the uuid counter and the texts sent as
    [Client.on_ws_message] run to completion does: the interleaving
    semantics refines the sequential one. *)
Theorem ws_message_sequential raw s :
  ∃ n, let s' := arun uuid s (AMsg raw :: repeat (AStep (length (s_tasks s))) n) in
       let o := run_io uuid (on_ws_message raw (s_page s)) (s_uuid s) (s_srv s) in
       s_page s' = o_val o ∧ s_srv s' = o_srv o ∧ s_uuid s' = o_uuid o ∧ s_sent s' = s_sent s ++ o_sent o.
Proof.
  destruct (ws_message_task raw) as [t|] eqn:Ht.
  - destruct (ws_message_task_some raw t (s_page s) Ht) as (d & m & k & sh & -> & Hon).
    set (s1 := mkSched (s_page s) (s_srv s) (s_uuid s) (s_tasks s ++ [Some (shorten_task d m k sh)]) (s_sent s)).
    destruct (steps_run uuid (shorten_task d m k sh) s1 (length (s_tasks s))) as [n Hn].
    { subst s1. cbn. by rewrite lookup_app_r, Nat.sub_diag by lia. }
    exists n. rewrite arun_cons. cbn [astep]. rewrite Ht. fold s1. rewrite Hn, Hon, shorten_as_task.
    done.
  - exists 0. cbn. rewrite Ht. done.
Qed.


(** C31: the stale short URL.  The relay echoes two offers of the page (two
    clicks on Create) as [offer-created]; both shortenings wait on
    [POST /store].  The requests reach the server in order, and the
    server stores the first offer under the current uuid and the second
    under the next.  If the second response comes back first, the page
    ends up showing the short URL of the first offer, the older one,
    while the second is the offer of its current peer connection; with
    the responses in order it shows the second. *)
Theorem stale_short_url fs1 fs2 s :
  s_tasks s = [] -> wf (JObj fs1) = true -> wf (JObj fs2) = true ->
  uuid (s_uuid s) ≠ uuid (S (s_uuid s)) ->
  let m1 := stringify (Relay.msg_offer_created (Some (JObj fs1))) in
  let m2 := stringify (Relay.msg_offer_created (Some (JObj fs2))) in
  let late := arun uuid s [AMsg m1; AMsg m2; AStep 0; AStep 1; AStep 1; AStep 0] in
  let inorder := arun uuid s [AMsg m1; AMsg m2; AStep 0; AStep 1; AStep 0; AStep 1] in
  tokenInput (s_page late) = short_url (uuid (s_uuid s)) ∧
  (Store.consume (uuid (s_uuid s)) (s_srv late)).2 = Store.resp_token (JStr (stringify (JObj fs1))) ∧
  (Store.consume (uuid (S (s_uuid s))) (s_srv late)).2 = Store.resp_token (JStr (stringify (JObj fs2))) ∧
  tokenInput (s_page inorder) = short_url (uuid (S (s_uuid s))).
Proof.
  intros Ht Hw1 Hw2 Hne m1 m2 late inorder. subst late inorder.
  set (ok := "Offer short URL created. Share the QR.").
  set (t1 := shorten_task (Some (JObj fs1)) ok Info (Some true)).
  set (t2 := shorten_task (Some (JObj fs2)) ok Info (Some true)).
  assert (astep uuid (astep uuid s (AMsg m1)) (AMsg m2) =
            mkSched (s_page s) (s_srv s) (s_uuid s) [Some t1; Some t2] (s_sent s)) as H2.
  { cbn [astep]. subst m1 m2. rewrite (ws_message_task_offer fs1) by done. cbn.
    rewrite (ws_message_task_offer fs2), Ht by done. done. }
  destruct (shorten_task_steps uuid fs1 ok Info (Some true)
              (mkSched (s_page s) (s_srv s) (s_uuid s) [Some t1; Some t2] (s_sent s)) 0)
    as (t1' & E1 & F1); [done|].
  destruct (shorten_task_steps uuid fs2 ok Info (Some true) (astep uuid (mkSched (s_page s) (s_srv s) (s_uuid s)
              [Some t1; Some t2] (s_sent s)) (AStep 0)) 1) as (t2' & E2 & F2); [by rewrite E1|].
  rewrite E1 in E2, F2. cbn [s_uuid s_srv s_tasks s_page s_sent] in E2, F2.
  cbn [arun foldl]. rewrite H2, E1. cbn [s_uuid s_srv s_tasks s_page s_sent]. rewrite E2. split_and!.
  - rewrite F2 by done. rewrite F1 by done. done.
  - rewrite F2 by done. rewrite F1 by done. cbn [s_srv].
    apply consume_stored_under; [done|apply stringify_obj_nonempty..].
  - rewrite F2 by done. rewrite F1 by done. cbn [s_srv]. apply consume_stored, stringify_obj_nonempty.
  - rewrite F1 by done. rewrite F2 by done. done.
Qed.

End Props.

(** ** Witness, with the concrete codec, browser and session descriptions *)

(** Offers [v=1] and [v=2] on a fresh page and server, uuids [id0] and
    [id1]: the late run shows [id0]'s short URL, the in-order run
    [id1]'s. *)
Lemma stale_short_url_witness :
  let fs1 := [("type", JStr "offer"); ("sdp", JStr "v=1")] in
  let fs2 := [("type", JStr "offer"); ("sdp", JStr "v=2")] in
  let s := mkSched init Store.init 0 [] [] in
  let m1 := @stringify codec (Relay.msg_offer_created (Some (JObj fs1))) in
  let m2 := @stringify codec (Relay.msg_offer_created (Some (JObj fs2))) in
  let late := arun (J:=codec) (B:=browser) (R:=rtc) demo_uuid s [AMsg m1; AMsg m2; AStep 0; AStep 1; AStep 1; AStep 0] in
  let inorder := arun (J:=codec) (B:=browser) (R:=rtc) demo_uuid s [AMsg m1; AMsg m2; AStep 0; AStep 1; AStep 0; AStep 1] in
  tokenInput (s_page late) = short_url (B:=browser) (demo_uuid 0) ∧
  (Store.consume (demo_uuid 0) (s_srv late)).2 = Store.resp_token (JStr (@stringify codec (JObj fs1))) ∧
  (Store.consume (demo_uuid 1) (s_srv late)).2 = Store.resp_token (JStr (@stringify codec (JObj fs2))) ∧
  tokenInput (s_page inorder) = short_url (B:=browser) (demo_uuid 1).
Proof.
  apply (stale_short_url (J:=codec) (B:=browser) (R:=rtc) demo_uuid); [reflexivity..|discriminate].
Defined.

End Async.
