(* ===== verification/Clicks.v ===== *)
(** * Interleaved clicks on Create connection

    [src/unnamed/part_000] lines 80-93: the click handler of
    [createConnectionBtn] is an [async] function with four [await]s
    (the [createPeerConnection()] promise, [createOffer()],
    [setLocalDescription(offer)] and [waitForIceGatheringComplete]).
    After each of them it reads the global [peerConnection] again, so a
    second click that runs while the first one waits changes the
    connection the first one goes on with.

    A click in progress is a [cc], the point where it waits with the
    locals it keeps (the [offer]).  [create_start] is the handler up to
    its first [await]; [create_resume] runs the code between two
    [await]s on the globals as they are then.  [clicks] is the page, the
    clicks in progress by start order and the texts sent on the
    signaling socket; [CResume i] resumes click [i].  The WebRTC calls
    are those of [Handshake.v] ([Rtc]): [createOffer()] gives the
    connection's offer, and [setLocalDescription] accepts an offer only
    on the connection that created it and before any remote
    description; otherwise it rejects and the handler stops. *)

From S2P Require Import Prelude Json TokenStore Relay Handshake.

Module Clicks.
Import Client.

(** Where a click waits: after [createPeerConnection()], after
    [createOffer()] (holding the offer), after [setLocalDescription],
    after the ICE wait. *)
Inductive cc :=
| CCreated
| COffered (offer : string * string)
| CLocalSet
| CGathered.

Section Handler.
Context `{J : JsonCodec} `{R : Rtc}.

(** Lines 81-83 up to the [await]. *)
Definition create_start (pg : page) : page * option cc :=
  match ws_state pg with
  | Relay.OPEN => (create_peer_connection true pg, Some CCreated)
  | _ => (show_status "Signaling not connected" Failure pg, None)
  end.

(** The code after each [await] (lines 84-92), on the current globals:
    the new page, where the click waits next ([None] when it has
    finished or thrown) and the texts it sends. *)
Definition create_resume (c : cc) (pg : page) : page * option cc * list string :=
  match c with
  | CCreated =>
      match peerConnection pg with
      | Some p => (set_channel ChConnecting pg, Some (COffered ("offer", offer_sdp (pc_id p))), [])
      | None => (pg, None, [])
      end
  | COffered (ty, sdp) =>
      match peerConnection pg with
      | Some p =>
          if decide (sdp = offer_sdp (pc_id p) ∧ pc_remote p = None)
          then (set_pc (set_local_gathered p ty sdp) pg, Some CLocalSet, [])
          else (pg, None, [])
      | None => (pg, None, [])
      end
  | CLocalSet => (pg, Some CGathered, [])
  | CGathered =>
      match peerConnection pg with
      | Some p =>
          let text := stringify (Relay.msg_offer (local_description p)) in
          match ws_state pg with
          | Relay.OPEN => (show_status "Offer created — short URL will be generated" Info pg, None, [text])
          | Relay.CONNECTING => (pg, None, [])
          | _ => (show_status "Offer created — short URL will be generated" Info pg, None, [])
          end
      | None => (pg, None, [])
      end
  end.

End Handler.

Record clicks := mkClicks { c_page : page; c_tasks : list (option cc); c_sent : list string }.

Inductive cevent := CClick | CResume (i : nat).

Section Sched.
Context `{J : JsonCodec} `{R : Rtc}.

Definition cstep (s : clicks) (e : cevent) : clicks :=
  match e with
  | CClick =>
      let '(pg, oc) := create_start (c_page s) in mkClicks pg (c_tasks s ++ [oc]) (c_sent s)
  | CResume i =>
      match c_tasks s !! i with
      | Some (Some c) =>
          let '(pg, oc, out) := create_resume c (c_page s) in
          mkClicks pg (<[i := oc]> (c_tasks s)) (c_sent s ++ out)
      | _ => s
      end
  end.

Definition crun (s : clicks) (es : list cevent) : clicks := foldl cstep s es.

End Sched.

(** ** A click run alone *)

Section Sequential.
Context `{J : JsonCodec} `{R : Rtc}.

Lemma crun_cons s e es : crun s (e :: es) = crun (cstep s e) es.
Proof. done. Qed.

Lemma snoc_insert {A} (l : list A) x y : <[length l := y]> (l ++ [x]) = l ++ [y].
Proof. induction l as [|a l IH]; cbn; [done|]. by f_equal. Qed.

(** Resuming the last click started. *)
Lemma cstep_last s l c :
  c_tasks s = l ++ [Some c] ->
  cstep s (CResume (length l)) =
    let '(pg, oc, out) := create_resume c (c_page s) in mkClicks pg (l ++ [oc]) (c_sent s ++ out).
Proof.
  intros Ht. cbn [cstep]. rewrite Ht, lookup_app_r, Nat.sub_diag by lia. cbn.
  destruct (create_resume c (c_page s)) as [[pg oc] out]. by rewrite snoc_insert.
Qed.

Lemma cstep_click s :
  cstep s CClick = mkClicks (create_start (c_page s)).1 (c_tasks s ++ [(create_start (c_page s)).2]) (c_sent s).
Proof. cbn. by destruct (create_start (c_page s)). Qed.

Lemma cstep_click_open s :
  ws_state (c_page s) = Relay.OPEN ->
  cstep s CClick = mkClicks (create_peer_connection true (c_page s)) (c_tasks s ++ [Some CCreated]) (c_sent s).
Proof. intros Hw. rewrite cstep_click. unfold create_start. by rewrite Hw. Qed.

(** Resuming click [i] at the step [create_resume] computes. *)
Lemma cstep_resume s i c pg oc out :
  c_tasks s !! i = Some (Some c) -> create_resume c (c_page s) = (pg, oc, out) ->
  cstep s (CResume i) = mkClicks pg (<[i := oc]> (c_tasks s)) (c_sent s ++ out).
Proof. intros Ht Hr. cbn [cstep]. by rewrite Ht, Hr. Qed.

(** A finished click is not resumed. *)
Lemma crun_finished s l k :
  c_tasks s = l ++ [None] -> crun s (repeat (CResume (length l)) k) = s.
Proof.
  intros Ht. induction k as [|k IH]; [done|]. cbn [repeat]. rewrite crun_cons.
  replace (cstep s (CResume (length l))) with s; [done|].
  cbn [cstep]. by rewrite Ht, lookup_app_r, Nat.sub_diag by lia.
Qed.

End Sequential.

(** ** Properties *)

Section Props.
Context `{J : JsonCodec} `{B : Browser} `{R : Rtc} (uuid : nat -> string).

(** A click alone.  A click on Create followed only by its own four
    resumptions leaves the page and the texts sent as
    [Client.create_connection] run to completion does: the model with
    [await]s refines the sequential one. *)
Theorem create_click_sequential pg tasks sent n st :
  let s' := crun (mkClicks pg tasks sent) (CClick :: repeat (CResume (length tasks)) 4) in
  let o := run_io uuid (create_connection pg) n st in
  c_page s' = o_val o ∧ c_sent s' = sent ++ o_sent o ∧ o_uuid o = n ∧ o_srv o = st.
Proof.
  cbn zeta. rewrite crun_cons, cstep_click. cbn [c_page c_tasks c_sent].
  unfold create_start, create_connection.
  destruct (ws_state pg) eqn:Hw; cbn [fst snd];
    try (rewrite crun_finished by reflexivity; cbn; by rewrite app_nil_r).
  set (sdp := offer_sdp (next_pc pg)).
  set (pg1 := create_peer_connection true pg). set (pg2 := set_channel ChConnecting pg1).
  set (p := set_local_gathered (mkPc (next_pc pg) None None []) "offer" sdp).
  set (pg3 := set_pc p pg2).
  set (text := stringify (Relay.msg_offer (local_description p))).
  set (msg := "Offer created — short URL will be generated").
  assert (E1 : cstep (mkClicks pg1 (tasks ++ [Some CCreated]) sent) (CResume (length tasks)) =
               mkClicks pg2 (tasks ++ [Some (COffered ("offer", sdp))]) sent).
  { rewrite (cstep_last _ tasks CCreated) by done. cbn. by rewrite app_nil_r. }
  assert (E2 : cstep (mkClicks pg2 (tasks ++ [Some (COffered ("offer", sdp))]) sent) (CResume (length tasks)) =
               mkClicks pg3 (tasks ++ [Some CLocalSet]) sent).
  { rewrite (cstep_last _ tasks (COffered ("offer", sdp))) by done. cbn.
    rewrite decide_True by done. cbn. by rewrite app_nil_r. }
  assert (E3 : cstep (mkClicks pg3 (tasks ++ [Some CLocalSet]) sent) (CResume (length tasks)) =
               mkClicks pg3 (tasks ++ [Some CGathered]) sent).
  { rewrite (cstep_last _ tasks CLocalSet) by done. cbn. by rewrite app_nil_r. }
  assert (E4 : cstep (mkClicks pg3 (tasks ++ [Some CGathered]) sent) (CResume (length tasks)) =
               mkClicks (show_status msg Info pg3) (tasks ++ [None]) (sent ++ [text])).
  { rewrite (cstep_last _ tasks CGathered) by done. cbn. by rewrite Hw. }
  assert (E5 : ws_send pg3 text = Send text (Ret (inr ()))) by (unfold ws_send; cbn; by rewrite Hw).
  unfold crun. cbn [foldl repeat]. rewrite E1, E2, E3, E4, E5. cbn. done.
Qed.

(** C30: two clicks on Create that overlap.  Each click reads the global
    [peerConnection] again after every [await].  When the second click
    creates its connection before the first has created its offer, both
    clicks go on with the second connection and the page sends that
    connection's offer twice; when the first click already holds its
    offer, [setLocalDescription] of that offer on the second connection
    rejects and only the second offer is sent.  Either way the first
    connection's offer is never sent; clicks far enough apart send one
    offer each, in order. *)
Theorem double_create_offers pg :
  ws_state pg = Relay.OPEN -> offer_sdp (next_pc pg) ≠ offer_sdp (S (next_pc pg)) ->
  let k := next_pc pg in
  let text j := stringify (Relay.msg_offer (desc "offer" (gathered (offer_sdp j)))) in
  let s0 := mkClicks pg [] [] in
  c_sent (crun s0 [CClick; CClick; CResume 0; CResume 1; CResume 0; CResume 1;
                   CResume 0; CResume 1; CResume 0; CResume 1]) = [text (S k); text (S k)] ∧
  c_sent (crun s0 [CClick; CResume 0; CClick; CResume 0; CResume 1; CResume 1;
                   CResume 1; CResume 1; CResume 0; CResume 0]) = [text (S k)] ∧
  c_sent (crun s0 [CClick; CResume 0; CResume 0; CResume 0; CResume 0; CClick;
                   CResume 1; CResume 1; CResume 1; CResume 1]) = [text k; text (S k)].
Proof.
  intros Hw Hne k text s0.
  split_and!; subst s0.
  all: repeat first
    [ rewrite crun_cons, cstep_click_open by (cbn; rewrite ?Hw; done)
    | rewrite crun_cons; erewrite cstep_resume;
        [|reflexivity|unfold create_resume; cbn; rewrite ?decide_True, ?decide_False, ?Hw by (done || naive_solver); reflexivity]
    | progress cbn [c_page c_tasks c_sent app] ].
  all: reflexivity.
Qed.

End Props.

(** ** Witnesses, with the concrete codec and session descriptions *)

(** A fresh page whose socket is open: connections 0 and 1. *)
Lemma double_create_witness :
  let pg := set_ws Relay.OPEN init in
  let text j := @stringify codec (Relay.msg_offer (desc "offer" (@gathered rtc (@offer_sdp rtc j)))) in
  let s0 := mkClicks pg [] [] in
  c_sent (crun (J:=codec) (R:=rtc) s0 [CClick; CClick; CResume 0; CResume 1; CResume 0; CResume 1;
                   CResume 0; CResume 1; CResume 0; CResume 1]) = [text 1; text 1] ∧
  c_sent (crun (J:=codec) (R:=rtc) s0 [CClick; CResume 0; CClick; CResume 0; CResume 1; CResume 1;
                   CResume 1; CResume 1; CResume 0; CResume 0]) = [text 1] ∧
  c_sent (crun (J:=codec) (R:=rtc) s0 [CClick; CResume 0; CResume 0; CResume 0; CResume 0; CClick;
                   CResume 1; CResume 1; CResume 1; CResume 1]) = [text 0; text 1].
Proof. apply (double_create_offers (J:=codec) (R:=rtc)); [reflexivity|vm_compute; congruence]. Defined.

End Clicks.
