(* ===== verification/Display.v ===== *)
(** * The page's display: status line, file sizes and QR code

    [src/unnamed/part_000]: [showStatus] (line 320) with its 5-second
    hide timer, [formatFileSize] (line 321) and the file input's
    [change] handler that uses it (lines 68-77), and [generateQRCode]
    (lines 309-316), whose text is the one a scanner reads.

    The status line is a record of the element's text, class and
    visibility, with the hide timers in the queue of [Timers.v] and the
    clock: [showStatus] arms a timer for [success] and [error] messages
    and never clears the previous one.  [formatFileSize] calls the
    floating-point [Math.log]; its floor of [log b / log 1024] is the
    class [FloatLog], whose law (the right power of 1024 below 2^49
    bytes) holds of IEEE doubles there; the other operations divide by
    a power of two and round, which the exact arithmetic on [N] here
    computes.  The QR text is [new URL(text, location.origin).href] when
    the constructor accepts the text ([Client.url_href] of the class
    [Browser]). *)

From S2P Require Import Prelude Json Timers TokenStore Relay Handshake.
From stdpp Require Import pretty.

Module Display.

(** ** The status line *)

Record line := mkLine {
  text : string;
  cls : string;
  visible : bool;
  hide_timers : queue unit;
  clock : N
}.

(** [statusMessage] before any status: empty and hidden. *)
Definition line_init : line := mkLine "" "" false empty_queue 0.

(** The delay of the hide timer of line 320. *)
Definition hide_delay : N := 5000.

Definition auto_hides (ty : string) : bool := String.eqb ty "success" || String.eqb ty "error".

(** [showStatus(msg, type)] at the current time (line 320). *)
Definition showStatus (msg ty : string) (l : line) : line :=
  mkLine msg ("status-message status-" +:+ ty) true
    (if auto_hides ty then (set_timeout (clock l) hide_delay () (hide_timers l)).1
     else hide_timers l)
    (clock l).

(** The clock reaches [t]: every due timer runs
    [statusMessage.style.display = 'none']. *)
Definition tick (t : N) (l : line) : line :=
  let '(cbs, q) := fire_due t (hide_timers l) in
  mkLine (text l) (cls l) (if bool_decide (cbs = []) then visible l else false) q t.

Inductive line_reachable : line -> Prop :=
| lr_init : line_reachable line_init
| lr_show m ty l : line_reachable l -> line_reachable (showStatus m ty l)
| lr_tick t l : line_reachable l -> (clock l ≤ t)%N -> line_reachable (tick t l).

(** ** File sizes *)

(** [Math.floor(Math.log(bytes) / Math.log(1024))] in doubles. *)
Class FloatLog := {
  flog1024 : N -> N;
  flog_spec : ∀ b, (1 ≤ b < 2 ^ 49)%N ->
    (1024 ^ flog1024 b ≤ b < 1024 ^ (flog1024 b + 1))%N
}.

(** [Math.round(a / b)] for [b > 0]: half rounds up. *)
Definition round_div (a b : N) : N := ((2 * a + b) / (2 * b))%N.

(** [String(n / 100)] of an integer [n]: at most two decimals, no
    trailing zero. *)
Definition show_hundredths (n : N) : string :=
  let q := (n / 100)%N in
  let r := (n mod 100)%N in
  pretty q +:+
  (if decide (r = 0%N) then ""
   else "." +:+ (if decide (r < 10)%N then "0" +:+ pretty r
                 else if decide (r mod 10 = 0)%N then pretty (r / 10)%N else pretty r)).

(** [const sizes = ['Bytes','KB','MB','GB']]; [sizes[i]] is
    [undefined] past the end. *)
Definition sizes : list string := ["Bytes"; "KB"; "MB"; "GB"].

Section Sizes.
Context `{F : FloatLog}.

(** [formatFileSize(bytes)] (line 321). *)
Definition formatFileSize (bytes : N) : string :=
  if decide (bytes = 0%N) then "0 Bytes"
  else
    let i := flog1024 bytes in
    show_hundredths (round_div (bytes * 100) (1024 ^ i)) +:+ " " +:+
      nth (N.to_nat i) sizes "undefined".

(** The file input's [change] handler (lines 68-77): the files
    selected, the [fileInfo] text shown (or [None] while hidden) and
    the status line. *)
Record picker := mkPicker { selectedFiles : list (string * N); fileInfo : option string; status : line }.

Definition on_file_change (files : list (string * N)) (pk : picker) : picker :=
  match files with
  | [] => mkPicker [] (fileInfo pk) (status pk)
  | _ =>
      let info := foldl (λ acc f, acc +:+ "• " +:+ f.1 +:+ " (" +:+ formatFileSize f.2 +:+ ")<br>")
                    ("Selected " +:+ pretty (N.of_nat (length files)) +:+ " file(s):<br>") files in
      mkPicker files (Some info) (showStatus "Files selected (ready to send)" "success" (status pk))
  end.
End Sizes.

(** ** The QR code *)

Section Qr.
Context `{B : Client.Browser}.

(** The text [generateQRCode(text, size)] encodes (lines 313-314). *)
Definition qr_text (text : string) : string :=
  match Client.url_href text with Some h => h | None => text end.
End Qr.

(** ** Lemmas *)

Lemma line_reachable_ok l : line_reachable l -> queue_ok hide_delay (clock l) (hide_timers l).
Proof.
  induction 1 as [|m ty l _ IH|t l _ IH Ht]; [apply queue_ok_empty| |].
  - unfold showStatus. simpl. destruct (auto_hides ty); [by apply set_timeout_ok|done].
  - unfold tick. pose proof (fire_due_ok _ _ _ _ Ht IH) as H.
    destruct (fire_due t (hide_timers l)). done.
Qed.

(** A tick fires every timer when all are due. *)
Lemma tick_all_due t l :
  Forall (λ tm, t_due tm ≤ t)%N (pending (hide_timers l)) -> pending (hide_timers l) ≠ [] ->
  visible (tick t l) = false ∧ pending (hide_timers (tick t l)) = [].
Proof.
  intros Hd Hne. unfold tick, fire_due. rewrite split_due_all by done. simpl.
  rewrite bool_decide_eq_false_2; [done|]. by intros ?%fmap_nil_inv.
Qed.

Lemma flog_unique b i j :
  (1024 ^ i ≤ b < 1024 ^ (i + 1))%N -> (1024 ^ j ≤ b < 1024 ^ (j + 1))%N -> i = j.
Proof.
  intros [Hi1 Hi2] [Hj1 Hj2].
  destruct (N.lt_trichotomy i j) as [Hlt|[->|Hlt]]; [exfalso| done |exfalso].
  - assert (1024 ^ (i + 1) ≤ 1024 ^ j)%N by (apply N.pow_le_mono_r; lia). lia.
  - assert (1024 ^ (j + 1) ≤ 1024 ^ i)%N by (apply N.pow_le_mono_r; lia). lia.
Qed.

Lemma flog_at `{F : FloatLog} b i :
  (1 ≤ b < 2 ^ 49)%N -> (1024 ^ i ≤ b < 1024 ^ (i + 1))%N -> flog1024 b = i.
Proof. intros Hb Hi. exact (flog_unique b _ _ (flog_spec b Hb) Hi). Qed.

Lemma trim_start_nospace s :
  forallb (λ c, negb (Client.js_space c)) (String.list_ascii_of_string s) = true ->
  Client.trim_start s = s.
Proof. destruct s as [|c s]; [done|]. simpl. intros [Hc _]%andb_prop. by destruct (Client.js_space c). Qed.

(** A text without white space is its own [trim()]. *)
Lemma trim_nospace s :
  forallb (λ c, negb (Client.js_space c)) (String.list_ascii_of_string s) = true ->
  Client.trim s = s.
Proof.
  intros Hs. unfold Client.trim. rewrite (trim_start_nospace s) by done.
  rewrite trim_start_nospace.
  - by rewrite String.list_ascii_of_string_of_list_ascii, rev_involutive,
      String.string_of_list_ascii_of_string.
  - rewrite String.list_ascii_of_string_of_list_ascii. apply forallb_forall.
    intros c Hc%in_rev. by apply (proj1 (forallb_forall _ _) Hs).
Qed.

(** ** Properties *)

(** C33: a stale hide timer hides a later message.  After a [success] or
    [error] status shown with no hide timer pending, an [info] status
    shown [d < 5000] ms later (which is meant to stay) is hidden when the
    first message's timer fires, [5000 - d] ms after it appeared:
    [showStatus] never clears the previous timer. *)
Theorem stale_timer_hides_info l m1 ty1 m2 d :
  pending (hide_timers l) = [] -> auto_hides ty1 = true -> (d < hide_delay)%N ->
  let l2 := showStatus m2 "info" (tick (clock l + d) (showStatus m1 ty1 l)) in
  let l3 := tick (clock l + hide_delay) l2 in
  visible l2 = true ∧ text l3 = m2 ∧ visible l3 = false.
Proof.
  intros Hp Hty Hd. unfold showStatus at 2. rewrite Hty.
  unfold tick, fire_due, set_timeout, hide_delay in *. simpl. rewrite Hp. simpl.
  repeat (case_decide; simpl; try lia). done.
Qed.

(** Success and error messages disappear.  In every state the status
    line can reach, a [success] or [error] status is hidden by the first
    tick at or after 5000 ms from the moment it was shown, and no hide
    timer is left pending. *)
Theorem auto_hide_after_delay l m ty t :
  line_reachable l -> auto_hides ty = true -> (clock l + hide_delay ≤ t)%N ->
  visible (tick t (showStatus m ty l)) = false ∧
  pending (hide_timers (tick t (showStatus m ty l))) = [].
Proof.
  intros Hr Hty Ht. pose proof (line_reachable_ok l Hr) as Hok.
  pose proof (set_timeout_ok _ _ () _ Hok) as (_ & Hd & _).
  apply tick_all_due; unfold showStatus; simpl; rewrite Hty; simpl.
  - eapply Forall_impl; [exact Hd|]. simpl. lia.
  - by destruct (pending (hide_timers l)).
Qed.

Section SizeProps.
Context `{F : FloatLog}.

(** Sizes below 1 KB.  A file of [1 <= b < 1024] bytes is shown as
    [b Bytes]. *)
Theorem format_bytes b :
  (1 ≤ b < 1024)%N -> formatFileSize b = pretty b +:+ " Bytes".
Proof.
  intros Hb. unfold formatFileSize. rewrite decide_False by lia.
  rewrite (flog_at b 0) by (simpl; lia). cbn [N.to_nat nth sizes].
  unfold show_hundredths, round_div. rewrite N.pow_0_r, N.mul_1_r.
  replace ((2 * (b * 100) + 1) / 2)%N with (b * 100)%N by div_lia.
  replace (b * 100 / 100)%N with b by div_lia.
  rewrite decide_True by div_lia. by rewrite str_app_nil_r.
Qed.

(** Sizes of a terabyte and more.  [sizes] stops at [GB]: a file of
    [1024^4] bytes or more (below 2^49) is shown with the unit
    [undefined]. *)
Theorem format_terabytes_undefined b :
  (1024 ^ 4 ≤ b < 2 ^ 49)%N -> ∃ x, formatFileSize b = x +:+ " undefined".
Proof.
  intros Hb. unfold formatFileSize. rewrite decide_False by lia.
  rewrite (flog_at b 4) by (simpl; lia). cbn [N.to_nat nth sizes].
  eexists. reflexivity.
Qed.
End SizeProps.

Section QrProps.
Context `{J : JsonCodec} `{B : Client.Browser} `{R : Client.Rtc} (uuid : nat -> string).

(** C32: the fallback QR code is not the token.  When a description
    cannot be shortened, the page shows the full token and its QR code
    (lines 107-108): [generateQRCode] turns the JSON text into a URL of
    the page's origin, so the code differs from the token, and a device
    that scans it and pastes the text into [handleScannedOrPastedToken]
    fails with [Error processing token]. *)
Theorem qr_fallback_unscannable fs pg n st :
  qr_text (stringify (JObj fs)) ≠ stringify (JObj fs) ∧
  Client.run_io uuid (Client.handle_scanned (qr_text (stringify (JObj fs))) pg) n st =
    Client.mkOutcome
      (Client.show_status ("Error processing token: " +:+ Client.message SyntaxError)
         Client.Failure pg) n st [].
Proof.
  destruct (stringify_obj fs) as [s ->].
  destruct (Client.href_json (s +:+ "}")) as (r & Hh & Hsp & Hp).
  unfold qr_text. rewrite Hh. split; [discriminate|].
  unfold Client.handle_scanned. rewrite trim_nospace
    by (rewrite str_list_app, forallb_app, Hsp; reflexivity).
  unfold Client.resolve. rewrite Hp. simpl. by rewrite parse_url.
Qed.
End QrProps.

(** ** A floor logarithm and witnesses *)

(** The exact floor of [log_1024 b], through [log2]. *)
Definition exact_log : FloatLog.
Proof.
  refine {| flog1024 := λ b, (N.log2 b / 10)%N |}.
  intros b [Hb _]. pose proof (N.log2_spec b ltac:(lia)) as [Hl Hu].
  rewrite <-!(N.pow_mul_r 2 10) in *.
  set (L := N.log2 b) in *. split.
  - etransitivity; [|exact Hl]. apply N.pow_le_mono_r; [lia|div_lia].
  - eapply N.lt_le_trans; [exact Hu|]. apply N.pow_le_mono_r; [lia|div_lia].
Defined.

Lemma stale_timer_witness :
  visible (showStatus "Offer created" "info" (tick 4000 (showStatus "Token copied!" "success" line_init))) = true ∧
  text (tick 5000 (showStatus "Offer created" "info"
                     (tick 4000 (showStatus "Token copied!" "success" line_init)))) = "Offer created" ∧
  visible (tick 5000 (showStatus "Offer created" "info"
                        (tick 4000 (showStatus "Token copied!" "success" line_init)))) = false.
Proof.
  apply (stale_timer_hides_info line_init "Token copied!" "success" "Offer created" 4000);
    [reflexivity|reflexivity|unfold hide_delay; lia].
Defined.

Lemma auto_hide_witness :
  visible (tick 5000 (showStatus "Signaling connection error" "error" line_init)) = false ∧
  pending (hide_timers (tick 5000 (showStatus "Signaling connection error" "error" line_init))) = [].
Proof.
  apply auto_hide_after_delay; [constructor|reflexivity|unfold hide_delay; simpl; lia].
Defined.

Lemma format_bytes_witness : @formatFileSize exact_log 512 = pretty 512%N +:+ " Bytes".
Proof. apply (@format_bytes exact_log). lia. Defined.

Lemma format_terabytes_witness : ∃ x, @formatFileSize exact_log (1024 ^ 4) = x +:+ " undefined".
Proof. apply (@format_terabytes_undefined exact_log). lia. Defined.

(** A kilobyte-sized file, and the picker's summary of the spec's
    40000-byte file. *)
Example format_kb : @formatFileSize exact_log 1536 = "1.5 KB".
Proof. vm_compute. reflexivity. Qed.

Example picker_summary :
  fileInfo (@on_file_change exact_log [("a.bin", 40000%N)] (mkPicker [] None line_init)) =
    Some "Selected 1 file(s):<br>• a.bin (39.06 KB)<br>".
Proof. vm_compute. reflexivity. Qed.

End Display.
