(* ===== verification/Progress.v ===== *)
(** * The progress bar of the sender

    [src/unnamed/part_000] line 319, [updateProgress(p)], called by the
    sender's [FileReader] [onload] (line 274) with
    [(offset / currentFile.size) * 100]: [Math.round] of that number
    becomes the bar's width and text, [r + '%'].

    The quotient is a double.  For a positive size, [Math.round] of it
    is the class [FloatPct], with the three facts of IEEE arithmetic the
    bar relies on: [size / size * 100] is exactly [100], [0 / size] is
    [0], and division by a fixed positive number, multiplication by 100
    and [Math.round] are monotone.  For a size of 0 the quotient is
    [NaN] ([0 / 0]) or [Infinity], whose text is [NaN%] or
    [Infinity%].  The exact rounding [exact_pct] satisfies the class and
    serves the witnesses.

    [drive_bars] is the sequence of bars the page shows while it is
    left alone after a click: the [updateProgress] call of each [onload]
    that [Sender.drive] runs, on the same states. *)

From S2P Require Import Prelude Json Transfer.
From stdpp Require Import pretty.
From Stdlib Require Import Sorting.Sorted Init.Byte.

Module Progress.

(** The number [Math.round(p)]: an integer, [NaN] or [Infinity]. *)
Inductive pnum := PFin (n : nat) | PNaN | PInf.

#[export] Instance pnum_eq_dec : EqDecision pnum.
Proof. solve_decision. Defined.

(** [r + '%']. *)
Definition bar_text (p : pnum) : string :=
  match p with
  | PFin n => pretty n +:+ "%"
  | PNaN => "NaN%"
  | PInf => "Infinity%"
  end.

(** [Math.round((x / y) * 100)] in doubles, for [0 < y]. *)
Class FloatPct := {
  round_pct : nat -> nat -> nat;
  pct_full : ∀ y, 0 < y -> round_pct y y = 100;
  pct_zero : ∀ y, 0 < y -> round_pct 0 y = 0;
  pct_mono : ∀ x1 x2 y, 0 < y -> x1 ≤ x2 -> round_pct x1 y ≤ round_pct x2 y
}.

Section Bars.
Context {P : FloatPct}.

(** [updateProgress((x / y) * 100)] (line 319). *)
Definition updateProgress (x y : nat) : pnum :=
  if decide (y = 0) then (if decide (x = 0) then PNaN else PInf) else PFin (round_pct x y).

(** The [updateProgress] call of the [onload] of reader [r] (line 274):
    the [offset] after the chunk over [currentFile.size]. *)
Definition sender_bar (r : nat) (st : Sender.state) : option pnum :=
  match list_find (λ rb, rb.1 = r) (Sender.reads st), Sender.currentFile st with
  | Some (_, (_, b)), Some f => Some (updateProgress (Sender.offset st + length b) (f_size f))
  | _, _ => None
  end.

(** The bars shown along [Sender.drive]. *)
Fixpoint drive_bars (fuel : nat) (st : Sender.state) : list pnum :=
  match fuel with
  | 0 => []
  | S fuel =>
      if decide (Sender.fileReader st ∈ (Sender.reads st).*1) then
        match sender_bar (Sender.fileReader st) st with Some p => [p] | None => [] end ++
        drive_bars fuel (Sender.on_load (Sender.fileReader st) st).1.1
      else []
  end.

(** The bars of chunks [cs] received or sent after [o] bytes. *)
Fixpoint prefix_bars (o size : nat) (cs : list (list byte)) : list pnum :=
  match cs with
  | [] => []
  | c :: cs => updateProgress (o + length c) size :: prefix_bars (o + length c) size cs
  end.

(** The [updateProgress] call of [receiveFile] for message [m] (line
    290): [(receivedSize / fileMetadata.size) * 100] after the chunk is
    counted.  A missing [size] gives [NaN]; a size that is not a
    non-negative number ([ToNumber] of a string or a negative quotient)
    is not modelled and gives [None], as does a text message, which
    shows no bar, and metadata that throws on [.size]. *)
Definition receiver_bar {J : JsonCodec} (m : dmsg) (st : Receiver.state) : option pnum :=
  match m with
  | DText _ => None
  | DBin b =>
      match get (Receiver.fileMetadata st) "size" with
      | inr (Some (JNum z)) =>
          if decide (0 ≤ z)%Z
          then Some (updateProgress (Receiver.receivedSize st + length b) (Z.to_nat z))
          else None
      | inr None => Some PNaN
      | _ => None
      end
  end.

(** The bars the receiver shows along the messages [ms]. *)
Fixpoint receive_bars {J : JsonCodec} (ms : list dmsg) (st : Receiver.state) : list pnum :=
  match ms with
  | [] => []
  | m :: ms =>
      match receiver_bar m st with Some p => [p] | None => [] end ++
      receive_bars ms (Receiver.receive m st).1.1
  end.

(** One click on [shareBtn] with an open channel, then [fuel] reads. *)
Definition click_bars {J : JsonCodec} (fuel : nat) (selected : list file) (st : Sender.state) : list pnum :=
  drive_bars fuel (Sender.share true selected st).1.1.

End Bars.

(** The exact rounding of [x * 100 / y], half up. *)
Definition exact_pct (x y : nat) : nat := (200 * x + y) / (2 * y).

#[export] Program Instance exact_float_pct : FloatPct := {| round_pct := exact_pct |}.
Next Obligation. intros y Hy. unfold exact_pct. symmetry. apply (Nat.div_unique _ _ _ y); lia. Qed.
Next Obligation. intros y Hy. unfold exact_pct. apply Nat.div_small. lia. Qed.
Next Obligation. intros x1 x2 y Hy Hx. unfold exact_pct. apply Nat.Div0.div_le_mono; lia. Qed.

(** ** The bars of a transfer *)

Section Proofs.
#[local] Opaque chunkSize.
Context {P : FloatPct}.

Lemma drive_bars_idle fuel st :
  Sender.fileReader st ∉ (Sender.reads st).*1 -> drive_bars fuel st = [].
Proof. destruct fuel; simpl; [done|]. intros H. by rewrite decide_False. Qed.

Lemma sender_bar_sending f o r nr :
  sender_bar r (sending f o r nr) = Some (updateProgress (o + length (slice f o)) (f_size f)).
Proof. unfold sender_bar, sending. simpl. by rewrite decide_True. Qed.

Lemma update_pos x y : 0 < y -> updateProgress x y = PFin (round_pct x y).
Proof. intros Hy. unfold updateProgress. by rewrite decide_False by lia. Qed.

(** From offset [o] on, the bars are numbers between the bar of [o]
    and 100, in order, and the last is 100. *)
Lemma bars_from fuel f o r nr :
  o < f_size f -> f_size f - o ≤ fuel * chunkSize ->
  ∃ ns, drive_bars fuel (sending f o r nr) = PFin <$> ns ∧
        Forall (λ n, round_pct o (f_size f) ≤ n ≤ 100) ns ∧ StronglySorted le ns ∧ last ns = Some 100.
Proof.
  revert o. induction fuel as [|fuel IH]; intros o Ho Hl; [lia|].
  assert (Hlen : length (slice f o) = Nat.min chunkSize (f_size f - o)).
  { unfold slice, f_size. by rewrite length_take, length_drop. }
  assert (Hmono : ∀ x1 x2, x1 ≤ x2 -> round_pct x1 (f_size f) ≤ round_pct x2 (f_size f))
    by (intros; apply pct_mono; lia).
  pose proof (pct_full (f_size f)) as Hfull.
  cbn [drive_bars]. rewrite decide_True by (unfold sending; simpl; set_solver).
  change (Sender.fileReader (sending f o r nr)) with r.
  rewrite sender_bar_sending, on_load_sending, update_pos, Hlen by lia.
  case_decide as Hlt.
  - destruct (IH (o + Nat.min chunkSize (f_size f - o))) as (ns & Hns & Hb & Hs & Hlast); [lia..|].
    exists (round_pct (o + Nat.min chunkSize (f_size f - o)) (f_size f) :: ns).
    cbn [fst]. rewrite Hns. split_and!; [done| | |].
    + constructor; [split; [apply Hmono|rewrite <-Hfull]; [lia|apply Hmono; lia|lia]|].
      eapply Forall_impl; [exact Hb|]. intros n [? ?]. split; [|done]. etrans; [|done]. apply Hmono. lia.
    + constructor; [done|]. eapply Forall_impl; [exact Hb|]. by intros n [? ?].
    + rewrite last_cons, Hlast. done.
  - exists [100]. cbn [fst]. rewrite drive_bars_idle by (simpl; set_solver).
    replace (o + Nat.min chunkSize (f_size f - o)) with (f_size f) by lia.
    rewrite Hfull by lia. split_and!; [done| |repeat constructor|done].
    constructor; [|done]. split; [|done]. rewrite <-Hfull by lia. apply Hmono. lia.
Qed.

(** Left alone with enough reads, the sender shows the bar of every
    chunk it sends. *)
Lemma drive_bars_chunks fuel f o r nr :
  o ≤ f_size f -> length (drop o (f_data f)) ≤ fuel * chunkSize -> 1 ≤ fuel ->
  drive_bars fuel (sending f o r nr) = prefix_bars o (f_size f) (chunks fuel (drop o (f_data f))).
Proof.
  revert o. induction fuel as [|fuel IH]; intros o Ho Hl Hf; [lia|].
  cbn [drive_bars]. rewrite decide_True by (unfold sending; simpl; set_solver).
  change (Sender.fileReader (sending f o r nr)) with r.
  rewrite sender_bar_sending, on_load_sending.
  assert (Hlen : length (slice f o) = Nat.min chunkSize (f_size f - o)).
  { unfold slice, f_size. by rewrite length_take, length_drop. }
  cbn [chunks]. change (take chunkSize (drop o (f_data f))) with (slice f o).
  unfold f_size in *. rewrite length_drop in Hl |- *. rewrite Hlen.
  case_decide as Hlt.
  - rewrite decide_False by lia. cbn [prefix_bars app fst]. rewrite Hlen.
    replace (Nat.min chunkSize (length (f_data f) - o)) with chunkSize by lia.
    rewrite IH; [|lia|rewrite length_drop; lia|destruct fuel; lia]. by rewrite drop_drop.
  - rewrite decide_True by lia. rewrite drive_bars_idle by (simpl; set_solver). cbn.
    rewrite length_drop. do 2 f_equal. lia.
Qed.

Lemma receive_bin_state {J : JsonCodec} n acc md c :
  (Receiver.receive (DBin c) (Receiver.mkState n acc md)).1.1 =
    Receiver.mkState (n + length c) (acc ++ [c]) md.
Proof.
  unfold Receiver.receive. cbn [Receiver.fileMetadata Receiver.receivedSize Receiver.receivedChunks].
  repeat case_match; done.
Qed.

(** The receiver shows the bar of every chunk of a declared file. *)
Lemma receive_bars_chunks {J : JsonCodec} f cs n acc :
  receive_bars (DBin <$> cs) (Receiver.mkState n acc (metadata f)) = prefix_bars n (f_size f) cs.
Proof.
  revert n acc. induction cs as [|c cs IH]; intros n acc; [done|].
  rewrite fmap_cons. cbn [receive_bars prefix_bars]. rewrite receive_bin_state, IH.
  unfold receiver_bar. cbn [Receiver.fileMetadata Receiver.receivedSize]. rewrite metadata_size.
  rewrite decide_True by lia. by rewrite Nat2Z.id.
Qed.

End Proofs.

(** ** Properties *)

Section Props.
#[local] Opaque chunkSize.
Context {J : JsonCodec} {P : FloatPct}.

(** C16: The progress bar of a transfer.  After one click on [shareBtn]
    that sends a non-empty file, with enough completed reads, the bar
    the sender shows goes through whole percentages that never decrease
    and never exceed 100, and its last value is 100. *)
Theorem sender_progress f fs fuel st :
  Sender.reads st = [] -> 0 < f_size f -> f_size f ≤ fuel * chunkSize ->
  ∃ ns, click_bars fuel (f :: fs) st = PFin <$> ns ∧
        StronglySorted le ns ∧ Forall (λ n, n ≤ 100) ns ∧ last ns = Some 100.
Proof.
  intros Hr Hp Hs. unfold click_bars. rewrite share_idle by done. cbn [fst].
  destruct (bars_from fuel f 0 (Sender.next_reader st) (S (Sender.next_reader st)))
    as (ns & Hns & Hb & Hsort & Hl); [lia..|].
  exists ns. split_and!; [done|done| |done]. eapply Forall_impl; [exact Hb|]. by intros n [? ?].
Qed.

(** C39: An empty file.  The sender reads one empty slice, and its [onload]
    computes [(0 / 0) * 100]: the bar shows [NaN%]. *)
Theorem empty_file_nan f fs fuel st :
  Sender.reads st = [] -> f_data f = [] -> 1 ≤ fuel ->
  bar_text <$> click_bars fuel (f :: fs) st = ["NaN%"].
Proof.
  intros Hr He Hf. unfold click_bars. rewrite share_idle by done. destruct fuel as [|fuel]; [lia|].
  cbn [drive_bars fst]. rewrite decide_True by (unfold sending; simpl; set_solver).
  change (Sender.fileReader (sending f 0 ?r ?nr)) with r.
  rewrite sender_bar_sending, on_load_sending. unfold slice, f_size. rewrite He, drop_nil, take_nil.
  cbn. rewrite drive_bars_idle by (simpl; set_solver). done.
Qed.

(** C15: The two bars agree.  After one click on [shareBtn] with enough
    completed reads, the receiver, run over what the sender sent, shows
    the same bars as the sender, in the same order. *)
Theorem progress_agrees f fs fuel st rst :
  Sender.reads st = [] -> f_size f ≤ fuel * chunkSize -> 1 ≤ fuel ->
  receive_bars (Sender.click_and_wait fuel (f :: fs) st).2 rst = click_bars fuel (f :: fs) st.
Proof.
  intros Hr Hs Hf. unfold Sender.click_and_wait, click_bars. rewrite share_idle by done.
  pose proof (drive_chunks fuel f 0 (Sender.next_reader st) (S (Sender.next_reader st))) as Hd.
  rewrite drop_0 in Hd. destruct (Sender.drive _ _) as [st2 out2] eqn:E. cbn [fst snd] in *.
  rewrite Hd by (unfold f_size in *; lia). cbn [app receive_bars receiver_bar].
  rewrite receive_metadata. cbn [fst].
  rewrite receive_bars_chunks, drive_bars_chunks by (rewrite ?drop_0; unfold f_size in *; lia).
  by rewrite drop_0.
Qed.

End Props.

(** ** Witnesses, with the concrete codec and the exact rounding *)

(** The spec's 40000-byte file: the bar reads 41%, 82%, 100%. *)
Example bars_40000 : bar_text <$> click_bars (J := codec) 3 [file40000] Sender.init = ["41%"; "82%"; "100%"].
Proof. vm_compute. reflexivity. Qed.

Lemma sender_progress_witness :
  ∃ ns, click_bars (J := codec) 3 [file40000] Sender.init = PFin <$> ns ∧
        StronglySorted le ns ∧ Forall (λ n, n ≤ 100) ns ∧ last ns = Some 100.
Proof.
  apply sender_progress; [reflexivity|apply Nat.ltb_lt; vm_compute; reflexivity
    |apply Nat.leb_le; vm_compute; reflexivity].
Defined.

Lemma progress_agrees_witness :
  receive_bars (J := codec) (Sender.click_and_wait (J := codec) 3 [file40000] Sender.init).2 Receiver.init =
    click_bars (J := codec) 3 [file40000] Sender.init.
Proof.
  apply progress_agrees; [reflexivity|apply Nat.leb_le; vm_compute; reflexivity|lia].
Defined.

Lemma empty_file_witness :
  bar_text <$> click_bars (J := codec) 1 [mkFile "e.txt" "text/plain" []] Sender.init = ["NaN%"].
Proof. apply empty_file_nan; [reflexivity|reflexivity|lia]. Defined.

End Progress.
